(** * agent-infra: the load-balancing proxy, its tracker and the poll loop

    A shallow embedding of the Python sources

      - [agent_infra/proxy/strategies.py]   (select_backend)
      - [agent_infra/proxy/backend.py]      (Backend, BackendPool)
      - [agent_infra/proxy/tracker.py]      (TrackedRequest, RequestTracker)
      - [agent_infra/proxy/server.py]       (parse_vllm_metrics, LoadBalancingProxy)
      - [agent_infra/orchestrator/manager.py] (ConnectionManager._poll_loop)
      - [agent_infra/tunnel/ssh.py]         (SSHTunnelManager.add_tunnel / remove_tunnel)

    Python objects mutated in place become explicit state passing; every
    reading of the wall clock and every answer of the network is an argument
    of the function that asks for it.  Python [float]s are IEEE binary64
    numbers, i.e. Rocq's primitive floats; Python [int]s are [Z]. *)

From Stdlib Require Import ZArith String Ascii List Bool Lia Permutation Sorted.
From Stdlib Require Import PrimFloat FloatOps SpecFloat.
From stdpp Require Import base option list gmap strings pretty fin_maps.

Set Warnings "-inexact-float".

Local Open Scope string_scope.
Local Open Scope list_scope.
Local Open Scope Z_scope.

(** ** Python values *)

(** Truthiness of an [Optional[str]]: [None] and the empty string are falsy. *)
Definition truthy_str (o : option string) : bool :=
  match o with
  | Some s => negb (String.eqb s "")
  | None => false
  end.

(** [x or y] on optional strings. *)
Definition or_str (x y : option string) : option string :=
  if truthy_str x then x else y.

(** ** Insertion-ordered dictionaries

    A Python [dict] keeps its keys in insertion order; assigning to an
    existing key keeps the key's place.  The order is observable (iteration in
    [_proxy_request], [list(d.keys())], stability of [sort]), so a dictionary
    is an association list with one entry per key. *)

Module PyDict.
Section ops.
Context {K V : Type} `{EqDecision K}.
Implicit Types (d : list (K * V)) (k : K) (v : V).

(** [d.get(k)] *)
Fixpoint getitem d k : option V :=
  match d with
  | [] => None
  | (k', v') :: d' => if decide (k' = k) then Some v' else getitem d' k
  end.

(** [k in d] *)
Definition contains d k : bool :=
  match getitem d k with Some _ => true | None => false end.

(** [d[k] = v] *)
Fixpoint setitem d k v : list (K * V) :=
  match d with
  | [] => [(k, v)]
  | (k', v') :: d' =>
      if decide (k' = k) then (k', v) :: d' else (k', v') :: setitem d' k v
  end.

(** [del d[k]] (the callers only delete keys that are present) *)
Fixpoint delitem d k : list (K * V) :=
  match d with
  | [] => []
  | (k', v') :: d' =>
      if decide (k' = k) then d' else (k', v') :: delitem d' k
  end.

(** [list(d.keys())] *)
Definition keys d : list K := map fst d.

(** [list(d.values())] *)
Definition values d : list V := map snd d.

(** One entry per key. *)
Definition wf d : Prop := NoDup (keys d).

(** [for k in ks: del d[k]] *)
Definition delete_all d (ks : list K) : list (K * V) := foldl delitem d ks.
End ops.
End PyDict.


(** ** Stable sorting

    [list.sort(key=...)] is stable and compares keys with [<] only.  On keys
    that [<] orders as a strict weak order every stable sort returns the same
    list; it is computed here by insertion. *)

Fixpoint insert_sorted {A} (lt : A → A → bool) (x : A) (l : list A) : list A :=
  match l with
  | [] => [x]
  | y :: l' => if lt y x then y :: insert_sorted lt x l' else x :: y :: l'
  end.

Definition py_sort {A} (lt : A → A → bool) (l : list A) : list A :=
  foldr (insert_sorted lt) [] l.

(** ** Wall-clock readings (tracker.py)

    [time.time()] returns a float.  The tracker compares such readings with
    [<], subtracts a configured interval from them and tests them for
    truthiness; these operations are the interface below.  The proxy runs the
    tracker on primitive floats. *)

Class Timestamp (T : Type) := {
  ts_lt : T → T → bool;     (* [a < b] *)
  ts_sub : T → T → T;       (* [a - b] *)
  ts_truthy : T → bool;     (* [bool(a)], i.e. [a != 0] *)
  ts_zero : T;              (* the [0] of [completed_at or 0] *)
}.

(** [<] is a strict weak order (true of floats that are not NaN). *)
Class TimestampOrder (T : Type) `{Timestamp T} := {
  ts_lt_irrefl (x : T) : ts_lt x x = false;
  ts_lt_trans (x y z : T) : ts_lt x y = true → ts_lt y z = true → ts_lt x z = true;
  ts_ge_trans (x y z : T) : ts_lt x y = false → ts_lt y z = false → ts_lt x z = false;
}.

#[export] Instance float_timestamp : Timestamp float := {|
  ts_lt := PrimFloat.ltb;
  ts_sub := PrimFloat.sub;
  ts_truthy x := negb (PrimFloat.eqb x 0%float);
  ts_zero := 0%float;
|}.

(** Integer clock ticks: an ordered instance. *)
#[export] Instance Z_timestamp : Timestamp Z := {|
  ts_lt := Z.ltb;
  ts_sub := Z.sub;
  ts_truthy x := negb (Z.eqb x 0);
  ts_zero := 0;
|}.

#[export] Instance Z_timestamp_order : TimestampOrder Z.
Proof.
  split; simpl; intros; rewrite ?Z.ltb_lt, ?Z.ltb_ge in *; lia.
Qed.

(** ** tracker.py *)

Inductive Status := pending | in_flight | completed | failed.

#[export] Instance Status_eq_dec : EqDecision Status.
Proof. solve_decision. Defined.

(** [status in ("completed", "failed")] *)
Definition is_done (s : Status) : bool :=
  match s with completed | failed => true | _ => false end.

(** [status in ("pending", "in_flight")] *)
Definition is_open (s : Status) : bool :=
  match s with pending | in_flight => true | _ => false end.

Record TrackedRequest (T : Type) := mkTrackedRequest {
  request_id : string;
  source : string;
  model : string;
  path : string;
  submitted_at : T;
  started_at : option T;
  completed_at : option T;
  backend : option string;
  status : Status;
  session_id : option string;
  task_id : option string;
  client_id : option string;
  client_command : option string;
  request_summary : option string;
  response_summary : option string;
  backend_time_ms : option float;
  agent_pre_ms : option float;
  agent_post_ms : option float;
  turn_number : option Z;
}.

Arguments mkTrackedRequest {T}.
Arguments request_id {T}.
Arguments source {T}.
Arguments model {T}.
Arguments path {T}.
Arguments submitted_at {T}.
Arguments started_at {T}.
Arguments completed_at {T}.
Arguments backend {T}.
Arguments status {T}.
Arguments session_id {T}.
Arguments task_id {T}.
Arguments client_id {T}.
Arguments client_command {T}.
Arguments request_summary {T}.
Arguments response_summary {T}.
Arguments backend_time_ms {T}.
Arguments agent_pre_ms {T}.
Arguments agent_post_ms {T}.
Arguments turn_number {T}.

Record RequestTracker (T : Type) := mkRequestTracker {
  requests : list (string * TrackedRequest T);
  max_history : Z;
  cleanup_interval : T;
  stale_timeout : T;
  _session_turn_counters : gmap string Z;
}.

Arguments mkRequestTracker {T}.
Arguments requests {T}.
Arguments max_history {T}.
Arguments cleanup_interval {T}.
Arguments stale_timeout {T}.
Arguments _session_turn_counters {T}.

Section tracker.
Context {T : Type} `{Timestamp T}.
Implicit Types (self : RequestTracker T) (req : TrackedRequest T) (now : T).

(** [RequestTracker.__init__] *)
Definition RequestTracker_init (max_history : Z) (cleanup_interval stale_timeout : T)
  : RequestTracker T :=
  mkRequestTracker [] max_history cleanup_interval stale_timeout ∅.

Definition with_requests self (rs : list (string * TrackedRequest T)) : RequestTracker T :=
  mkRequestTracker rs (max_history self) (cleanup_interval self)
    (stale_timeout self) (_session_turn_counters self).

(** The condition under which the first loop of [_cleanup_old_requests]
    appends a request to [to_remove]. *)
Definition expired (cutoff stale_cutoff : T) req : bool :=
  if is_done (status req) &&
     match completed_at req with
     | Some c => ts_truthy c && ts_lt c cutoff
     | None => false
     end
  then true
  else if is_open (status req) && ts_lt (submitted_at req) stale_cutoff
  then true
  else false.

(** [x[1].completed_at or 0], the sort key of the second phase. *)
Definition completed_key (x : string * TrackedRequest T) : T :=
  match completed_at x.2 with
  | Some c => if ts_truthy c then c else ts_zero
  | None => ts_zero
  end.

(** [RequestTracker._cleanup_old_requests], with [now] the clock reading. *)
Definition _cleanup_old_requests self now : RequestTracker T :=
  let cutoff := ts_sub now (cleanup_interval self) in
  let stale_cutoff := ts_sub now (stale_timeout self) in
  let to_remove :=
    map fst (filter (λ x, expired cutoff stale_cutoff x.2 = true) (requests self)) in
  let requests1 := PyDict.delete_all (requests self) to_remove in
  if Z.of_nat (length requests1) >? max_history self then
    let completed := filter (λ x, is_done (status x.2) = true) requests1 in
    let completed := py_sort (λ a b, ts_lt (completed_key a) (completed_key b)) completed in
    let excess := Z.of_nat (length requests1) - max_history self in
    with_requests self
      (PyDict.delete_all requests1 (map fst (take (Z.to_nat excess) completed)))
  else with_requests self requests1.

(** [RequestTracker.submit]; returns the new record and the tracker. *)
Definition submit self now (request_id source model path : string)
    (session_id task_id client_id client_command : option string)
  : TrackedRequest T * RequestTracker T :=
  let '(turn_number, counters) :=
    match session_id with
    | Some s =>
        if truthy_str session_id then
          let counter := default 0 (_session_turn_counters self !! s) + 1 in
          (Some counter, <[s := counter]> (_session_turn_counters self))
        else (None, _session_turn_counters self)
    | None => (None, _session_turn_counters self)
    end in
  let req :=
    mkTrackedRequest request_id source model path now None None None pending
      session_id task_id client_id client_command None None None None None
      turn_number in
  (req,
   mkRequestTracker (PyDict.setitem (requests self) request_id req)
     (max_history self) (cleanup_interval self) (stale_timeout self) counters).

(** [if request_id in self.requests: f(self.requests[request_id])], the
    shape of every in-place update of a tracked request. *)
Definition update_request self (rid : string)
    (f : TrackedRequest T → TrackedRequest T) : RequestTracker T :=
  match PyDict.getitem (requests self) rid with
  | Some req => with_requests self (PyDict.setitem (requests self) rid (f req))
  | None => self
  end.

(** [RequestTracker.start_processing] *)
Definition start_processing self now (rid backend_url : string) : RequestTracker T :=
  update_request self rid (λ req,
    mkTrackedRequest (request_id req) (source req) (model req) (path req)
      (submitted_at req) (Some now) (completed_at req) (Some backend_url) in_flight
      (session_id req) (task_id req) (client_id req) (client_command req)
      (request_summary req) (response_summary req) (backend_time_ms req)
      (agent_pre_ms req) (agent_post_ms req) (turn_number req)).

(** [RequestTracker.complete] *)
Definition complete self now (rid : string) (success : bool) : RequestTracker T :=
  update_request self rid (λ req,
    mkTrackedRequest (request_id req) (source req) (model req) (path req)
      (submitted_at req) (started_at req) (Some now) (backend req)
      (if success then completed else failed)
      (session_id req) (task_id req) (client_id req) (client_command req)
      (request_summary req) (response_summary req) (backend_time_ms req)
      (agent_pre_ms req) (agent_post_ms req) (turn_number req)).

End tracker.

(** *** Runs of the tracker *)

(** The calls a tracker receives during its life. *)
Inductive tracker_op (T : Type) :=
| OpSubmit (now : T) (rid source model path : string)
    (session_id task_id client_id client_command : option string)
| OpStart (now : T) (rid backend_url : string)
| OpComplete (now : T) (rid : string) (success : bool)
| OpCleanup (now : T).

Arguments OpSubmit {T}.
Arguments OpStart {T}.
Arguments OpComplete {T}.
Arguments OpCleanup {T}.

Section tracker_runs.
Context {T : Type} `{Timestamp T}.
Implicit Types (self : RequestTracker T) (op : tracker_op T) (ops : list (tracker_op T)).

Definition run_op self op : RequestTracker T :=
  match op with
  | OpSubmit now rid src mdl pth sid tid cid cmd =>
      (submit self now rid src mdl pth sid tid cid cmd).2
  | OpStart now rid url => start_processing self now rid url
  | OpComplete now rid ok => complete self now rid ok
  | OpCleanup now => _cleanup_old_requests self now
  end.

Definition run_ops self ops : RequestTracker T := foldl run_op self ops.

(** The turn number a call hands out for session [s], if any. *)
Definition turn_issued (s : string) self op : option Z :=
  match op with
  | OpSubmit now rid src mdl pth sid tid cid cmd =>
      if decide (sid = Some s)
      then turn_number (submit self now rid src mdl pth sid tid cid cmd).1
      else None
  | _ => None
  end.

(** All turn numbers handed out for [s] along a run, oldest first. *)
Fixpoint turns_issued (s : string) self ops : list Z :=
  match ops with
  | [] => []
  | op :: ops' =>
      match turn_issued s self op with
      | Some n => n :: turns_issued s (run_op self op) ops'
      | None => turns_issued s (run_op self op) ops'
      end
  end.

(** [self._session_turn_counters.get(s, 0)] *)
Definition turn_counter self (s : string) : Z :=
  default 0 (_session_turn_counters self !! s).

End tracker_runs.

(** *** The phases of the cleanup *)


Section cleanup_phases.
Context {T : Type} `{Timestamp T}.
Implicit Types (self : RequestTracker T) (now : T) (req : TrackedRequest T).

(** [expired] at the cutoffs the cleanup computes from [now]. *)
Definition expired_at self now req : bool :=
  expired (ts_sub now (cleanup_interval self)) (ts_sub now (stale_timeout self)) req.

(** The store after the first loop of the cleanup. *)
Definition after_expiry self now : list (string * TrackedRequest T) :=
  filter (λ x, expired_at self now x.2 = false) (requests self).

(** The order of the second phase's sort. *)
Definition older (a b : string * TrackedRequest T) : bool :=
  ts_lt (completed_key a) (completed_key b).

(** The finished requests that survive the first loop. *)
Definition finished_after_expiry self now : list (string * TrackedRequest T) :=
  filter (λ x, is_done (status x.2) = true) (after_expiry self now).

(** The entries the second phase deletes when it runs. *)
Definition size_victims self now : list (string * TrackedRequest T) :=
  take (Z.to_nat (Z.of_nat (length (after_expiry self now)) - max_history self))
    (py_sort older (finished_after_expiry self now)).

End cleanup_phases.

(** ** backend.py *)

Record Backend := mkBackend {
  host : string;
  port : Z;
  healthy : bool;
  last_check : float;
  request_count : Z;
  error_count : Z;
  avg_latency_ms : float;
  gpu_load : Z;
  load_last_updated : float;
  inflight : Z;
  consecutive_timeouts : Z;
  partition : string;
}.

(** [Backend(host=host, port=port, partition=partition)] *)
Definition Backend_init (host : string) (port : Z) (partition : string) : Backend :=
  mkBackend host port true 0 0 0 0 0 0 0 0 partition.

(** [Backend.url] *)
Definition url (b : Backend) : string :=
  ("http://" ++ host b ++ ":" ++ pretty (port b))%string.

Definition with_healthy (b : Backend) (h : bool) : Backend :=
  mkBackend (host b) (port b) h (last_check b) (request_count b) (error_count b)
    (avg_latency_ms b) (gpu_load b) (load_last_updated b) (inflight b)
    (consecutive_timeouts b) (partition b).

Definition with_last_check (b : Backend) (t : float) : Backend :=
  mkBackend (host b) (port b) (healthy b) t (request_count b) (error_count b)
    (avg_latency_ms b) (gpu_load b) (load_last_updated b) (inflight b)
    (consecutive_timeouts b) (partition b).

Definition with_load (b : Backend) (load : Z) (t : float) : Backend :=
  mkBackend (host b) (port b) (healthy b) (last_check b) (request_count b)
    (error_count b) (avg_latency_ms b) load t (inflight b)
    (consecutive_timeouts b) (partition b).

Definition with_inflight (b : Backend) (n : Z) : Backend :=
  mkBackend (host b) (port b) (healthy b) (last_check b) (request_count b)
    (error_count b) (avg_latency_ms b) (gpu_load b) (load_last_updated b) n
    (consecutive_timeouts b) (partition b).

Definition with_consecutive_timeouts (b : Backend) (n : Z) : Backend :=
  mkBackend (host b) (port b) (healthy b) (last_check b) (request_count b)
    (error_count b) (avg_latency_ms b) (gpu_load b) (load_last_updated b)
    (inflight b) n (partition b).

Definition with_partition (b : Backend) (p : string) : Backend :=
  mkBackend (host b) (port b) (healthy b) (last_check b) (request_count b)
    (error_count b) (avg_latency_ms b) (gpu_load b) (load_last_updated b)
    (inflight b) (consecutive_timeouts b) p.

(** [Backend.record_request] *)
Definition record_request (b : Backend) (latency_ms : float) (success : bool) : Backend :=
  let alpha := 0.2%float in
  mkBackend (host b) (port b) (healthy b) (last_check b) (request_count b + 1)
    (if success then error_count b else error_count b + 1)
    (if success
     then (alpha * latency_ms + (1 - alpha) * avg_latency_ms b)%float
     else avg_latency_ms b)
    (gpu_load b) (load_last_updated b) (inflight b) (consecutive_timeouts b)
    (partition b).

Record BackendPool := mkBackendPool {
  pool_model : string;           (* [model] *)
  backends : list Backend;
  _index : Z;
}.

(** [BackendPool(model=model)] *)
Definition BackendPool_init (model : string) : BackendPool :=
  mkBackendPool model [] 0.

Definition with_backends (self : BackendPool) (bs : list Backend) : BackendPool :=
  mkBackendPool (pool_model self) bs (_index self).

(** [b.host == host and b.port == port] *)
Definition same_endpoint (h : string) (p : Z) (b : Backend) : bool :=
  String.eqb (host b) h && (port b =? p).

(** [BackendPool.add_backend] *)
Fixpoint add_backend_to (bs : list Backend) (h : string) (p : Z) (part : string)
  : list Backend :=
  match bs with
  | [] => [Backend_init h p part]
  | b :: bs' =>
      if same_endpoint h p b then
        let b := with_healthy b true in
        (if negb (String.eqb part "") then with_partition b part else b) :: bs'
      else b :: add_backend_to bs' h p part
  end.

Definition add_backend (self : BackendPool) (h : string) (p : Z) (part : string)
  : BackendPool :=
  with_backends self (add_backend_to (backends self) h p part).

(** [BackendPool.remove_backend]: the first backend at [(h, p)] is popped. *)
Fixpoint remove_backend_from (bs : list Backend) (h : string) (p : Z)
  : list Backend * bool :=
  match bs with
  | [] => ([], false)
  | b :: bs' =>
      if same_endpoint h p b then (bs', true)
      else let '(bs'', removed) := remove_backend_from bs' h p in (b :: bs'', removed)
  end.

Definition remove_backend (self : BackendPool) (h : string) (p : Z)
  : BackendPool * bool :=
  let '(bs, removed) := remove_backend_from (backends self) h p in
  (with_backends self bs, removed).

(** ** strategies.py *)

(** [min(...)] over integers; [None] on an empty sequence. *)
Definition py_min_Z (l : list Z) : option Z :=
  match l with
  | [] => None
  | x :: l' => Some (foldl Z.min x l')
  end.

(** [min(...)] over floats: the first item is kept until a later one is
    [<] it. *)
Definition py_min_float (l : list float) : option float :=
  match l with
  | [] => None
  | x :: l' => Some (foldl (λ m y, if PrimFloat.ltb y m then y else m) x l')
  end.

(** [tied[current_index % len(tied)]], where [tied] holds the positions (in
    [backends]) of the tied backends; [None] when [tied] is empty
    ([ZeroDivisionError]). *)
Definition pick_tied (tied : list nat) (current_index : Z) : option nat :=
  match tied with
  | [] => None
  | _ => tied !! Z.to_nat (current_index `mod` Z.of_nat (length tied))
  end.

(** The positions of the backends whose key satisfies [is_min]. *)
Definition tied_positions (is_min : Backend → bool) (backends : list Backend) : list nat :=
  (filter (λ ib, is_min ib.2 = true) (imap pair backends)).*1.

(** [select_backend].  Python returns the chosen object; the model returns
    its position in [backends].  [None] stands for a raised exception. *)
Definition select_backend (backends : list Backend) (strategy : string)
    (current_index : Z) : option (nat * Z) :=
  match backends with
  | [] => None
  | _ =>
      if String.eqb strategy "round_robin" then
        Some (Z.to_nat (current_index `mod` Z.of_nat (length backends)),
              current_index + 1)
      else if String.eqb strategy "least_connections" then
        min_inflight ← py_min_Z (inflight <$> backends);
        pos ← pick_tied (tied_positions (λ b, inflight b =? min_inflight) backends)
                current_index;
        Some (pos, current_index + 1)
      else if String.eqb strategy "least_latency" then
        min_lat ← py_min_float (avg_latency_ms <$> backends);
        pos ← pick_tied
                (tied_positions (λ b, PrimFloat.eqb (avg_latency_ms b) min_lat) backends)
                current_index;
        Some (pos, current_index + 1)
      else if String.eqb strategy "least_load" then
        min_score ← py_min_Z ((λ b, gpu_load b + inflight b) <$> backends);
        pos ← pick_tied
                (tied_positions (λ b, gpu_load b + inflight b =? min_score) backends)
                current_index;
        Some (pos, current_index + 1)
      else Some (0%nat, current_index)
  end.

(** ** backend.py: acquiring a backend *)

(** [[b for b in self.backends if b.healthy]], each with its position in
    [self.backends] (the list holds the pool's own objects). *)
Definition healthy_backends (self : BackendPool) : list (nat * Backend) :=
  filter (λ ib, healthy ib.2 = true) (imap pair (backends self)).

Inductive acquired :=
| Acquired (pos : nat) (pool : BackendPool)   (* the backend at [pos], counted in *)
| NoHealthyBackend                            (* [return None] *)
| SelectRaised.                               (* [select_backend] raised *)

(** [BackendPool.get_backend] *)
Definition get_backend (self : BackendPool) (strategy : string) : acquired :=
  let hb := healthy_backends self in
  match hb with
  | [] => NoHealthyBackend
  | _ =>
      match select_backend hb.*2 strategy (_index self) with
      | Some (j, index') =>
          match hb !! j with
          | Some (pos, b) =>
              Acquired pos
                (mkBackendPool (pool_model self)
                   (<[pos := with_inflight b (inflight b + 1)]> (backends self))
                   index')
          | None => SelectRaised
          end
      | None => SelectRaised
      end
  end.

(** [sum(b.inflight for b in pool.backends)] *)
Definition total_inflight (self : BackendPool) : Z :=
  foldr (λ b acc, inflight b + acc) 0 (backends self).

(** ** server.py: parsing the metrics of a backend *)

(** *** The string methods used *)

(** [s.split(sep)] for a one-character separator. *)
Fixpoint split_on (sep : ascii) (s : string) : list string :=
  match s with
  | EmptyString => [""]
  | String c s' =>
      let rest := split_on sep s' in
      if Ascii.eqb c sep then "" :: rest
      else match rest with
           | field :: fields => String c field :: fields
           | [] => [String c ""]
           end
  end.

(** [c.isspace()] for a character below U+0100. *)
Definition is_space (c : ascii) : bool :=
  let n := nat_of_ascii c in
  ((9 <=? n) && (n <=? 13) || (28 <=? n) && (n <=? 32)
   || (n =? 133) || (n =? 160))%nat.

(** [s.split()]: the maximal runs of characters that are not white space.
    [cur] is the run being read, reversed. *)
Fixpoint split_whitespace_go (cur : list ascii) (s : string) : list string :=
  let flush rest :=
    match cur with
    | [] => rest
    | _ => string_of_list_ascii (rev cur) :: rest
    end in
  match s with
  | EmptyString => flush []
  | String c s' =>
      if is_space c then flush (split_whitespace_go [] s')
      else split_whitespace_go (c :: cur) s'
  end.

Definition split_whitespace (s : string) : list string := split_whitespace_go [] s.

(** *** Numbers *)

(** The result of evaluating [int(float(token))]. *)
Inductive int_result :=
| IntOk (n : Z)
| IntValueError          (* [float] rejects the token, or the float is a NaN *)
| IntOverflowError.      (* the float is an infinity *)

(** [int(x)] for a float [x]: truncation toward zero. *)
Definition int_of_float (x : float) : int_result :=
  match Prim2SF x with
  | S754_zero _ => IntOk 0
  | S754_infinity _ => IntOverflowError
  | S754_nan => IntValueError
  | S754_finite neg m e =>
      let magnitude :=
        if 0 <=? e then Z.pos m * 2 ^ e else Z.pos m / 2 ^ (- e) in
      IntOk (if neg then - magnitude else magnitude)
  end.

(** The built-in [float(token)] on strings; [None] is [ValueError].  The
    conversion of decimal text to binary64 is Python's, not this
    repository's: it is a parameter of the model. *)
Class FloatParser := py_float : string → option float.

Section metrics.
Context `{FloatParser}.

(** [int(float(line.split()[-1]))] *)
Definition int_of_last_field (line : string) : int_result :=
  match last (split_whitespace line) with
  | None => IntValueError                       (* [IndexError], caught alike *)
  | Some token =>
      match py_float token with
      | None => IntValueError
      | Some x => int_of_float x
      end
  end.


(** The dictionary [parse_vllm_metrics] returns has at most the keys
    ['running'] and ['waiting']. *)
Record vllm_metrics := mkMetrics {
  running : option Z;
  waiting : option Z;
}.

(** One iteration of the loop of [parse_vllm_metrics]; [None] when an
    exception other than [ValueError] and [IndexError] escapes. *)
Definition parse_line (metrics : vllm_metrics) (line : string) : option vllm_metrics :=
  if String.prefix "vllm:num_requests_running" line then
    match int_of_last_field line with
    | IntOk n => Some (mkMetrics (Some n) (waiting metrics))
    | IntValueError => Some metrics
    | IntOverflowError => None
    end
  else if String.prefix "vllm:num_requests_waiting" line then
    match int_of_last_field line with
    | IntOk n => Some (mkMetrics (running metrics) (Some n))
    | IntValueError => Some metrics
    | IntOverflowError => None
    end
  else Some metrics.

(** [parse_vllm_metrics]; [None] when it raises. *)
Definition parse_vllm_metrics (text : string) : option vllm_metrics :=
  foldl (λ acc line, metrics ← acc; parse_line metrics line)
    (Some (mkMetrics None None)) (split_on "010"%char text).

(** *** Refreshing load and health *)

Definition LOAD_CACHE_TTL : float := 1%float.

(** What [GET /metrics] gives: an exception (also while reading the body),
    or a status and the body text. *)
Inductive metrics_response :=
| MetricsFailed
| MetricsResponse (status : Z) (text : string).

(** [LoadBalancingProxy._refresh_backend_load]; [resp] is the answer the
    request gets if it is made. *)
Definition _refresh_backend_load (backend : Backend) (now : float)
    (resp : metrics_response) : Backend :=
  if PrimFloat.ltb (now - load_last_updated backend)%float LOAD_CACHE_TTL then backend
  else
    match resp with
    | MetricsFailed => backend
    | MetricsResponse status text =>
        if status =? 200 then
          match parse_vllm_metrics text with
          | Some metrics =>
              with_load backend
                (default 0 (running metrics) + default 0 (waiting metrics)) now
          | None => backend
          end
        else backend
    end.

(** What [GET /health] gives. *)
Inductive health_response :=
| HealthFailed
| HealthResponse (status : Z).

(** [LoadBalancingProxy._check_single_backend]; [checked_at] is the clock
    reading stored as [last_check], [now] the one taken by the load refresh. *)
Definition _check_single_backend (backend : Backend) (resp : health_response)
    (checked_at now : float) (metrics : metrics_response) : Backend :=
  match resp with
  | HealthResponse status =>
      let backend := with_last_check (with_healthy backend (status <? 500)) checked_at in
      if healthy backend then _refresh_backend_load backend now metrics else backend
  | HealthFailed => with_last_check (with_healthy backend false) checked_at
  end.

End metrics.

(** ** server.py: the proxy *)

(** [config.schema.HeadersConfig] *)
Record HeadersConfig := mkHeadersConfig {
  hc_session : string;
  hc_task : string;
  hc_client : string;
  hc_timing_pre : string;
  hc_timing_post : string;
}.

Definition HeadersConfig_default : HeadersConfig :=
  mkHeadersConfig "X-Session-ID" "X-Task-ID" "X-Client-ID"
    "X-Timing-Pre-Ms" "X-Timing-Post-Ms".

Record LoadBalancingProxy := mkProxy {
  strategy : string;
  headers : HeadersConfig;
  pools : list (string * BackendPool);
  model_to_pool : list (string * string);
  _cached_models : list string;          (* the ids of the cached model entries *)
  _models_cache_time : float;
  _models_cache_ttl : float;
  total_requests : Z;
  total_errors : Z;
  tracker : RequestTracker float;
}.

(** [LoadBalancingProxy.__init__] *)
Definition LoadBalancingProxy_init (strategy : string) (headers : HeadersConfig)
  : LoadBalancingProxy :=
  mkProxy strategy headers [] [] [] 0 30 0 0
    (RequestTracker_init 1000 60%float 600%float).

Definition with_pools (self : LoadBalancingProxy) (ps : list (string * BackendPool))
  : LoadBalancingProxy :=
  mkProxy (strategy self) (headers self) ps (model_to_pool self) (_cached_models self)
    (_models_cache_time self) (_models_cache_ttl self) (total_requests self)
    (total_errors self) (tracker self).

Definition with_tracker (self : LoadBalancingProxy) (t : RequestTracker float)
  : LoadBalancingProxy :=
  mkProxy (strategy self) (headers self) (pools self) (model_to_pool self)
    (_cached_models self) (_models_cache_time self) (_models_cache_ttl self)
    (total_requests self) (total_errors self) t.

Definition with_totals (self : LoadBalancingProxy) (requests errors : Z)
  : LoadBalancingProxy :=
  mkProxy (strategy self) (headers self) (pools self) (model_to_pool self)
    (_cached_models self) (_models_cache_time self) (_models_cache_ttl self)
    requests errors (tracker self).

(** [self.total_errors += 1] *)
Definition count_error (self : LoadBalancingProxy) : LoadBalancingProxy :=
  with_totals self (total_requests self) (total_errors self + 1).

(** [LoadBalancingProxy.add_backend] *)
Definition proxy_add_backend (self : LoadBalancingProxy) (model : string)
    (h : string) (p : Z) (part : string) : LoadBalancingProxy :=
  let ps :=
    if PyDict.contains (pools self) model then pools self
    else PyDict.setitem (pools self) model (BackendPool_init model) in
  match PyDict.getitem ps model with
  | Some pool => with_pools self (PyDict.setitem ps model (add_backend pool h p part))
  | None => with_pools self ps
  end.

(** [LoadBalancingProxy.remove_backend] *)
Definition proxy_remove_backend (self : LoadBalancingProxy) (h : string) (p : Z)
  : LoadBalancingProxy * bool :=
  (with_pools self
     (map (λ kv : string * BackendPool, (kv.1, (remove_backend kv.2 h p).1))
        (pools self)),
   existsb (λ kv : string * BackendPool, (remove_backend kv.2 h p).2) (pools self)).

(** *** Model discovery *)

(** One element of the ["data"] list of a [/v1/models] answer: a dictionary
    with its ["id"] ([None] when absent), or something [.get] fails on. *)
Inductive model_entry :=
| EntryId (id : option string)
| EntryMalformed.

(** What [GET /v1/models] gives: an exception, or a status and the decoded
    body: the list under ["data"] (empty when the key is absent), or [None]
    when [resp.json()] raises or what it returns is not a dictionary with a
    list there. *)
Inductive models_response :=
| ModelsFailed
| ModelsResponse (status : Z) (data : option (list model_entry)).

(** The answers of the backends, by host and port. *)
Definition models_env := string → Z → models_response.

(** The loop over [data.get("data", [])]: the map, the ids seen so far in
    first-seen order, and whether an exception ended the loop. *)
Fixpoint register_models (pool_name : string) (entries : list model_entry)
    (m2p : list (string * string)) (all_models : list string)
  : list (string * string) * list string * bool :=
  match entries with
  | [] => (m2p, all_models, false)
  | EntryMalformed :: _ => (m2p, all_models, true)
  | EntryId id :: entries' =>
      match id with
      | Some model_id =>
          if truthy_str id then
            register_models pool_name entries'
              (PyDict.setitem m2p model_id pool_name)
              (if bool_decide (model_id ∈ all_models) then all_models
               else all_models ++ [model_id])
          else register_models pool_name entries' m2p all_models
      | None => register_models pool_name entries' m2p all_models
      end
  end.

(** The loop over the backends of one pool: the first healthy backend that
    answers 200 with a well-formed list ends it. *)
Fixpoint fetch_pool_models (env : models_env) (pool_name : string)
    (bs : list Backend) (m2p : list (string * string)) (all_models : list string)
  : list (string * string) * list string :=
  match bs with
  | [] => (m2p, all_models)
  | b :: bs' =>
      if negb (healthy b) then fetch_pool_models env pool_name bs' m2p all_models
      else
        match env (host b) (port b) with
        | ModelsResponse status (Some entries) =>
            if status =? 200 then
              let '(m2p', all', raised) :=
                register_models pool_name entries m2p all_models in
              if raised then fetch_pool_models env pool_name bs' m2p' all'
              else (m2p', all')
            else fetch_pool_models env pool_name bs' m2p all_models
        | ModelsResponse status None =>
            fetch_pool_models env pool_name bs' m2p all_models
        | ModelsFailed => fetch_pool_models env pool_name bs' m2p all_models
        end
  end.

Definition fetch_all_pools (env : models_env) (ps : list (string * BackendPool))
    (m2p : list (string * string)) : list (string * string) * list string :=
  foldl (λ acc kv,
           fetch_pool_models env kv.1 (backends kv.2) acc.1 acc.2)
    (m2p, []) ps.

(** [LoadBalancingProxy._fetch_backend_models]; returns the ids of the
    models it returns. *)
Definition _fetch_backend_models (self : LoadBalancingProxy) (force : bool)
    (now : float) (env : models_env) : LoadBalancingProxy * list string :=
  if negb force
     && match _cached_models self with [] => false | _ => true end
     && PrimFloat.ltb (now - _models_cache_time self)%float (_models_cache_ttl self)
  then (self, _cached_models self)
  else
    let '(m2p, all_models) := fetch_all_pools env (pools self) (model_to_pool self) in
    (mkProxy (strategy self) (headers self) (pools self) m2p all_models now
       (_models_cache_ttl self) (total_requests self) (total_errors self)
       (tracker self),
     all_models).

(** *** The strings of the pool lookup *)

(** [c.lower()] for a character below U+0100. *)
Definition lower_char (c : ascii) : ascii :=
  let n := nat_of_ascii c in
  if ((65 <=? n) && (n <=? 90)
      || (192 <=? n) && (n <=? 222) && negb (n =? 215))%nat
  then ascii_of_nat (n + 32) else c.

(** [s.lower()] *)
Fixpoint lower (s : string) : string :=
  match s with
  | EmptyString => EmptyString
  | String c s' => String (lower_char c) (lower s')
  end.

(** [a in b] on strings *)
Fixpoint is_substring (a b : string) : bool :=
  String.prefix a b
  || match b with
     | EmptyString => false
     | String _ b' => is_substring a b'
     end.

(** [s[:n]] *)
Definition str_take (n : nat) (s : string) : string := String.substring 0 n s.

(** *** What a request meets *)

(** The outcome of reading a summary text off a JSON body: the text found
    (empty when there is none, or when the inspection fails with an exception
    the handler catches), or an exception the handler does not catch. *)
Inductive inspected :=
| Inspected (text : string)
| InspectionRaises.

(** The incoming request, as far as the handler looks at it. *)
Record request := mkRequest {
  rq_remote : option string;               (* [request.remote] *)
  rq_headers : string → option string;     (* [request.headers.get] *)
  rq_last_user_msg : inspected;            (* the inspection of the body *)
}.

(** What the upstream call gives: a response (status, the inspection of its
    body, the rounded round-trip time, the latency), a timeout, a transport
    error, or another exception; the latter three with the elapsed time the
    handler measures. *)
Inductive upstream :=
| UpResponse (status : Z) (action_text : inspected) (backend_time_ms latency_ms : float)
| UpTimeout (latency_ms : float)
| UpClientError (latency_ms : float)
| UpOtherError.

(** The clock readings taken while one request is handled. *)
Record readings := mkReadings {
  t_submit : float;        (* in [tracker.submit] *)
  t_models : float;        (* in [_fetch_backend_models] *)
  t_started : float;       (* in [tracker.start_processing] *)
  t_completed : float;     (* in [tracker.complete] *)
}.

(** What the handler returns. *)
Inductive response :=
| NotFound (error : string) (available : list string)        (* 404 *)
| NoHealthy (error : string)                                 (* 503 *)
| GatewayTimeout (backend_url : string)                      (* 504 *)
| BadGateway (backend_url : string)                          (* 502 *)
| Forwarded (status : Z)                (* the upstream status, headers, body *)
| HandlerRaised.                        (* an exception leaves the handler *)

Definition response_status (r : response) : option Z :=
  match r with
  | NotFound _ _ => Some 404
  | NoHealthy _ => Some 503
  | GatewayTimeout _ => Some 504
  | BadGateway _ => Some 502
  | Forwarded status => Some status
  | HandlerRaised => None
  end.

(** *** What a request does to its backend *)

(** The success branch: [record_request(latency_ms, status < 500)], then
    [consecutive_timeouts = 0]. *)
Definition on_response (b : Backend) (latency_ms : float) (status : Z) : Backend :=
  with_consecutive_timeouts (record_request b latency_ms (status <? 500)) 0.

(** The [except asyncio.TimeoutError] branch. *)
Definition on_timeout (b : Backend) (latency_ms : float) : Backend :=
  let b := record_request b latency_ms false in
  let b := with_consecutive_timeouts b (consecutive_timeouts b + 1) in
  if consecutive_timeouts b >=? 3 then with_healthy b false else b.

(** The [except ClientError] branch. *)
Definition on_client_error (b : Backend) (latency_ms : float) : Backend :=
  with_healthy (record_request b latency_ms false) false.

(** The [finally] clause: [backend.inflight = max(0, backend.inflight - 1)]. *)
Definition release (b : Backend) : Backend :=
  with_inflight b (Z.max 0 (inflight b - 1)).

(** What the upstream outcome does to the backend before the [finally]. *)
Definition settle (b : Backend) (up : upstream) : Backend :=
  match up with
  | UpResponse status _ _ latency_ms => on_response b latency_ms status
  | UpTimeout latency_ms => on_timeout b latency_ms
  | UpClientError latency_ms => on_client_error b latency_ms
  | UpOtherError => b
  end.

Section proxy.
Context `{FloatParser}.
Implicit Types (self : LoadBalancingProxy).

(** The backend object a handler holds: the pool's name and the position in
    the pool's list. *)
Definition update_backend self (name : string) (pos : nat) (f : Backend → Backend)
  : LoadBalancingProxy :=
  match PyDict.getitem (pools self) name with
  | Some pool =>
      with_pools self
        (PyDict.setitem (pools self) name
           (with_backends pool (alter f pos (backends pool))))
  | None => self
  end.

Definition update_tracked self (rid : string)
    (f : TrackedRequest float → TrackedRequest float) : LoadBalancingProxy :=
  with_tracker self (update_request (tracker self) rid f).

Definition set_request_summary (text : string) (r : TrackedRequest float) :=
  mkTrackedRequest (request_id r) (source r) (model r) (path r) (submitted_at r)
    (started_at r) (completed_at r) (backend r) (status r) (session_id r) (task_id r)
    (client_id r) (client_command r) (Some text) (response_summary r)
    (backend_time_ms r) (agent_pre_ms r) (agent_post_ms r) (turn_number r).

Definition set_response_summary (text : string) (r : TrackedRequest float) :=
  mkTrackedRequest (request_id r) (source r) (model r) (path r) (submitted_at r)
    (started_at r) (completed_at r) (backend r) (status r) (session_id r) (task_id r)
    (client_id r) (client_command r) (request_summary r) (Some text)
    (backend_time_ms r) (agent_pre_ms r) (agent_post_ms r) (turn_number r).

Definition set_backend_time_ms (x : float) (r : TrackedRequest float) :=
  mkTrackedRequest (request_id r) (source r) (model r) (path r) (submitted_at r)
    (started_at r) (completed_at r) (backend r) (status r) (session_id r) (task_id r)
    (client_id r) (client_command r) (request_summary r) (response_summary r)
    (Some x) (agent_pre_ms r) (agent_post_ms r) (turn_number r).

Definition set_agent_pre_ms (x : float) (r : TrackedRequest float) :=
  mkTrackedRequest (request_id r) (source r) (model r) (path r) (submitted_at r)
    (started_at r) (completed_at r) (backend r) (status r) (session_id r) (task_id r)
    (client_id r) (client_command r) (request_summary r) (response_summary r)
    (backend_time_ms r) (Some x) (agent_post_ms r) (turn_number r).

Definition set_agent_post_ms (x : float) (r : TrackedRequest float) :=
  mkTrackedRequest (request_id r) (source r) (model r) (path r) (submitted_at r)
    (started_at r) (completed_at r) (backend r) (status r) (session_id r) (task_id r)
    (client_id r) (client_command r) (request_summary r) (response_summary r)
    (backend_time_ms r) (agent_pre_ms r) (Some x) (turn_number r).

(** [await self.tracker.complete(request_id, success=...)] *)
Definition tracker_complete self (now : float) (rid : string) (success : bool)
  : LoadBalancingProxy :=
  with_tracker self (complete (tracker self) now rid success).

(** *** Finding the pool (lines 320-340 of [_proxy_request]) *)

(** (a) [self.pools.get(model)] *)
Definition lookup_direct self (model : option string) : option string :=
  m ← model; if PyDict.contains (pools self) m then Some m else None.

(** (b) [self.model_to_pool.get(model)], then [self.pools.get(pool_name)] *)
Definition lookup_mapped self (model : option string) : option string :=
  m ← model;
  pool_name ← PyDict.getitem (model_to_pool self) m;
  if truthy_str (Some pool_name) && PyDict.contains (pools self) pool_name
  then Some pool_name else None.

(** (d) the first pool whose name contains the model name or is contained
    in it, ignoring case *)
Definition lookup_partial self (model : option string) : option string :=
  let model_lower := if truthy_str model then lower (default "" model) else "" in
  (λ found : nat * (string * BackendPool), found.2.1) <$>
    list_find (λ kv : string * BackendPool,
                 (negb (String.eqb model_lower "")
                  && (is_substring model_lower (lower kv.1)
                      || is_substring (lower kv.1) model_lower)) = true)
      (pools self).

(** The whole search: the proxy (changed by a forced model discovery, if it
    comes to that) and the name of the pool found. *)
Definition resolve_pool self (model : option string) (now : float) (env : models_env)
  : LoadBalancingProxy * option string :=
  match lookup_direct self model with
  | Some name => (self, Some name)
  | None =>
      match lookup_mapped self model with
      | Some name => (self, Some name)
      | None =>
          let self := (_fetch_backend_models self true now env).1 in
          match lookup_mapped self model with
          | Some name => (self, Some name)
          | None => (self, lookup_partial self model)
          end
      end
  end.

(** [list(self.model_to_pool.keys()) or list(self.pools.keys())] *)
Definition available_models self : list string :=
  match PyDict.keys (model_to_pool self) with
  | [] => PyDict.keys (pools self)
  | ids => ids
  end.

(** [f"{model}"] *)
Definition str_of_model (model : option string) : string := default "None" model.

(** *** [LoadBalancingProxy._proxy_request] *)

(** [a or b] where [a] and [b] are header values. *)
Definition header_or (rq : request) (name legacy : string) : option string :=
  or_str (rq_headers rq name) (rq_headers rq legacy).

(** The timing header, stored when [float] accepts it. *)
Definition store_timing self (rid : string) (value : option string)
    (set : float → TrackedRequest float → TrackedRequest float) : LoadBalancingProxy :=
  match value with
  | Some text =>
      if truthy_str value then
        match py_float text with
        | Some x => update_tracked self rid (set x)
        | None => self
        end
      else self
  | None => self
  end.

(** The body of the [try], up to the upstream call: the request summary and
    the timing headers.  [None] when the inspection of the body raises. *)
Definition annotate_request self (rid : string) (rq : request)
  : option LoadBalancingProxy :=
  match rq_last_user_msg rq with
  | InspectionRaises => None
  | Inspected last_user_msg =>
      let self :=
        if negb (String.eqb last_user_msg "")
        then update_tracked self rid (set_request_summary (str_take 200 last_user_msg))
        else self in
      let self :=
        store_timing self rid
          (header_or rq (hc_timing_pre (headers self)) "X-Timing-Obs-Ms")
          set_agent_pre_ms in
      Some (store_timing self rid
              (header_or rq (hc_timing_post (headers self)) "X-Timing-Act-Ms")
              set_agent_post_ms)
  end.

(** The rest of the [try] with its [except] clauses: what the upstream
    outcome does to the counters and the tracker, and the response.  The
    backend itself is settled by [settle]. *)
Definition conclude self (rid : string) (backend_url : string) (now : float)
    (up : upstream) : LoadBalancingProxy * response :=
  match up with
  | UpResponse status action_text backend_time latency_ms =>
      let self := update_tracked self rid (set_backend_time_ms backend_time) in
      let is_success := status <? 500 in
      let self := if is_success then self else count_error self in
      match action_text with
      | InspectionRaises => (self, HandlerRaised)
      | Inspected text =>
          let self :=
            if negb (String.eqb text "")
            then update_tracked self rid (set_response_summary (str_take 200 text))
            else self in
          (tracker_complete self now rid is_success, Forwarded status)
      end
  | UpTimeout _ =>
      (tracker_complete (count_error self) now rid false, GatewayTimeout backend_url)
  | UpClientError _ =>
      (count_error (tracker_complete self now rid false), BadGateway backend_url)
  | UpOtherError => (self, HandlerRaised)
  end.

(** From [start_processing] to the [finally] clause, for the backend at
    [pos] of pool [name]. *)
Definition forward self (rid : string) (rq : request) (name : string) (pos : nat)
    (backend_url : string) (clock : readings) (up : upstream)
  : LoadBalancingProxy * response :=
  let self :=
    with_tracker self (start_processing (tracker self) (t_started clock) rid backend_url) in
  match annotate_request self rid rq with
  | None => (update_backend self name pos release, HandlerRaised)
  | Some self =>
      let self := update_backend self name pos (λ b, settle b up) in
      let '(self, resp) := conclude self rid backend_url (t_completed clock) up in
      (update_backend self name pos release, resp)
  end.

(** The handler.  [request_id] is the fresh id drawn for the request. *)
Definition _proxy_request self (request_id : string) (rq : request)
    (model : option string) (path : string) (clock : readings)
    (env : models_env) (up : upstream) : LoadBalancingProxy * response :=
  let self := with_totals self (total_requests self + 1) (total_errors self) in
  let source := default "unknown" (or_str (rq_remote rq) (Some "unknown")) in
  let session_id := header_or rq (hc_session (headers self)) "X-Episode-ID" in
  let task_id := header_or rq (hc_task (headers self)) "X-Instruction-ID" in
  let client_id := header_or rq (hc_client (headers self)) "X-Process-ID" in
  let client_command := rq_headers rq "X-Process-Command" in
  let self :=
    with_tracker self
      (submit (tracker self) (t_submit clock) request_id source
         (default "unknown" (or_str model (Some "unknown"))) path
         session_id task_id client_id client_command).2 in
  let '(self, pool) := resolve_pool self model (t_models clock) env in
  match pool ≫= (λ name, (λ p, (name, p)) <$> PyDict.getitem (pools self) name) with
  | None =>
      let self := tracker_complete (count_error self) (t_completed clock) request_id false in
      (self,
       NotFound ("No backend for model: " ++ str_of_model model) (available_models self))
  | Some (name, pool) =>
      match get_backend pool (strategy self) with
      | NoHealthyBackend =>
          let self :=
            tracker_complete (count_error self) (t_completed clock) request_id false in
          (self, NoHealthy ("No healthy backends for model: " ++ str_of_model model))
      | SelectRaised => (self, HandlerRaised)
      | Acquired pos pool' =>
          let self := with_pools self (PyDict.setitem (pools self) name pool') in
          match backends pool' !! pos with
          | Some b => forward self request_id rq name pos (url b) clock up
          | None => (self, HandlerRaised)
          end
      end
  end.

End proxy.

(** The parts of the proxy that tracker and counter updates leave alone. *)
Definition same_routing (self self' : LoadBalancingProxy) : Prop :=
  pools self' = pools self
  ∧ model_to_pool self' = model_to_pool self
  ∧ strategy self' = strategy self
  ∧ headers self' = headers self.

(** ** A pool under traffic

    Handlers interleave: between the moment a handler acquires a backend and
    the moment its [finally] clause releases it, other handlers acquire and
    release, the health loop probes, and the poll loop (a thread of its own)
    registers and removes backends.  A run of a pool is a list of such
    events.

    A handler holds the [Backend] object itself.  [remove_backend] pops the
    object from the pool's list while handlers may still hold it, and a later
    [add_backend] for the same host and port makes a new object, so a
    position in the list does not name an object for long.  A run therefore
    numbers the objects in the order of their creation and keeps, next to the
    pool, the number of the object at each position. *)

Inductive pool_event :=
| EvAcquire (strategy : string)
    (* a handler calls [pool.get_backend(strategy)] *)
| EvFinish (obj : nat) (up : upstream)
    (* the handler holding object [obj] learns the outcome of its upstream
       call and runs its [finally] clause *)
| EvHealthCheck (obj : nat) (resp : health_response) (checked_at now : float)
    (metrics : metrics_response)
    (* [_check_single_backend] on object [obj] *)
| EvLoadRefresh (obj : nat) (now : float) (metrics : metrics_response)
    (* [_refresh_backend_load] on object [obj] *)
| EvAddBackend (host : string) (port : Z) (partition : string)
    (* [pool.add_backend(host, port, partition)] *)
| EvRemoveBackend (host : string) (port : Z).
    (* [pool.remove_backend(host, port)] *)

(** What is recorded about a backend object: the outcome of a proxied
    request, the answer to a health probe, and [add_backend] finding the
    object already in the pool. *)
Inductive backend_event :=
| Requested (up : upstream)
| Probed (resp : health_response)
| Reregistered.

(** A pool with the book-keeping of a run: the number of the object at each
    position of [backends], the number the next new object gets, the objects
    held by handlers (one entry per acquire not yet released), the numbers of
    acquires and releases so far, and what happened to the objects, latest
    first. *)
Record pool_run := mkPoolRun {
  run_pool : BackendPool;
  members : list nat;
  next_object : nat;
  outstanding : list nat;
  acquires : Z;
  releases : Z;
  history : list (nat * backend_event);
}.

Definition start_run (pool : BackendPool) : pool_run :=
  mkPoolRun pool (seq 0 (length (backends pool))) (length (backends pool)) [] 0 0 [].

(** Removes one occurrence of [obj]; [None] if there is none. *)
Fixpoint take_out (obj : nat) (held : list nat) : option (list nat) :=
  match held with
  | [] => None
  | x :: held' =>
      if decide (x = obj) then Some held'
      else (λ rest, x :: rest) <$> take_out obj held'
  end.

(** What [add_backend] does to a backend that is already in the pool. *)
Definition reregistered (part : string) (b : Backend) : Backend :=
  if negb (String.eqb part "") then with_partition (with_healthy b true) part
  else with_healthy b true.

(** The position of the first backend at [(h, p)], which is the one
    [add_backend] and [remove_backend] stop at. *)
Definition endpoint_position (h : string) (p : Z) (bs : list Backend) : option nat :=
  fst <$> list_find (λ b, same_endpoint h p b = true) bs.

(** A handler or a loop assigns to the fields of object [obj]: the pool sees
    it if the object is still in its list. *)
Definition update_object (st : pool_run) (obj : nat) (f : Backend → Backend)
  : BackendPool :=
  match list_find (λ x, x = obj) (members st) with
  | Some (pos, _) =>
      with_backends (run_pool st) (alter f pos (backends (run_pool st)))
  | None => run_pool st
  end.

Section pool_runs.
Context `{FloatParser}.

(** One event; [None] when a handler releases an object it does not hold,
    or a loop works on an object that was never made. *)
Definition run_event (st : pool_run) (ev : pool_event) : option pool_run :=
  match ev with
  | EvAcquire strategy =>
      match get_backend (run_pool st) strategy with
      | Acquired pos pool' =>
          obj ← members st !! pos;
          Some (mkPoolRun pool' (members st) (next_object st)
                  (obj :: outstanding st) (acquires st + 1) (releases st)
                  (history st))
      | NoHealthyBackend | SelectRaised => Some st
      end
  | EvFinish obj up =>
      held ← take_out obj (outstanding st);
      Some (mkPoolRun (update_object st obj (λ b, release (settle b up)))
              (members st) (next_object st) held (acquires st) (releases st + 1)
              ((obj, Requested up) :: history st))
  | EvHealthCheck obj resp checked_at now metrics =>
      if decide (obj < next_object st)%nat then
        Some (mkPoolRun
                (update_object st obj
                   (λ b, _check_single_backend b resp checked_at now metrics))
                (members st) (next_object st) (outstanding st) (acquires st)
                (releases st) ((obj, Probed resp) :: history st))
      else None
  | EvLoadRefresh obj now metrics =>
      if decide (obj < next_object st)%nat then
        Some (mkPoolRun
                (update_object st obj (λ b, _refresh_backend_load b now metrics))
                (members st) (next_object st) (outstanding st) (acquires st)
                (releases st) (history st))
      else None
  | EvAddBackend h p part =>
      let pool' := add_backend (run_pool st) h p part in
      match endpoint_position h p (backends (run_pool st)) with
      | Some pos =>
          Some (mkPoolRun pool' (members st) (next_object st) (outstanding st)
                  (acquires st) (releases st)
                  (match members st !! pos with
                   | Some obj => (obj, Reregistered) :: history st
                   | None => history st
                   end))
      | None =>
          Some (mkPoolRun pool' (members st ++ [next_object st])
                  (S (next_object st)) (outstanding st) (acquires st)
                  (releases st) (history st))
      end
  | EvRemoveBackend h p =>
      Some (mkPoolRun (remove_backend (run_pool st) h p).1
              (match endpoint_position h p (backends (run_pool st)) with
               | Some pos => delete pos (members st)
               | None => members st
               end)
              (next_object st) (outstanding st) (acquires st) (releases st)
              (history st))
  end.

Fixpoint run_events (st : pool_run) (evs : list pool_event) : option pool_run :=
  match evs with
  | [] => Some st
  | ev :: evs' => st' ← run_event st ev; run_events st' evs'
  end.

(** A pool as [add_backend] builds it: nothing in flight, no timeouts
    counted. *)
Definition fresh_pool (pool : BackendPool) : Prop :=
  Forall (λ b, inflight b = 0 ∧ consecutive_timeouts b = 0) (backends pool).

(** [n] acquires in a row; the positions chosen, first to last. *)
Fixpoint acquire_n (n : nat) (pool : BackendPool) (strategy : string)
  : option (list nat * BackendPool) :=
  match n with
  | O => Some ([], pool)
  | S n' =>
      match get_backend pool strategy with
      | Acquired pos pool' =>
          (λ r : list nat * BackendPool, (pos :: r.1, r.2)) <$> acquire_n n' pool' strategy
      | NoHealthyBackend | SelectRaised => None
      end
  end.

End pool_runs.

(** *** Reading the book-keeping *)

(** The number of acquires of object [obj] not yet released. *)
Definition held_count (obj : nat) (held : list nat) : nat :=
  length (filter (λ x, x = obj) held).

(** The acquires not yet released whose object is still in the pool. *)
Definition held_in_pool (st : pool_run) : list nat :=
  filter (λ obj, obj ∈ members st) (outstanding st).

(** What happened to object [obj], latest first. *)
Definition events_of (obj : nat) (log : list (nat * backend_event))
  : list backend_event :=
  (filter (λ e : nat * backend_event, e.1 = obj) log).*2.

(** The outcomes of the proxied requests among [es], latest first. *)
Definition request_outcomes (es : list backend_event) : list upstream :=
  omap (λ e, match e with Requested up => Some up | _ => None end) es.

Definition timed_out (up : upstream) : bool :=
  match up with UpTimeout _ => true | _ => false end.

(** The three most recent upstream calls all timed out. *)
Definition last_three_timed_out (es : list backend_event) : bool :=
  match request_outcomes es with
  | u1 :: u2 :: u3 :: _ => timed_out u1 && timed_out u2 && timed_out u3
  | _ => false
  end.

(** The events that assign [True] to the healthy flag: a health probe
    answered with a status below 500, and a registration of a backend
    already in the pool. *)
Definition sets_healthy (e : backend_event) : bool :=
  match e with
  | Probed (HealthResponse status) => status <? 500
  | Reregistered => true
  | _ => false
  end.

(** The healthy flag was set after the most recent upstream call ended. *)
Fixpoint recovered (es : list backend_event) : bool :=
  match es with
  | [] => false
  | Requested _ :: _ => false
  | e :: es' => sets_healthy e || recovered es'
  end.

(** The number of leading outcomes that are timeouts. *)
Fixpoint leading_timeouts (ups : list upstream) : nat :=
  match ups with
  | up :: ups' => if timed_out up then S (leading_timeouts ups') else 0
  | [] => 0
  end.

(** What holds of a backend object that is held [n] times and has the
    events [es] behind it. *)
Definition object_ok (n : nat) (es : list backend_event) (b : Backend) : Prop :=
  inflight b = Z.of_nat n
  ∧ Z.of_nat (leading_timeouts (request_outcomes es)) ≤ consecutive_timeouts b
  ∧ (healthy b = true →
     recovered es = true ∨ (leading_timeouts (request_outcomes es) ≤ 2)%nat).

(** [object_ok] of every object in the list [bs], numbered by [ms]. *)
Definition objects_ok (ms : list nat) (bs : list Backend) (held : list nat)
    (log : list (nat * backend_event)) : Prop :=
  ∀ pos obj b, ms !! pos = Some obj → bs !! pos = Some b →
    object_ok (held_count obj held) (events_of obj log) b.

(** What holds of every state of a run that starts from a fresh pool. *)
Record run_inv (st : pool_run) : Prop := mkRunInv {
  inv_length : length (members st) = length (backends (run_pool st));
  inv_NoDup : NoDup (members st);
  inv_members : ∀ obj, obj ∈ members st → (obj < next_object st)%nat;
  inv_outstanding : ∀ obj, obj ∈ outstanding st → (obj < next_object st)%nat;
  inv_history : ∀ obj e, (obj, e) ∈ history st → (obj < next_object st)%nat;
  inv_balance : acquires st - releases st = Z.of_nat (length (outstanding st));
  inv_objects :
    objects_ok (members st) (backends (run_pool st)) (outstanding st) (history st);
}.

(** ** The life of a proxy *)

(** What happens to a running proxy: the reconciliation loop adds and removes
    backends, model discovery runs, requests are handled, the health and load
    loops probe backends, the tracker cleans up. *)
Inductive proxy_op :=
| PxAddBackend (model h : string) (p : Z) (part : string)
| PxRemoveBackend (h : string) (p : Z)
| PxFetchModels (force : bool) (now : float) (env : models_env)
| PxRequest (rid : string) (rq : request) (model : option string) (path : string)
    (clock : readings) (env : models_env) (up : upstream)
| PxHealthCheck (name : string) (pos : nat) (resp : health_response)
    (checked_at now : float) (metrics : metrics_response)
| PxLoadRefresh (name : string) (pos : nat) (now : float) (metrics : metrics_response)
| PxCleanup (now : float).

Section proxy_ops.
Context `{FloatParser}.

Definition run_proxy_op (self : LoadBalancingProxy) (op : proxy_op) : LoadBalancingProxy :=
  match op with
  | PxAddBackend model h p part => proxy_add_backend self model h p part
  | PxRemoveBackend h p => (proxy_remove_backend self h p).1
  | PxFetchModels force now env => (_fetch_backend_models self force now env).1
  | PxRequest rid rq model path clock env up =>
      (_proxy_request self rid rq model path clock env up).1
  | PxHealthCheck name pos resp checked_at now metrics =>
      update_backend self name pos
        (λ b, _check_single_backend b resp checked_at now metrics)
  | PxLoadRefresh name pos now metrics =>
      update_backend self name pos (λ b, _refresh_backend_load b now metrics)
  | PxCleanup now => with_tracker self (_cleanup_old_requests (tracker self) now)
  end.

Definition run_proxy_ops (self : LoadBalancingProxy) (ops : list proxy_op)
  : LoadBalancingProxy :=
  foldl run_proxy_op self ops.

End proxy_ops.

(** *** What a model discovery registers

    The pairs (model id, pool name) that one pass of
    [_fetch_backend_models] writes into the model map, in the order it writes
    them: for each pool, the ids listed by its first healthy backend that
    answers 200 with a well-formed list (and, before that, the ids that
    precede a malformed entry in the lists of the backends tried earlier). *)

Fixpoint entry_registrations (pool_name : string) (entries : list model_entry)
  : list (string * string) * bool :=
  match entries with
  | [] => ([], false)
  | EntryMalformed :: _ => ([], true)
  | EntryId id :: entries' =>
      let '(regs, raised) := entry_registrations pool_name entries' in
      match id with
      | Some model_id =>
          if truthy_str id then ((model_id, pool_name) :: regs, raised)
          else (regs, raised)
      | None => (regs, raised)
      end
  end.

Fixpoint pool_registrations (env : models_env) (pool_name : string) (bs : list Backend)
  : list (string * string) :=
  match bs with
  | [] => []
  | b :: bs' =>
      if healthy b then
        match env (host b) (port b) with
        | ModelsResponse status (Some entries) =>
            if status =? 200 then
              let '(regs, raised) := entry_registrations pool_name entries in
              if raised then regs ++ pool_registrations env pool_name bs' else regs
            else pool_registrations env pool_name bs'
        | _ => pool_registrations env pool_name bs'
        end
      else pool_registrations env pool_name bs'
  end.

Definition registrations (env : models_env) (ps : list (string * BackendPool))
  : list (string * string) :=
  flat_map (λ kv : string * BackendPool, pool_registrations env kv.1 (backends kv.2)) ps.

(** [for id, name in regs: m[id] = name] *)
Definition register_all (m2p regs : list (string * string)) : list (string * string) :=
  foldl (λ m (r : string * string), PyDict.setitem m r.1 r.2) m2p regs.

(** ** tunnel/ssh.py *)

(** [SSHTunnelManager]: the endpoints and the keys [(host, port)] of the
    running tunnel processes. *)
Record SSHTunnelManager := mkTunnels {
  endpoints : list (string * string * Z);
  procs : gset (string * Z);
}.

(** [SSHTunnelManager.add_tunnel]; [spawned] tells whether starting the
    [ssh] process succeeds.  [None] when it raises. *)
Definition add_tunnel (self : SSHTunnelManager) (model h : string) (p : Z)
    (spawned : bool) : option (SSHTunnelManager * bool) :=
  if bool_decide ((h, p) ∈ procs self) then Some (self, false)
  else if spawned then
    Some (mkTunnels (endpoints self ++ [(model, h, p)]) ({[(h, p)]} ∪ procs self), true)
  else None.

(** [SSHTunnelManager.remove_tunnel] *)
Definition remove_tunnel (self : SSHTunnelManager) (h : string) (p : Z)
  : SSHTunnelManager * bool :=
  if bool_decide ((h, p) ∈ procs self) then
    (mkTunnels
       (filter (λ e : string * string * Z, (e.1.2, e.2) ≠ (h, p)) (endpoints self))
       (procs self ∖ {[(h, p)]}),
     true)
  else (self, false).

(** ** orchestrator/manager.py *)


(** [(model, node, port, partition)] *)
Definition endpoint : Type := string * string * Z * string.








Section poll_loop.
(** The base port of each configured model ([self._model_configs]). *)
Variable model_configs : list (string * Z).
(** [Path(command).stem] *)
Variable path_stem : string → string.
(** [test_availability(node, port)] *)
Variable test_availability : string → Z → bool.
(** Whether the [ssh] process for a tunnel to [(host, port)] starts. *)
Variable tunnel_spawns : string → Z → bool.







End poll_loop.



(** * Scenarios

    The states and inputs of the scenarios the properties are run on. *)

(** The record [submit] stores: pending, stamped [now], nothing else set. *)
Definition fresh_request {T : Type} (now : T) (rid src mdl pth : string)
    (sid tid cid cmd : option string) (turn : option Z) : TrackedRequest T :=
  mkTrackedRequest rid src mdl pth now None None None pending
    sid tid cid cmd None None None None None turn.

(** Scenario S5: five requests of session [S] are submitted, started and
    completed; a second after the last completion the cleanup runs with
    [cleanup_interval = stale_timeout = 0.1]. *)
Definition s5_ops : list (tracker_op float) :=
  flat_map
    (λ rid, [OpSubmit 100%float rid "10.0.0.7" "m" "/v1/chat/completions"
               (Some "S") None None None;
             OpStart 100.5%float rid "http://localhost:5900";
             OpComplete 101%float rid true])
    ["r1"; "r2"; "r3"; "r4"; "r5"]
  ++ [OpCleanup 102%float].

Definition s5_tracker : RequestTracker float :=
  run_ops (RequestTracker_init 1000 0.1%float 0.1%float) s5_ops.


(** Scenario S4: one pool [my_model] with one backend, which advertises the
    id [my_model@v2]; no model discovery has run yet. *)
Definition s4_env : models_env :=
  λ _ _, ModelsResponse 200 (Some [EntryId (Some "my_model@v2")]).

Definition s4_proxy : LoadBalancingProxy :=
  proxy_add_backend (LoadBalancingProxy_init "least_load" HeadersConfig_default)
    "my_model" "localhost" 5900 "".

(** A request for [model] that the backend answers with 200. *)
Definition s4_request `{FloatParser} (self : LoadBalancingProxy) (rid model : string)
  : LoadBalancingProxy * response :=
  _proxy_request self rid (mkRequest (Some "10.0.0.7") (λ _, None) (Inspected "hello"))
    (Some model) "/v1/chat/completions" (mkReadings 10 11 12 13) s4_env
    (UpResponse 200 (Inspected "hi") 40 42).

(** The [available] list of a 404. *)
Definition available_of (r : response) : list string :=
  match r with
  | NotFound _ available => available
  | _ => []
  end.

(** A proxy with one pool [b] whose backend advertises the id [a]. *)
Definition relabel_env : models_env :=
  λ _ p, if p =? 5910 then ModelsResponse 200 (Some [EntryId (Some "a")])
         else ModelsResponse 200 (Some [EntryId (Some "other")]).

Definition relabel_proxy : LoadBalancingProxy :=
  (_fetch_backend_models
     (proxy_add_backend (LoadBalancingProxy_init "least_load" HeadersConfig_default)
        "b" "localhost" 5910 "")
     false 1 relabel_env).1.













(** * Further definitions

    The rest of the cited modules, and what the properties of the last part
    are stated with. *)

(** ** Pools *)

(** The [(host, port)] of each backend, in list order. *)
Definition endpoints_of (bs : list Backend) : list (string * Z) :=
  (λ b, (host b, port b)) <$> bs.

(** No two backends of the list are at the same [(host, port)]. *)
Definition unique_endpoints (bs : list Backend) : Prop := NoDup (endpoints_of bs).

(** The key a strategy minimises: [b.inflight] for ["least_connections"],
    [b.gpu_load + b.inflight] for ["least_load"]. *)
Definition connections_score (b : Backend) : Z := inflight b.
Definition load_score (b : Backend) : Z := gpu_load b + inflight b.

(** The four names [select_backend] knows. *)
Definition known_strategy (strategy : string) : bool :=
  String.eqb strategy "round_robin" || String.eqb strategy "least_connections"
  || String.eqb strategy "least_latency" || String.eqb strategy "least_load".

(** What [get_backend] does to the pool when it returns the backend at
    [pos]: that backend is counted in. *)
Definition counted_in (pos : nat) (bs : list Backend) : list Backend :=
  alter (λ b, with_inflight b (inflight b + 1)) pos bs.

(** [get_backend(strategy)] returns a healthy backend whose [score] is least
    among the healthy backends of the pool, and advances the rotation
    index. *)
Definition picks_minimum (score : Backend → Z) (pool : BackendPool)
    (strategy : string) : Prop :=
  ∃ pos b pool',
    get_backend pool strategy = Acquired pos pool'
    ∧ backends pool !! pos = Some b
    ∧ healthy b = true
    ∧ (∀ b', b' ∈ backends pool → healthy b' = true → score b ≤ score b')
    ∧ pool' = mkBackendPool (pool_model pool) (counted_in pos (backends pool))
                (_index pool + 1).

(** ** What the statistics of a backend count *)

(** The outcomes for which the handler calls [record_request]: a response,
    a timeout, a transport error. *)
Definition recorded (up : upstream) : bool :=
  match up with UpOtherError => false | _ => true end.

(** The outcomes recorded with [success=False]: a response with a status of
    500 or more, a timeout, a transport error. *)
Definition recorded_as_error (up : upstream) : bool :=
  match up with
  | UpResponse status _ _ _ => negb (status <? 500)
  | UpTimeout _ | UpClientError _ => true
  | UpOtherError => false
  end.

Definition count_outcomes (f : upstream → bool) (es : list backend_event) : Z :=
  Z.of_nat (length (filter (λ up, f up = true) (request_outcomes es))).

(** The initial values of a [Backend]'s counters. *)
Definition unused (b : Backend) : Prop :=
  inflight b = 0 ∧ consecutive_timeouts b = 0
  ∧ request_count b = 0 ∧ error_count b = 0.

(** A property [Q] of a backend object, the number of times it is held and
    the events behind it, that every step of a run keeps. *)
Record object_law (Q : nat → list backend_event → Backend → Prop) : Prop := mkLaw {
  law_acquire : ∀ n es b,
    Q n es b → Q (S n) es (with_inflight b (inflight b + 1));
  law_finish : ∀ n es b up,
    Q (S n) es b → Q n (Requested up :: es) (release (settle b up));
  law_probe : ∀ `{FloatParser} n es b resp checked_at now metrics,
    Q n es b →
    Q n (Probed resp :: es) (_check_single_backend b resp checked_at now metrics);
  law_refresh : ∀ `{FloatParser} n es b now metrics,
    Q n es b → Q n es (_refresh_backend_load b now metrics);
  law_reregistered : ∀ n es b part,
    Q n es b → Q n (Reregistered :: es) (reregistered part b);
  law_new : ∀ h p part, Q 0%nat [] (Backend_init h p part);
}.

(** [Q] of every object of the pool of a run. *)
Definition objects_satisfy (Q : nat → list backend_event → Backend → Prop)
    (st : pool_run) : Prop :=
  ∀ pos obj b, members st !! pos = Some obj → backends (run_pool st) !! pos = Some b →
    Q (held_count obj (outstanding st)) (events_of obj (history st)) b.

(** The statistics of a backend are the counts of its recorded outcomes. *)
Definition accounted (n : nat) (es : list backend_event) (b : Backend) : Prop :=
  request_count b = count_outcomes recorded es
  ∧ error_count b = count_outcomes recorded_as_error es.

(** ** The tracker's store *)

(** A record is filed under its own id, and its time stamps fit its
    status. *)
Definition record_consistent {T} (rid : string) (req : TrackedRequest T) : Prop :=
  request_id req = rid
  ∧ match status req with
    | pending => started_at req = None ∧ completed_at req = None ∧ backend req = None
    | in_flight => is_Some (started_at req) ∧ is_Some (backend req)
    | completed | failed => is_Some (completed_at req)
    end.

(** The tracked requests of session [s]. *)
Definition session_requests {T} (s : string) (self : RequestTracker T)
  : list (string * TrackedRequest T) :=
  filter (λ x, session_id x.2 = Some s) (requests self).

(** The turn number of a record is that of a session with a non-empty id,
    between 1 and the session's counter. *)
Definition turn_in_range {T} (self : RequestTracker T) (req : TrackedRequest T) : Prop :=
  match turn_number req with
  | Some k => ∃ s, session_id req = Some s ∧ s ≠ "" ∧ 1 ≤ k ≤ turn_counter self s
  | None => truthy_str (session_id req) = false
  end.

(** ** tracker.py: [get_status]

    The report has a summary, the two queues and, per session, the counters
    of its requests.  A queue entry and a completed turn are built from one
    record ([to_dict], the turn data); they are represented by that record.
    The grouping by client iterates over Python sets and is left out. *)

Record SessionInfo (T : Type) := mkSessionInfo {
  si_session_id : string;
  si_task_id : string;
  si_model : string;
  si_source : string;
  si_total_requests : Z;
  si_completed_requests : Z;
  si_pending_requests : Z;
  si_in_flight_requests : Z;
  si_failed_requests : Z;
  si_completed_turns : list (TrackedRequest T);
  si_total_turns : Z;
}.

Arguments mkSessionInfo {T}.
Arguments si_session_id {T}.
Arguments si_task_id {T}.
Arguments si_model {T}.
Arguments si_source {T}.
Arguments si_total_requests {T}.
Arguments si_completed_requests {T}.
Arguments si_pending_requests {T}.
Arguments si_in_flight_requests {T}.
Arguments si_failed_requests {T}.
Arguments si_completed_turns {T}.
Arguments si_total_turns {T}.

Section get_status.
Context {T : Type} `{Timestamp T}.
Implicit Types (self : RequestTracker T) (req : TrackedRequest T).

(** Truthiness of an [Optional[float]]. *)
Definition truthy_time (o : option T) : bool :=
  match o with
  | Some c => ts_truthy c
  | None => false
  end.

(** The entry made for a session when its first request is met. *)
Definition new_session self (sid : string) req : SessionInfo T :=
  mkSessionInfo sid (default "" (task_id req)) (model req) (source req)
    0 0 0 0 0 [] (default 0 (_session_turn_counters self !! sid)).

(** The counting of one request in its session's entry. *)
Definition count_request (sess : SessionInfo T) req : SessionInfo T :=
  let total := si_total_requests sess + 1 in
  let same c p i f turns :=
    mkSessionInfo (si_session_id sess) (si_task_id sess) (si_model sess)
      (si_source sess) total c p i f turns (si_total_turns sess) in
  let c := si_completed_requests sess in
  let p := si_pending_requests sess in
  let i := si_in_flight_requests sess in
  let f := si_failed_requests sess in
  let turns := si_completed_turns sess in
  match status req with
  | completed =>
      same (c + 1) p i f
        (if truthy_time (completed_at req) && truthy_time (started_at req)
         then turns ++ [req] else turns)
  | pending => same c (p + 1) i f turns
  | in_flight => same c p (i + 1) f turns
  | failed => same c p i (f + 1) turns
  end.

(** One round of the loop that fills [session_map]. *)
Definition session_step self (session_map : list (string * SessionInfo T)) req
  : list (string * SessionInfo T) :=
  if truthy_str (session_id req) then
    let sid := default "" (session_id req) in
    let session_map :=
      if PyDict.contains session_map sid then session_map
      else PyDict.setitem session_map sid (new_session self sid req) in
    match PyDict.getitem session_map sid with
    | Some sess => PyDict.setitem session_map sid (count_request sess req)
    | None => session_map
    end
  else session_map.

(** [completed_turns.sort(key=lambda t: t["submitted_at"])] *)
Definition sort_turns (sess : SessionInfo T) : SessionInfo T :=
  mkSessionInfo (si_session_id sess) (si_task_id sess) (si_model sess)
    (si_source sess) (si_total_requests sess) (si_completed_requests sess)
    (si_pending_requests sess) (si_in_flight_requests sess)
    (si_failed_requests sess)
    (py_sort (λ a b, ts_lt (submitted_at a) (submitted_at b)) (si_completed_turns sess))
    (si_total_turns sess).

(** [session_map] at the end of [get_status]. *)
Definition session_map_of self : list (string * SessionInfo T) :=
  prod_map id sort_turns
    <$> foldl (session_step self) [] (PyDict.values (requests self)).

End get_status.

Record QueueStatus := mkQueueStatus {
  summary_pending : Z;
  summary_in_flight : Z;
  summary_completed_last_minute : Z;
  summary_total_tracked : Z;
  status_pending : list (TrackedRequest float);
  status_in_flight : list (TrackedRequest float);
  status_sessions : list (SessionInfo float);
}.

(** [now - req.completed_at < 60], after [req.completed_at and]. *)
Definition completed_recently (now : float) (req : TrackedRequest float) : bool :=
  match completed_at req with
  | Some c => ts_truthy c && PrimFloat.ltb (PrimFloat.sub now c) 60%float
  | None => false
  end.

(** [RequestTracker.get_status], with [now] the clock reading. *)
Definition get_status (self : RequestTracker float) (now : float) : QueueStatus :=
  let values := PyDict.values (requests self) in
  let pending := filter (λ r, status r = pending) values in
  let in_flight := filter (λ r, status r = in_flight) values in
  let recent_completed :=
    filter (λ r, is_done (status r) && completed_recently now r = true) values in
  let by_submission a b := PrimFloat.ltb (submitted_at a) (submitted_at b) in
  let pending := py_sort by_submission pending in
  let in_flight := py_sort by_submission in_flight in
  mkQueueStatus
    (Z.of_nat (length pending)) (Z.of_nat (length in_flight))
    (Z.of_nat (length recent_completed))
    (Z.of_nat (length (requests self)))
    (take 50 pending) (take 50 in_flight)
    (PyDict.values (session_map_of self)).

(** The stored requests of session [sid] that satisfy [P]. *)
Definition session_count {T} (self : RequestTracker T) (sid : string)
    (P : TrackedRequest T → bool) : Z :=
  Z.of_nat (length (filter (λ r, session_id r = Some sid ∧ P r = true)
                      (PyDict.values (requests self)))).

Definition has_status {T} (s : Status) (req : TrackedRequest T) : bool :=
  bool_decide (status req = s).

(** ** Invariants of the tracker *)

Section tracker_invariants.
Context {T : Type} `{Timestamp T}.
Implicit Types (self : RequestTracker T) (req : TrackedRequest T)
  (l : list (TrackedRequest T)) (sess : SessionInfo T).

(** What every run keeps about the turn numbers of the tracked records. *)
Record turns_inv self : Prop := mkTurnsInv {
  turns_wf : PyDict.wf (requests self);
  turns_nonneg : ∀ s, 0 ≤ turn_counter self s;
  turns_range : ∀ rid req,
    PyDict.getitem (requests self) rid = Some req → turn_in_range self req;
  turns_distinct : ∀ rid1 rid2 req1 req2 k,
    PyDict.getitem (requests self) rid1 = Some req1 →
    PyDict.getitem (requests self) rid2 = Some req2 →
    session_id req1 = session_id req2 →
    turn_number req1 = Some k → turn_number req2 = Some k →
    rid1 = rid2;
}.

(** The requests of [l] in session [sid] that satisfy [P]. *)
Definition count_in l (sid : string) (P : TrackedRequest T → bool) : Z :=
  Z.of_nat (length (filter (λ r, session_id r = Some sid ∧ P r = true) l)).

Definition measured_turn req : bool :=
  has_status completed req
  && (truthy_time (completed_at req) && truthy_time (started_at req)).

Definition turns_in l (sid : string) : list (TrackedRequest T) :=
  filter (λ r, session_id r = Some sid ∧ measured_turn r = true) l.

(** The entry of session [sid] counts the requests of [l]. *)
Record counts_session self l (sid : string) sess : Prop := mkCounts {
  cs_nonempty : sid ≠ "";
  cs_id : si_session_id sess = sid;
  cs_total : si_total_requests sess = count_in l sid (λ _, true);
  cs_completed : si_completed_requests sess = count_in l sid (has_status completed);
  cs_pending : si_pending_requests sess = count_in l sid (has_status pending);
  cs_in_flight : si_in_flight_requests sess = count_in l sid (has_status in_flight);
  cs_failed : si_failed_requests sess = count_in l sid (has_status failed);
  cs_turns : si_completed_turns sess = turns_in l sid;
  cs_total_turns : si_total_turns sess = turn_counter self sid;
}.

Record sessions_inv self l (m : list (string * SessionInfo T)) : Prop := mkSessionsInv {
  sm_wf : PyDict.wf m;
  sm_counts : ∀ sid sess,
    PyDict.getitem m sid = Some sess →
    counts_session self l sid sess ∧ 0 < si_total_requests sess;
  sm_all : ∀ sid r,
    PyDict.getitem m sid = None → r ∈ l → session_id r = Some sid → sid = "";
}.

End tracker_invariants.

(** ** The tunnel manager *)

(** The [(host, port)] of each endpoint of the manager, in list order. *)
Definition tunnel_keys (self : SSHTunnelManager) : list (string * Z) :=
  (λ e : string * string * Z, (e.1.2, e.2)) <$> endpoints self.

(** The endpoint list and the process table name the same tunnels. *)
Definition tunnels_in_step (self : SSHTunnelManager) : Prop :=
  ∀ k, k ∈ procs self ↔ k ∈ tunnel_keys self.

(** A call on the manager; [spawned] as for [add_tunnel]. *)
Inductive tunnel_op :=
| TunnelAdd (model h : string) (p : Z) (spawned : bool)
| TunnelRemove (h : string) (p : Z).

(** The manager after the call; a call that raises leaves it as it was. *)
Definition run_tunnel_op (self : SSHTunnelManager) (op : tunnel_op) : SSHTunnelManager :=
  match op with
  | TunnelAdd model h p spawned =>
      match add_tunnel self model h p spawned with
      | Some (self', _) => self'
      | None => self
      end
  | TunnelRemove h p => (remove_tunnel self h p).1
  end.

Definition run_tunnel_ops (self : SSHTunnelManager) (ops : list tunnel_op)
  : SSHTunnelManager :=
  foldl run_tunnel_op self ops.

(** ** The pools of a proxy *)

(** Every pool is stored once, under its own model name, and holds one
    backend per [(host, port)]. *)
Definition pools_ok (ps : list (string * BackendPool)) : Prop :=
  PyDict.wf ps
  ∧ ∀ name pool, (name, pool) ∈ ps →
                 pool_model pool = name ∧ unique_endpoints (backends pool).

(** Some pool has a backend at [(h, p)]. *)
Definition registered_somewhere (ps : list (string * BackendPool)) (h : string)
    (p : Z) : Prop :=
  ∃ name pool, (name, pool) ∈ ps ∧ (h, p) ∈ endpoints_of (backends pool).

(** ** Accounting of requests *)

(** The status under which request [rid] is tracked. *)
Definition tracked_status (self : LoadBalancingProxy) (rid : string) : option Status :=
  status <$> PyDict.getitem (requests (tracker self)) rid.

(** Two states of the proxy with the same counters and the same status of
    request [rid]. *)
Definition same_account (rid : string) (self self' : LoadBalancingProxy) : Prop :=
  total_requests self' = total_requests self
  ∧ total_errors self' = total_errors self
  ∧ tracked_status self' rid = tracked_status self rid.

(** How a response goes with the error counter and the tracked status: the
    answers the proxy makes up itself (404, 503, 504, 502) and forwarded
    answers with a status of 500 or more are counted as errors and tracked
    as failed, other forwarded answers are tracked as completed, and an
    exception that leaves the handler leaves the request open. *)
Definition accounted_as (resp : response) (errors_before errors_after : Z)
    (st : option Status) : Prop :=
  match resp with
  | NotFound _ _ | NoHealthy _ | GatewayTimeout _ | BadGateway _ =>
      errors_after = errors_before + 1 ∧ st = Some failed
  | Forwarded s =>
      if s <? 500 then errors_after = errors_before ∧ st = Some completed
      else errors_after = errors_before + 1 ∧ st = Some failed
  | HandlerRaised =>
      errors_before ≤ errors_after ≤ errors_before + 1
      ∧ (st = Some pending ∨ st = Some in_flight)
  end.

(** The requests among the operations of a run. *)
Definition is_request (op : proxy_op) : bool :=
  match op with
  | PxRequest _ _ _ _ _ _ _ => true
  | _ => false
  end.

Definition handled_requests (ops : list proxy_op) : Z :=
  Z.of_nat (length (filter (λ op, is_request op = true) ops)).

(** ** server.py: [_handle_health] *)





(** ** Model discovery *)

(** The test that lets [_fetch_backend_models] answer from its cache. *)
Definition cache_fresh (self : LoadBalancingProxy) (force : bool) (now : float) : bool :=
  negb force
  && match _cached_models self with [] => false | _ => true end
  && PrimFloat.ltb (now - _models_cache_time self)%float (_models_cache_ttl self).

(** [if model_id not in seen_models: all_models.append(model)] *)
Definition add_new (all_models : list string) (id : string) : list string :=
  if bool_decide (id ∈ all_models) then all_models else all_models ++ [id].

(** The list of models after the registrations [regs]. *)
Definition seen_after (all_models : list string) (regs : list (string * string))
  : list string :=
  foldl (λ acc (r : string * string), add_new acc r.1) all_models regs.

(** ** The gauges of a metrics text *)

#[export] Instance int_result_eq_dec : EqDecision int_result.
Proof. solve_decision. Defined.

(** The number an [int_result] carries. *)
Definition ok_value (r : int_result) : option Z :=
  match r with
  | IntOk n => Some n
  | _ => None
  end.

(** The last number among the readings. *)
Definition last_value (rs : list int_result) : option Z := last (omap ok_value rs).

Section gauges.
Context `{FloatParser}.

(** What [int(float(line.split()[-1]))] gives on the lines that start with
    [name], in the order of the text. *)
Definition readings_of (name : string) (lines : list string) : list int_result :=
  int_of_last_field <$> filter (λ line, String.prefix name line = true) lines.

(** A line of the text that starts with one of the two gauge names carries
    an infinite value. *)
Definition overflows (text : string) : Prop :=
  IntOverflowError ∈ readings_of "vllm:num_requests_running" (split_on "010"%char text)
  ∨ IntOverflowError
      ∈ readings_of "vllm:num_requests_waiting" (split_on "010"%char text).

End gauges.

(** ** The names [_start_job] gives to its scripts *)






(** ** Starting the proxy (manager.py, server.py) *)

(** [acc] with [x] appended unless it is there. *)
Definition add_seen {A} `{EqDecision A} (acc : list A) (x : A) : list A :=
  if decide (x ∈ acc) then acc else acc ++ [x].

(** The elements of [l], each once, in the order of first appearance. *)
Definition seen_in_order {A} `{EqDecision A} (l : list A) : list A :=
  foldl add_seen [] l.

(** An entry of the lists [proxy_server] takes: [(host, port)] or
    [(host, port, partition)]. *)
Definition backend_tuple : Type := string * Z * option string.

(** One round of the loop of [_build_backends]. *)
Definition group_endpoint (backends : list (string * list backend_tuple))
    (e : endpoint) : list (string * list backend_tuple) :=
  let '(model, node, port, part) := e in
  let backends :=
    if PyDict.contains backends model then backends
    else PyDict.setitem backends model [] in
  match PyDict.getitem backends model with
  | Some l => PyDict.setitem backends model (l ++ [("localhost", port, Some part)])
  | None => backends
  end.

(** [ConnectionManager._build_backends] *)
Definition _build_backends (endpoints : list endpoint)
  : list (string * list backend_tuple) :=
  foldl group_endpoint [] endpoints.

(** The body of the inner loop of [proxy_server]. *)
Definition register_tuple (model : string) (proxy : LoadBalancingProxy)
    (t : backend_tuple) : LoadBalancingProxy :=
  let '(h, p, part) := t in proxy_add_backend proxy model h p (default "" part).

(** [proxy_server], up to the start of the server thread: the proxy it
    yields. *)
Definition proxy_server (backends : list (string * list backend_tuple))
    (strategy : string) (headers_config : option HeadersConfig) : LoadBalancingProxy :=
  foldl (λ proxy (kv : string * list backend_tuple),
           foldl (register_tuple kv.1) proxy kv.2)
    (LoadBalancingProxy_init strategy (default HeadersConfig_default headers_config))
    backends.

(** The [(host, port)] of the backends of the pool named [m]; empty when
    there is no such pool. *)
Definition pool_endpoints (self : LoadBalancingProxy) (m : string) : list (string * Z) :=
  match PyDict.getitem (pools self) m with
  | Some pool => endpoints_of (backends pool)
  | None => []
  end.

(** ** cluster/slurm.py: [allocate_partitions] *)

(** A partition preference: a dictionary with the key ["partition"] and,
    possibly, ["qos"] and ["gpus"]. *)
Record partition_pref := mkPref {
  pref_partition : string;
  pref_qos : option string;
  pref_gpus : option Z;
}.

(** An allocation: the same keys and ["count"]. *)
Record allocation := mkAlloc {
  alloc_partition : string;
  alloc_qos : option string;
  alloc_gpus : option Z;
  alloc_count : Z;
}.

(** The loop over the preferences.  [idle_gpus i] is the number of idle
    GPUs that [get_partition_gpu_availability] reports when it is asked for
    the [i]-th preference (0 when the query fails).  [None] is the
    [ZeroDivisionError] of [idle_gpus // gpus_per_replica]. *)
Fixpoint allocate_loop (idle_gpus : nat → Z) (i : nat) (prefs : list partition_pref)
    (allocations : list allocation) (remaining : Z)
  : option (list allocation * Z) :=
  match prefs with
  | [] => Some (allocations, remaining)
  | pref :: prefs' =>
      if remaining <=? 0 then Some (allocations, remaining)
      else
        let gpus_per_replica := default 4 (pref_gpus pref) in
        if gpus_per_replica =? 0 then None
        else
          let can_fit := idle_gpus i `div` gpus_per_replica in
          let to_allocate := Z.min can_fit remaining in
          if to_allocate >? 0 then
            allocate_loop idle_gpus (S i) prefs'
              (allocations
                 ++ [mkAlloc (pref_partition pref)
                       (Some (default "default" (pref_qos pref)))
                       (Some gpus_per_replica) to_allocate])
              (remaining - to_allocate)
          else allocate_loop idle_gpus (S i) prefs' allocations remaining
      end.

(** The position of [max(allocations, key=lambda a: a["count"])]: the first
    allocation with the greatest count, [best] being the greatest count seen
    so far and [best_i] its position. *)
Fixpoint first_max_from (best_i : nat) (best : Z) (i : nat) (l : list allocation) : nat :=
  match l with
  | [] => best_i
  | a :: l' =>
      if best <? alloc_count a then first_max_from i (alloc_count a) (S i) l'
      else first_max_from best_i best (S i) l'
  end.

Definition add_count (n : Z) (a : allocation) : allocation :=
  mkAlloc (alloc_partition a) (alloc_qos a) (alloc_gpus a) (alloc_count a + n).

(** [allocate_partitions]; [scontrol] tells whether the command is
    available. *)
Definition allocate_partitions (scontrol : bool) (idle_gpus : nat → Z)
    (preferences : list partition_pref) (num_replicas : Z) : option (list allocation) :=
  if negb scontrol then
    Some match preferences with
         | pref :: _ =>
             [mkAlloc (pref_partition pref) (pref_qos pref) (pref_gpus pref) num_replicas]
         | [] => []
         end
  else
    '(allocations, remaining) ← allocate_loop idle_gpus 0 preferences [] num_replicas;
    Some (if remaining >? 0 then
            match allocations with
            | a :: l => alter (add_count remaining)
                          (first_max_from 0 (alloc_count a) 1 l) allocations
            | [] => []
            end
          else allocations).

(** [ConnectionManager._get_allocations] *)
Definition _get_allocations (scontrol : bool) (idle_gpus : nat → Z)
    (preferences : list partition_pref) (num_replicas : Z) : option (list allocation) :=
  match preferences with
  | [] => Some [mkAlloc "default" (Some "default") (Some 4) num_replicas]
  | _ => allocate_partitions scontrol idle_gpus preferences num_replicas
  end.

(** The replica indices [start_jobs] passes to [_start_job] for one model,
    in the order of the calls: the counter starts at [replica_idx] and
    advances once per job. *)
Fixpoint started_replicas (replica_idx : Z) (allocations : list allocation) : list Z :=
  match allocations with
  | [] => []
  | alloc :: rest =>
      let count := Z.to_nat (alloc_count alloc) in       (* [range(count)] *)
      ((λ k : nat, replica_idx + Z.of_nat k) <$> seq 0 count)
        ++ started_replicas (replica_idx + Z.of_nat count) rest
  end.

(** [sum(a["count"] for a in allocations)] *)
Definition total_count (allocations : list allocation) : Z :=
  foldr (λ a s, alloc_count a + s) 0 allocations.

(** ** server.py: [_handle_proxy] *)



(** ** tunnel/ssh.py: [start] and [stop] *)

(** The loop of [SSHTunnelManager.start]: one process per endpoint, stored
    under [(host, port)]; [None] when starting a process raises. *)
Fixpoint start_tunnels (spawns : string → Z → bool)
    (eps : list (string * string * Z)) (ps : gset (string * Z))
  : option (gset (string * Z)) :=
  match eps with
  | [] => Some ps
  | (_, h, p) :: eps' =>
      if spawns h p then start_tunnels spawns eps' ({[(h, p)]} ∪ ps) else None
  end.

(** [SSHTunnelManager.start] *)
Definition tunnels_start (self : SSHTunnelManager) (spawns : string → Z → bool)
  : option SSHTunnelManager :=
  if bool_decide (procs self = ∅) then
    ps ← start_tunnels spawns (endpoints self) (procs self);
    Some (mkTunnels (endpoints self) ps)
  else Some self.

(** [SSHTunnelManager.stop] *)
Definition tunnels_stop (self : SSHTunnelManager) : SSHTunnelManager :=
  mkTunnels (endpoints self) ∅.

(** * Facts *)

(** ** Facts about dictionaries *)

Module PyDictFacts.
Import PyDict.
Section facts.
Context {K V : Type} `{EqDecision K}.
Implicit Types (d : list (K * V)) (k : K) (v : V).

Lemma getitem_setitem_eq d k v : getitem (setitem d k v) k = Some v.
Proof.
  induction d as [|[k' v'] d IH]; simpl.
  - by rewrite decide_True.
  - destruct (decide (k' = k)) as [->|Hne]; simpl.
    + by rewrite decide_True.
    + by rewrite decide_False.
Qed.

Lemma getitem_setitem_ne d k k' v :
  k ≠ k' → getitem (setitem d k v) k' = getitem d k'.
Proof.
  intros Hne. induction d as [|[k0 v0] d IH]; simpl.
  - by rewrite decide_False.
  - destruct (decide (k0 = k)) as [->|Hne0]; simpl.
    + by rewrite !decide_False.
    + by rewrite IH.
Qed.

Lemma setitem_setitem d k v v' :
  setitem (setitem d k v) k v' = setitem d k v'.
Proof.
  induction d as [|[k0 v0] d IH]; simpl.
  - by rewrite decide_True.
  - destruct (decide (k0 = k)) as [->|Hne]; simpl.
    + by rewrite decide_True.
    + by rewrite decide_False, IH.
Qed.

Lemma keys_setitem_present d k v :
  is_Some (getitem d k) → keys (setitem d k v) = keys d.
Proof.
  induction d as [|[k0 v0] d IH]; simpl; intros [x Hx]; [done|].
  destruct (decide (k0 = k)) as [->|Hne]; simpl; [done|].
  f_equal. apply IH. eauto.
Qed.

Lemma keys_setitem_absent d k v :
  getitem d k = None → keys (setitem d k v) = keys d ++ [k].
Proof.
  induction d as [|[k0 v0] d IH]; simpl; intros Hx; [done|].
  destruct (decide (k0 = k)) as [->|Hne]; simpl; [done|].
  f_equal. by apply IH.
Qed.

Lemma getitem_None d k : getitem d k = None ↔ k ∉ keys d.
Proof.
  induction d as [|[k0 v0] d IH]; simpl.
  - split; [intros _; apply not_elem_of_nil | done].
  - rewrite not_elem_of_cons. destruct (decide (k0 = k)) as [->|Hne].
    + split; [done | intros [? _]; done].
    + rewrite IH. split; [intros Hn; split; [congruence | done] | intros [_ Hn]; done].
Qed.

Lemma getitem_Some_elem d k v : getitem d k = Some v → (k, v) ∈ d.
Proof.
  induction d as [|[k0 v0] d IH]; simpl; [done|].
  destruct (decide (k0 = k)) as [->|Hne].
  - intros [= ->]. apply elem_of_cons; by left.
  - intros Hg. apply elem_of_cons; right; by apply IH.
Qed.

Lemma elem_getitem d k v : wf d → (k, v) ∈ d → getitem d k = Some v.
Proof.
  unfold wf, keys. induction d as [|[k0 v0] d IH]; simpl.
  - intros _ Hin. by apply elem_of_nil in Hin.
  - intros Hnd Hin. apply NoDup_cons in Hnd as [Hk0 Hnd].
    apply elem_of_cons in Hin as [[= -> ->]|Hin].
    + by rewrite decide_True.
    + destruct (decide (k0 = k)) as [->|Hne]; [|by apply IH].
      exfalso. apply Hk0. apply list_elem_of_fmap. by exists (k, v).
Qed.

Lemma keys_in_setitem d k k' v : k' ∈ keys d → k' ∈ keys (setitem d k v).
Proof.
  intros Hin. destruct (getitem d k) eqn:Hg.
  - rewrite keys_setitem_present; eauto.
  - rewrite keys_setitem_absent by done. apply elem_of_app; by left.
Qed.

Lemma wf_setitem d k v : wf d → wf (setitem d k v).
Proof.
  unfold wf. intros Hnd. destruct (getitem d k) eqn:Hg.
  - rewrite keys_setitem_present; eauto.
  - rewrite keys_setitem_absent by done.
    apply NoDup_app. split_and!; [done| |apply NoDup_singleton].
    intros x Hx Hx'. apply list_elem_of_singleton in Hx' as ->.
    by apply getitem_None in Hg.
Qed.

Lemma contains_true d k : contains d k = true ↔ k ∈ keys d.
Proof.
  unfold contains. destruct (getitem d k) eqn:Hg.
  - split; [intros _|done]. destruct (decide (k ∈ keys d)) as [|Hn]; [done|].
    apply getitem_None in Hn. congruence.
  - apply getitem_None in Hg. split; [done | intros; contradiction].
Qed.
Lemma getitem_delitem_ne d k k' :
  k ≠ k' → getitem (delitem d k) k' = getitem d k'.
Proof.
  intros Hne. induction d as [|[k0 v0] d IH]; simpl; [done|].
  destruct (decide (k0 = k)) as [->|Hne0]; simpl.
  - by rewrite decide_False.
  - by rewrite IH.
Qed.

Lemma filter_keys_id d k : k ∉ keys d → filter (λ x, x.1 ≠ k) d = d.
Proof.
  induction d as [|[k0 v0] d IH]; simpl; [done|].
  intros Hn. apply not_elem_of_cons in Hn as [Hne Hn].
  rewrite filter_cons_True by (simpl; congruence). f_equal. by apply IH.
Qed.

Lemma delitem_filter d k : wf d → delitem d k = filter (λ x, x.1 ≠ k) d.
Proof.
  unfold wf. induction d as [|[k0 v0] d IH]; simpl; [done|].
  intros Hnd. apply NoDup_cons in Hnd as [Hk0 Hnd].
  destruct (decide (k0 = k)) as [->|Hne].
  - rewrite filter_cons_False by (simpl; intros Hc; by apply Hc).
    symmetry. by apply filter_keys_id.
  - rewrite filter_cons_True by done. f_equal. by apply IH.
Qed.

Lemma wf_filter (P : K * V → Prop) `{∀ x, Decision (P x)} d :
  wf d → wf (filter P d).
Proof.
  unfold wf, keys. induction d as [|[k0 v0] d IH]; simpl; [done|].
  intros Hnd. apply NoDup_cons in Hnd as [Hk0 Hnd].
  destruct (decide (P (k0, v0))).
  - rewrite filter_cons_True by done. simpl. apply NoDup_cons. split; [|by apply IH].
    intros Hin. apply Hk0. apply list_elem_of_fmap in Hin as (x & -> & Hx).
    apply list_elem_of_filter in Hx as [_ Hx]. apply list_elem_of_fmap. by exists x.
  - rewrite filter_cons_False by done. by apply IH.
Qed.

Lemma delete_all_filter d ks :
  wf d → delete_all d ks = filter (λ x, x.1 ∉ ks) d.
Proof.
  unfold delete_all. revert d. induction ks as [|k ks IH]; intros d Hwf; simpl.
  - symmetry. induction d as [|x d IHd]; [done|].
    rewrite filter_cons_True by apply not_elem_of_nil. f_equal. apply IHd.
    unfold wf, keys in *. simpl in Hwf. by apply NoDup_cons in Hwf as [_ ?].
  - rewrite IH; rewrite delitem_filter by done; [|by apply wf_filter].
    rewrite list_filter_filter. apply list_filter_iff. intros x.
    rewrite not_elem_of_cons. split; intros [? ?]; split; congruence.
Qed.

Lemma getitem_filter (P : K * V → Prop) `{∀ x, Decision (P x)} d k v :
  wf d → getitem (filter P d) k = Some v ↔ getitem d k = Some v ∧ P (k, v).
Proof.
  intros Hwf. split.
  - intros Hg. apply getitem_Some_elem in Hg.
    apply list_elem_of_filter in Hg as [HP Hin]. split; [|done].
    by apply elem_getitem.
  - intros [Hg HP]. apply elem_getitem; [by apply wf_filter|].
    apply list_elem_of_filter. split; [done|]. by apply getitem_Some_elem.
Qed.
End facts.
End PyDictFacts.

(** ** Facts about the tracker *)

Section tracker_run_facts.
Context {T : Type} `{Timestamp T}.
Implicit Types (self : RequestTracker T) (op : tracker_op T) (ops : list (tracker_op T)).

Lemma update_request_counters self rid f :
  _session_turn_counters (update_request self rid f) = _session_turn_counters self.
Proof. unfold update_request. by destruct (PyDict.getitem _ _). Qed.

Lemma cleanup_counters self now :
  _session_turn_counters (_cleanup_old_requests self now) = _session_turn_counters self.
Proof. unfold _cleanup_old_requests. by destruct (_ >? _). Qed.

Lemma truthy_str_Some (s : string) : truthy_str (Some s) = true ↔ s ≠ "".
Proof.
  simpl. destruct (String.eqb_spec s ""); simpl; split; congruence.
Qed.

Lemma submit_turn_truthy self now rid src mdl pth s tid cid cmd :
  s ≠ "" →
  turn_number (submit self now rid src mdl pth (Some s) tid cid cmd).1
    = Some (turn_counter self s + 1)
  ∧ _session_turn_counters (submit self now rid src mdl pth (Some s) tid cid cmd).2
    = <[s := turn_counter self s + 1]> (_session_turn_counters self).
Proof.
  intros Hs. apply truthy_str_Some in Hs. unfold submit. by rewrite Hs.
Qed.

Lemma submit_turn_falsy self now rid src mdl pth sid tid cid cmd :
  truthy_str sid = false →
  turn_number (submit self now rid src mdl pth sid tid cid cmd).1 = None
  ∧ _session_turn_counters (submit self now rid src mdl pth sid tid cid cmd).2
    = _session_turn_counters self.
Proof.
  intros Hs. unfold submit. destruct sid as [s|]; [by rewrite Hs | done].
Qed.

Lemma submit_other_session self now rid src mdl pth sid tid cid cmd (s : string) :
  sid ≠ Some s →
  turn_counter (submit self now rid src mdl pth sid tid cid cmd).2 s = turn_counter self s.
Proof.
  intros Hne. destruct (truthy_str sid) eqn:Ht.
  - destruct sid as [s'|]; [|done]. apply truthy_str_Some in Ht.
    unfold turn_counter.
    rewrite (proj2 (submit_turn_truthy self now rid src mdl pth s' tid cid cmd Ht)).
    rewrite lookup_insert_ne; [done | congruence].
  - unfold turn_counter.
    by rewrite (proj2 (submit_turn_falsy self now rid src mdl pth sid tid cid cmd Ht)).
Qed.

Lemma turns_issued_from self ops (s : string) :
  turn_counter self s ≤ turn_counter (run_ops self ops) s
  ∧ turns_issued s self ops
    = seqZ (turn_counter self s + 1)
        (turn_counter (run_ops self ops) s - turn_counter self s).
Proof.
  unfold run_ops. revert self. induction ops as [|op ops IH]; intros self; simpl.
  - split; [lia|]. by rewrite Z.sub_diag.
  - destruct (IH (run_op self op)) as [IHle IHeq]. rewrite IHeq. clear IHeq.
    destruct op as [now rid src mdl pth sid tid cid cmd| | |];
      cbn [run_op turn_issued] in *;
      try (unfold start_processing, complete, turn_counter in *;
           rewrite ?update_request_counters, ?cleanup_counters in *; done).
    destruct (decide (sid = Some s)) as [->|Hne].
    + destruct (decide (s = "")) as [->|Hs].
      * destruct (submit_turn_falsy self now rid src mdl pth (Some "") tid cid cmd eq_refl)
          as [-> Hc].
        unfold turn_counter in *. rewrite Hc in *. done.
      * destruct (submit_turn_truthy self now rid src mdl pth s tid cid cmd Hs)
          as [-> Hc].
        assert (Hk : turn_counter (submit self now rid src mdl pth (Some s) tid cid cmd).2 s
                     = turn_counter self s + 1).
        { unfold turn_counter at 1. rewrite Hc. by rewrite lookup_insert_eq. }
        rewrite Hk in *. split; [lia|].
        rewrite (seqZ_cons (turn_counter self s + 1)) by lia.
        f_equal. f_equal; lia.
    + rewrite (submit_other_session self now rid src mdl pth sid tid cid cmd s Hne) in *.
      done.
Qed.

End tracker_run_facts.

(** *** Facts about the stable sort *)

Section sorting.
Context {A : Type} (lt : A → A → bool).
Hypothesis lt_irrefl : ∀ x, lt x x = false.
Hypothesis lt_trans : ∀ x y z, lt x y = true → lt y z = true → lt x z = true.
Hypothesis ge_trans : ∀ x y z, lt x y = false → lt y z = false → lt x z = false.


Lemma insert_sorted_perm x l : insert_sorted lt x l ≡ₚ x :: l.
Proof.
  induction l as [|y l IH]; simpl; [done|].
  destruct (lt y x); [|done]. rewrite IH. apply Permutation_swap.
Qed.

Lemma py_sort_perm l : py_sort lt l ≡ₚ l.
Proof.
  unfold py_sort. induction l as [|x l IH]; simpl; [done|].
  by rewrite insert_sorted_perm, IH.
Qed.




End sorting.

(** *** Facts about dictionaries filtered by key *)

Section dict_filter.
Context {V : Type}.
Implicit Types (d : list (string * V)) (ks : list string).

Lemma filter_ext_elem (P Q : string * V → Prop)
    `{∀ x, Decision (P x)} `{∀ x, Decision (Q x)} d :
  (∀ x, x ∈ d → (P x ↔ Q x)) → filter P d = filter Q d.
Proof.
  induction d as [|x d IH]; intros HPQ; [done|].
  assert (Hd : filter P d = filter Q d).
  { apply IH. intros y Hy. apply HPQ. by apply elem_of_cons; right. }
  destruct (decide (P x)) as [HP|HP].
  - rewrite !filter_cons_True; [by rewrite Hd| |done].
    apply HPQ; [apply elem_of_cons; by left | done].
  - rewrite !filter_cons_False; [done| |done].
    intros HQ. apply HP. apply HPQ; [apply elem_of_cons; by left | done].
Qed.

Lemma keys_filter_by_key ks d :
  PyDict.keys (filter (λ x, x.1 ∈ ks) d) = filter (λ k, k ∈ ks) (PyDict.keys d).
Proof.
  unfold PyDict.keys. induction d as [|[k v] d IH]; simpl; [done|].
  destruct (decide (k ∈ ks)).
  - rewrite !filter_cons_True by done. simpl. by rewrite IH.
  - rewrite !filter_cons_False by done. done.
Qed.

Lemma length_filter_out_keys ks d :
  PyDict.wf d → NoDup ks → (∀ k, k ∈ ks → k ∈ PyDict.keys d) →
  (length (filter (λ x, x.1 ∉ ks) d) + length ks = length d)%nat.
Proof.
  intros Hwf Hnd Hsub.
  rewrite <- (Permutation_length (filter_app_complement (λ x, x.1 ∈ ks) d)).
  rewrite length_app.
  assert (Hk : length (filter (λ x, x.1 ∈ ks) d) = length ks); [|lia].
  rewrite <- (length_fmap fst (filter _ d)).
  change (fst <$> filter (λ x, x.1 ∈ ks) d) with (PyDict.keys (filter (λ x, x.1 ∈ ks) d)).
  rewrite keys_filter_by_key. apply Permutation_length.
  apply NoDup_Permutation; [by apply NoDup_filter | done |].
  intros k. rewrite list_elem_of_filter. split; [by intros [? _] | auto].
Qed.

End dict_filter.

(** *** What one run of the cleanup removes *)

Section cleanup_facts.
Context {T : Type} `{TimestampOrder T}.
Implicit Types (self : RequestTracker T) (now : T) (req : TrackedRequest T).




Lemma phase1_filter self now :
  PyDict.wf (requests self) →
  PyDict.delete_all (requests self)
    (map fst (filter (λ x, expired_at self now x.2 = true) (requests self)))
  = after_expiry self now.
Proof.
  intros Hwf. rewrite PyDictFacts.delete_all_filter by done.
  apply filter_ext_elem. intros [k r] Hin. simpl. split.
  - intros Hn. destruct (expired_at self now r) eqn:He; [|done].
    exfalso. apply Hn. apply list_elem_of_fmap. exists (k, r). split; [done|].
    by apply list_elem_of_filter.
  - intros He Hk. apply list_elem_of_fmap in Hk as ([k' r'] & Hkk & Hin').
    simpl in Hkk. subst k'. apply list_elem_of_filter in Hin' as [He' Hin'].
    simpl in He'. apply (PyDictFacts.elem_getitem _ _ _ Hwf) in Hin, Hin'. congruence.
Qed.

Lemma cleanup_requests self now :
  PyDict.wf (requests self) →
  requests (_cleanup_old_requests self now)
  = if Z.of_nat (length (after_expiry self now)) >? max_history self
    then filter (λ x, x.1 ∉ map fst (size_victims self now)) (after_expiry self now)
    else after_expiry self now.
Proof.
  intros Hwf. unfold _cleanup_old_requests.
  pose proof (phase1_filter self now Hwf) as Hp. unfold expired_at in Hp.
  rewrite Hp. destruct (_ >? _); simpl; [|done].
  rewrite PyDictFacts.delete_all_filter; [done|]. by apply PyDictFacts.wf_filter.
Qed.

Lemma wf_after_expiry self now :
  PyDict.wf (requests self) → PyDict.wf (after_expiry self now).
Proof. apply PyDictFacts.wf_filter. Qed.

Lemma size_victims_finished self now x :
  x ∈ size_victims self now → x ∈ finished_after_expiry self now.
Proof.
  intros Hx. apply subseteq_take in Hx. by rewrite py_sort_perm in Hx.
Qed.

Lemma size_victims_keys_NoDup self now :
  PyDict.wf (requests self) → NoDup (map fst (size_victims self now)).
Proof.
  intros Hwf. unfold size_victims.
  change (map fst) with (fmap (M:=list) (@fst string (TrackedRequest T))).
  rewrite fmap_take. eapply sublist_NoDup; [|apply sublist_take].
  rewrite py_sort_perm. apply PyDictFacts.wf_filter. by apply wf_after_expiry.
Qed.

End cleanup_facts.

(** ** Repeated tracker calls *)

Lemma update_request_twice {T : Type} (self : RequestTracker T) (rid : string)
    (f g : TrackedRequest T → TrackedRequest T) :
  (∀ req, g (f req) = g req) →
  update_request (update_request self rid f) rid g = update_request self rid g.
Proof.
  intros Hgf. unfold update_request.
  destruct (PyDict.getitem (requests self) rid) as [req|] eqn:Hg; simpl.
  - rewrite PyDictFacts.getitem_setitem_eq. unfold with_requests. simpl.
    by rewrite PyDictFacts.setitem_setitem, Hgf.
  - by rewrite Hg.
Qed.

Lemma submit_record {T : Type} (self : RequestTracker T) (now : T)
    (rid src mdl pth : string) (sid tid cid cmd : option string) :
  (submit self now rid src mdl pth sid tid cid cmd).1
  = fresh_request now rid src mdl pth sid tid cid cmd
      (turn_number (submit self now rid src mdl pth sid tid cid cmd).1)
  ∧ requests (submit self now rid src mdl pth sid tid cid cmd).2
    = PyDict.setitem (requests self) rid
        (submit self now rid src mdl pth sid tid cid cmd).1.
Proof.
  unfold submit. by destruct sid as [s|]; [destruct (truthy_str _)|].
Qed.

Lemma getitem_after_expiry {T : Type} `{Timestamp T}
    (self : RequestTracker T) (now : T) (rid : string) (req : TrackedRequest T) :
  PyDict.wf (requests self) →
  PyDict.getitem (after_expiry self now) rid = Some req
  ↔ PyDict.getitem (requests self) rid = Some req ∧ expired_at self now req = false.
Proof. intros Hwf. unfold after_expiry. by rewrite PyDictFacts.getitem_filter. Qed.

(** ** Facts about pools *)

Lemma total_inflight_alter (bs : list Backend) (pos : nat) (b : Backend)
    (f : Backend → Backend) (model : string) (index index' : Z) :
  bs !! pos = Some b →
  total_inflight (mkBackendPool model (alter f pos bs) index')
  = total_inflight (mkBackendPool model bs index) - inflight b + inflight (f b).
Proof.
  unfold total_inflight. simpl. revert pos.
  induction bs as [|b0 bs IH]; intros [|pos] Hb; simpl in *; try done.
  - injection Hb as ->. lia.
  - specialize (IH pos Hb). unfold alter in IH. lia.
Qed.

Lemma healthy_backends_lookup (pool : BackendPool) (j pos : nat) (b : Backend) :
  healthy_backends pool !! j = Some (pos, b) →
  backends pool !! pos = Some b ∧ healthy b = true.
Proof.
  intros Hj. apply list_elem_of_lookup_2 in Hj.
  apply list_elem_of_filter in Hj as [Hh Hin]. simpl in Hh.
  apply elem_of_lookup_imap in Hin as (i & y & [= -> ->] & Hy). done.
Qed.

Lemma insert_as_alter {A} (l : list A) (i : nat) (x : A) (f : A → A) :
  l !! i = Some x → <[i := f x]> l = alter f i l.
Proof.
  intros Hx. apply list_eq. intros j. destruct (decide (i = j)) as [<-|Hne].
  - rewrite list_lookup_alter_eq, Hx. simpl.
    apply list_lookup_insert_eq. by eapply lookup_lt_Some.
  - by rewrite list_lookup_alter_ne, list_lookup_insert_ne.
Qed.

(** What a successful [get_backend] returns: a healthy backend of the pool,
    counted in; nothing else changes but the rotation index. *)
Lemma get_backend_Acquired (pool pool' : BackendPool) (strategy : string) (pos : nat) :
  get_backend pool strategy = Acquired pos pool' →
  ∃ b, backends pool !! pos = Some b
       ∧ healthy b = true
       ∧ backends pool' = alter (λ b, with_inflight b (inflight b + 1)) pos (backends pool)
       ∧ pool_model pool' = pool_model pool.
Proof.
  unfold get_backend. destruct (healthy_backends pool) as [|hb0 hbs] eqn:Hhb; [done|].
  destruct (select_backend _ _ _) as [[j index']|]; [|done].
  destruct ((hb0 :: hbs) !! j) as [[pos0 b]|] eqn:Hj; [|done].
  intros [= <- <-]. rewrite <- Hhb in Hj.
  apply healthy_backends_lookup in Hj as [Hb Hh].
  exists b. split_and!; try done. simpl.
  by apply (insert_as_alter _ _ _ (λ b, with_inflight b (inflight b + 1))).
Qed.

Lemma get_backend_none_healthy (pool : BackendPool) (strategy : string) :
  Forall (λ b, healthy b = false) (backends pool) →
  get_backend pool strategy = NoHealthyBackend.
Proof.
  intros Hall. unfold get_backend.
  destruct (healthy_backends pool) as [|[pos b] hbs] eqn:Hhb; [done|].
  assert (Hin : healthy_backends pool !! 0%nat = Some (pos, b)) by by rewrite Hhb.
  apply healthy_backends_lookup in Hin as [Hb Hh].
  rewrite Forall_lookup in Hall. specialize (Hall _ _ Hb). simpl in Hall. congruence.
Qed.

Lemma healthy_backends_all (pool : BackendPool) :
  Forall (λ b, healthy b = true) (backends pool) →
  healthy_backends pool = imap pair (backends pool).
Proof.
  intros Hall. unfold healthy_backends.
  assert (Hf : Forall (λ ib : nat * Backend, healthy ib.2 = true)
                 (imap pair (backends pool))).
  { apply Forall_forall. intros [i b] Hin.
    apply elem_of_lookup_imap in Hin as (i' & y & [= -> ->] & Hy). simpl.
    rewrite Forall_lookup in Hall. by eapply Hall. }
  induction Hf as [|x l Hx Hl IH]; [done|].
  rewrite filter_cons_True by done. by rewrite IH.
Qed.

Lemma imap_pair_snd {A} (l : list A) : (imap pair l).*2 = l.
Proof.
  rewrite fmap_imap. apply list_eq. intros i.
  rewrite list_lookup_imap. simpl. by destruct (l !! i).
Qed.

Lemma select_backend_round_robin (bs : list Backend) (index : Z) :
  bs ≠ [] →
  select_backend bs "round_robin" index
  = Some (Z.to_nat (index `mod` Z.of_nat (length bs)), index + 1).
Proof. by destruct bs. Qed.

(** Round robin on a pool whose backends are all healthy. *)
Lemma get_backend_round_robin (pool : BackendPool) :
  backends pool ≠ [] →
  Forall (λ b, healthy b = true) (backends pool) →
  let pos := Z.to_nat (_index pool `mod` Z.of_nat (length (backends pool))) in
  get_backend pool "round_robin"
  = Acquired pos
      (mkBackendPool (pool_model pool)
         (alter (λ b, with_inflight b (inflight b + 1)) pos (backends pool))
         (_index pool + 1)).
Proof.
  intros Hne Hall. cbv zeta. unfold get_backend.
  rewrite (healthy_backends_all pool Hall), imap_pair_snd.
  rewrite (select_backend_round_robin _ _ Hne).
  set (pos := Z.to_nat (_index pool `mod` Z.of_nat (length (backends pool)))).
  assert (Hlt : (pos < length (backends pool))%nat).
  { subst pos. destruct (backends pool) as [|b0 bs]; [done|].
    pose proof (Z.mod_pos_bound (_index pool) (Z.of_nat (length (b0 :: bs)))).
    simpl length in *. lia. }
  destruct (lookup_lt_is_Some_2 _ _ Hlt) as [b Hb].
  rewrite list_lookup_imap, Hb. simpl.
  destruct (imap pair (backends pool)) eqn:Him.
  { apply (f_equal length) in Him. rewrite length_imap in Him. simpl in Him. lia. }
  by rewrite (insert_as_alter _ _ _ (λ b, with_inflight b (inflight b + 1)) Hb).
Qed.

Lemma acquire_keeps_healthy (bs : list Backend) (pos : nat) :
  Forall (λ b, healthy b = true) bs →
  Forall (λ b, healthy b = true)
    (alter (λ b, with_inflight b (inflight b + 1)) pos bs).
Proof.
  intros Hall. apply Forall_lookup. intros i b Hb.
  rewrite list_lookup_alter in Hb. rewrite Forall_lookup in Hall.
  destruct (decide (pos = i)) as [->|Hne].
  - destruct (bs !! i) as [b0|] eqn:Hb0; [|done]. simpl in Hb.
    injection Hb as <-. simpl. by eapply Hall.
  - by eapply Hall.
Qed.

(** [k] round-robin acquires on [n] healthy backends walk the positions
    [index mod n], [(index + 1) mod n], ... *)
Lemma acquire_n_round_robin (k : nat) (pool : BackendPool) :
  backends pool ≠ [] →
  Forall (λ b, healthy b = true) (backends pool) →
  ∃ pool',
    acquire_n k pool "round_robin"
    = Some ((λ j, Z.to_nat ((_index pool + Z.of_nat j) `mod`
                            Z.of_nat (length (backends pool)))) <$> seq 0 k,
            pool')
    ∧ _index pool' = _index pool + Z.of_nat k
    ∧ length (backends pool') = length (backends pool).
Proof.
  revert pool. induction k as [|k IH]; intros pool Hne Hall.
  - exists pool. simpl. split_and!; [done | lia | done].
  - simpl acquire_n. rewrite (get_backend_round_robin pool Hne Hall).
    set (pool1 := mkBackendPool _ _ _).
    assert (Hlen : length (backends pool1) = length (backends pool))
      by apply length_alter.
    destruct (IH pool1) as (pool' & Hacq & Hidx & Hlen').
    { intros Hnil. apply (f_equal length) in Hnil. rewrite Hlen in Hnil.
      destruct (backends pool); [done | simpl in Hnil; lia]. }
    { by apply acquire_keeps_healthy. }
    exists pool'. rewrite Hacq. simpl. split_and!.
    + rewrite length_alter. f_equal. f_equal. simpl Z.of_nat.
      rewrite Z.add_0_r. f_equal.
      change (list_fmap nat nat ?f ?l) with (f <$> l).
      rewrite <- fmap_S_seq, <- list_fmap_compose.
      apply list_fmap_ext. intros _ j _. simpl.
      do 2 f_equal. lia.
    + rewrite Hidx. simpl. lia.
    + by rewrite Hlen'.
Qed.

(** Every position below [n] is met within [n] consecutive steps. *)
Lemma rotation_covers (index : Z) (n x : nat) :
  (x < n)%nat →
  x ∈ (λ j, Z.to_nat ((index + Z.of_nat j) `mod` Z.of_nat n)) <$> seq 0 n.
Proof.
  intros Hx. apply list_elem_of_fmap.
  exists (Z.to_nat ((Z.of_nat x - index) `mod` Z.of_nat n)).
  pose proof (Z.mod_pos_bound (Z.of_nat x - index) (Z.of_nat n) ltac:(lia)) as Hb.
  split.
  - rewrite Z2Nat.id by lia. rewrite Z.add_mod_idemp_r by lia.
    replace (index + (Z.of_nat x - index)) with (Z.of_nat x) by lia.
    rewrite Z.mod_small by lia. lia.
  - apply elem_of_seq. lia.
Qed.

(** ** Facts about runs of a pool *)

Lemma take_out_Some (obj : nat) (held held' : list nat) :
  take_out obj held = Some held' →
  obj ∈ held
  ∧ length held = S (length held')
  ∧ held_count obj held = S (held_count obj held')
  ∧ (∀ x, x ≠ obj → held_count x held = held_count x held')
  ∧ (∀ x, x ∈ held' → x ∈ held).
Proof.
  unfold held_count.
  revert held'. induction held as [|p held IH]; intros held' Ht; simpl in Ht; [done|].
  destruct (decide (p = obj)) as [->|Hne].
  - injection Ht as <-. split_and!.
    + apply elem_of_cons; by left.
    + done.
    + by rewrite filter_cons_True.
    + intros x Hx. by rewrite filter_cons_False by congruence.
    + intros x Hx. apply elem_of_cons; by right.
  - destruct (take_out obj held) as [rest|] eqn:Hr; [|done]. injection Ht as <-.
    destruct (IH rest eq_refl) as (Hin & Hlen & Hcnt & Hoth & Hsub). split_and!.
    + apply elem_of_cons; by right.
    + simpl. by rewrite Hlen.
    + by rewrite !filter_cons_False.
    + intros x Hx. destruct (decide (p = x)) as [->|Hpx].
      * rewrite !filter_cons_True by done. simpl. by rewrite Hoth.
      * rewrite !filter_cons_False by done. by apply Hoth.
    + intros x Hx. apply elem_of_cons in Hx as [->|Hx];
        apply elem_of_cons; [by left | right; by apply Hsub].
Qed.

Lemma take_out_held (obj : nat) (held : list nat) :
  obj ∈ held → is_Some (take_out obj held).
Proof.
  induction held as [|p held IH]; intros Hin; [by apply elem_of_nil in Hin|].
  simpl. destruct (decide (p = obj)) as [->|Hne]; [by eexists|].
  apply elem_of_cons in Hin as [->|Hin]; [done|].
  destruct (IH Hin) as [rest ->]. by eexists.
Qed.

Lemma held_count_cons (obj x : nat) (held : list nat) :
  held_count obj (x :: held)
  = if decide (x = obj) then S (held_count obj held) else held_count obj held.
Proof.
  unfold held_count. destruct (decide (x = obj)) as [->|Hne].
  - by rewrite filter_cons_True.
  - by rewrite filter_cons_False.
Qed.

Lemma held_count_absent (obj : nat) (held : list nat) :
  obj ∉ held → held_count obj held = 0%nat.
Proof.
  intros Hn. unfold held_count. induction held as [|x held IH]; [done|].
  rewrite not_elem_of_cons in Hn. destruct Hn as [Hne Hn].
  rewrite filter_cons_False by congruence. by apply IH.
Qed.

Lemma events_of_cons (obj obj' : nat) (e : backend_event)
    (log : list (nat * backend_event)) :
  events_of obj ((obj', e) :: log)
  = if decide (obj' = obj) then e :: events_of obj log else events_of obj log.
Proof.
  unfold events_of. destruct (decide (obj' = obj)) as [->|Hne].
  - by rewrite filter_cons_True.
  - by rewrite filter_cons_False.
Qed.

Lemma events_of_absent (obj : nat) (log : list (nat * backend_event)) :
  (∀ e, (obj, e) ∉ log) → events_of obj log = [].
Proof.
  intros Hn. unfold events_of. induction log as [|[x e] log IH]; [done|].
  destruct (decide (x = obj)) as [->|Hne].
  - exfalso. apply (Hn e). apply elem_of_cons; by left.
  - rewrite filter_cons_False by done. apply IH.
    intros e' Hin. apply (Hn e'). apply elem_of_cons; by right.
Qed.

Lemma last_three_leading (es : list backend_event) :
  last_three_timed_out es = true → (3 ≤ leading_timeouts (request_outcomes es))%nat.
Proof.
  unfold last_three_timed_out.
  destruct (request_outcomes es) as [|u1 [|u2 [|u3 us]]]; try done. simpl.
  destruct (timed_out u1), (timed_out u2), (timed_out u3); simpl; try done. lia.
Qed.

(** *** Registration and removal *)

Lemma add_backend_to_spec (bs : list Backend) (h : string) (p : Z) (part : string) :
  match endpoint_position h p bs with
  | Some pos =>
      is_Some (bs !! pos) ∧ add_backend_to bs h p part = alter (reregistered part) pos bs
  | None => add_backend_to bs h p part = bs ++ [Backend_init h p part]
  end.
Proof.
  unfold endpoint_position. induction bs as [|b bs IH]; [done|].
  cbn [add_backend_to list_find]. destruct (same_endpoint h p b) eqn:Hb.
  - rewrite decide_True by done. simpl. split; [by eexists|]. done.
  - rewrite decide_False by done. simpl.
    destruct (list_find _ bs) as [[pos b']|]; simpl in *.
    + destruct IH as [Hs ->]. done.
    + by rewrite IH.
Qed.

Lemma remove_backend_from_spec (bs : list Backend) (h : string) (p : Z) :
  (remove_backend_from bs h p).1
  = match endpoint_position h p bs with
    | Some pos => delete pos bs
    | None => bs
    end.
Proof.
  unfold endpoint_position. induction bs as [|b bs IH]; [done|].
  cbn [remove_backend_from list_find]. destruct (same_endpoint h p b) eqn:Hb.
  - by rewrite decide_True by done.
  - rewrite decide_False by done. simpl.
    destruct (remove_backend_from bs h p) as [bs' removed]. simpl in *.
    destruct (list_find _ bs) as [[pos b']|]; simpl in *; by rewrite IH.
Qed.

(** *** What handlers and loops do to one backend *)

Section run_facts.
Context `{FloatParser}.

Lemma refresh_keeps (b : Backend) (now : float) (metrics : metrics_response) :
  inflight (_refresh_backend_load b now metrics) = inflight b
  ∧ healthy (_refresh_backend_load b now metrics) = healthy b
  ∧ consecutive_timeouts (_refresh_backend_load b now metrics) = consecutive_timeouts b.
Proof.
  unfold _refresh_backend_load. destruct (PrimFloat.ltb _ _); [done|].
  destruct metrics as [|status text]; [done|]. destruct (status =? 200); [|done].
  by destruct (parse_vllm_metrics text).
Qed.

Lemma check_keeps (b : Backend) (resp : health_response) (checked_at now : float)
    (metrics : metrics_response) :
  inflight (_check_single_backend b resp checked_at now metrics) = inflight b
  ∧ consecutive_timeouts (_check_single_backend b resp checked_at now metrics)
    = consecutive_timeouts b
  ∧ healthy (_check_single_backend b resp checked_at now metrics)
    = match resp with
      | HealthResponse status => status <? 500
      | HealthFailed => false
      end.
Proof.
  unfold _check_single_backend. destruct resp as [|status]; [done|].
  cbn [healthy with_last_check with_healthy].
  destruct (status <? 500); [|done].
  destruct (refresh_keeps
    (with_last_check (with_healthy b true) checked_at) now metrics) as (-> & -> & ->).
  done.
Qed.

Lemma settle_inflight (b : Backend) (up : upstream) :
  inflight (settle b up) = inflight b.
Proof.
  destruct up as [status ? ? ?| | |]; simpl; try done.
  unfold on_timeout. simpl. by destruct (_ >=? 3).
Qed.

Lemma total_inflight_alter_at (pool : BackendPool) (bs' : list Backend) (pos : nat)
    (b : Backend) (f : Backend → Backend) :
  backends pool !! pos = Some b →
  total_inflight (with_backends pool (alter f pos (backends pool)))
  = total_inflight pool - inflight b + inflight (f b).
Proof.
  intros Hb. destruct pool as [model bs index]. simpl in *.
  by apply total_inflight_alter.
Qed.

Lemma lookup_alter_Some (bs : list Backend) (f : Backend → Backend) (pos q : nat)
    (b' : Backend) :
  alter f pos bs !! q = Some b' →
  (q = pos ∧ ∃ b, bs !! pos = Some b ∧ b' = f b) ∨ (q ≠ pos ∧ bs !! q = Some b').
Proof.
  rewrite list_lookup_alter. destruct (decide (pos = q)) as [->|Hne].
  - destruct (bs !! q) as [b|]; [|done]. intros [= <-]. left. eauto.
  - intros Hq. right. split; [congruence | done].
Qed.

(** *** One object *)

Lemma object_ok_fresh (b : Backend) :
  inflight b = 0 → consecutive_timeouts b = 0 → object_ok 0 [] b.
Proof. intros Hi Hc. split_and!; simpl; [done | lia | intros _; right; lia]. Qed.

Lemma object_ok_acquire (n : nat) (es : list backend_event) (b : Backend) :
  object_ok n es b → object_ok (S n) es (with_inflight b (inflight b + 1)).
Proof. intros (Hi & Hc & Hh). split_and!; simpl; [lia | done | done]. Qed.

Lemma object_ok_finish (n : nat) (es : list backend_event) (b : Backend)
    (up : upstream) :
  object_ok (S n) es b → object_ok n (Requested up :: es) (release (settle b up)).
Proof.
  intros (Hi & Hc & Hh). split_and!.
  - unfold release. simpl. rewrite settle_inflight. lia.
  - destruct up as [status ? ? ?|lat|lat|]; simpl; try lia.
    unfold on_timeout. simpl. destruct (_ >=? 3); simpl; lia.
  - destruct up as [status ? ? ?|lat|lat|]; simpl; try (intros _; right; lia).
    unfold on_timeout. simpl.
    destruct (Z.geb_spec (consecutive_timeouts b + 1) 3); simpl; [done|].
    intros _. right. lia.
Qed.

Lemma object_ok_probe (n : nat) (es : list backend_event) (b : Backend)
    (resp : health_response) (checked_at now : float) (metrics : metrics_response) :
  object_ok n es b →
  object_ok n (Probed resp :: es) (_check_single_backend b resp checked_at now metrics).
Proof.
  intros (Hi & Hc & Hh).
  destruct (check_keeps b resp checked_at now metrics) as (Hi' & Hc' & Hh').
  split_and!.
  - by rewrite Hi'.
  - by rewrite Hc'.
  - rewrite Hh'. intros Hs. left. destruct resp as [|status]; [done|].
    simpl. by rewrite Hs.
Qed.

Lemma object_ok_refresh (n : nat) (es : list backend_event) (b : Backend)
    (now : float) (metrics : metrics_response) :
  object_ok n es b → object_ok n es (_refresh_backend_load b now metrics).
Proof.
  intros (Hi & Hc & Hh).
  destruct (refresh_keeps b now metrics) as (Hi' & Hh' & Hc').
  split_and!; [by rewrite Hi' | by rewrite Hc' | by rewrite Hh'].
Qed.

Lemma object_ok_reregistered (n : nat) (es : list backend_event) (b : Backend)
    (part : string) :
  object_ok n es b → object_ok n (Reregistered :: es) (reregistered part b).
Proof.
  intros (Hi & Hc & Hh). unfold reregistered.
  split_and!; destruct (negb _); simpl; try done; by left.
Qed.

(** *** The objects of a pool *)

Lemma objects_ok_alter (ms : list nat) (bs : list Backend) (held held' : list nat)
    (log log' : list (nat * backend_event)) (pos obj : nat) (f : Backend → Backend) :
  NoDup ms → ms !! pos = Some obj →
  objects_ok ms bs held log →
  (∀ b, object_ok (held_count obj held) (events_of obj log) b →
        object_ok (held_count obj held') (events_of obj log') (f b)) →
  (∀ x, x ≠ obj →
        held_count x held' = held_count x held ∧ events_of x log' = events_of x log) →
  objects_ok ms (alter f pos bs) held' log'.
Proof.
  intros Hnd Hpos Hok Hf Hoth q x b' Hq Hb'.
  apply lookup_alter_Some in Hb' as [(-> & b & Hb & ->)|[Hne Hb']].
  - assert (x = obj) as -> by congruence. apply Hf. by eapply Hok.
  - assert (x ≠ obj) as Hx.
    { intros ->. apply Hne. by eapply NoDup_lookup. }
    destruct (Hoth x Hx) as [-> ->]. by eapply Hok.
Qed.

Lemma objects_ok_others (ms : list nat) (bs : list Backend) (held held' : list nat)
    (log log' : list (nat * backend_event)) :
  objects_ok ms bs held log →
  (∀ x, x ∈ ms →
        held_count x held' = held_count x held ∧ events_of x log' = events_of x log) →
  objects_ok ms bs held' log'.
Proof.
  intros Hok Hsame q x b Hq Hb.
  destruct (Hsame x (list_elem_of_lookup_2 _ _ _ Hq)) as [-> ->]. by eapply Hok.
Qed.

Lemma objects_ok_snoc (ms : list nat) (bs : list Backend) (held : list nat)
    (log : list (nat * backend_event)) (obj : nat) (b : Backend) :
  length ms = length bs →
  objects_ok ms bs held log →
  object_ok (held_count obj held) (events_of obj log) b →
  objects_ok (ms ++ [obj]) (bs ++ [b]) held log.
Proof.
  intros Hlen Hok Hb q x b' Hq Hb'.
  destruct (decide (q < length ms)%nat) as [Hlt|Hge].
  - rewrite lookup_app_l in Hq by done.
    rewrite lookup_app_l in Hb' by lia. by eapply Hok.
  - rewrite lookup_app_r in Hq by lia. rewrite lookup_app_r in Hb' by lia.
    rewrite Hlen in Hq.
    destruct (q - length bs)%nat as [|k]; simpl in *; [|done].
    by injection Hq as <-; injection Hb' as <-.
Qed.

Lemma objects_ok_delete (ms : list nat) (bs : list Backend) (held : list nat)
    (log : list (nat * backend_event)) (pos : nat) :
  objects_ok ms bs held log →
  objects_ok (delete pos ms) (delete pos bs) held log.
Proof.
  intros Hok q x b Hq Hb.
  destruct (decide (q < pos)%nat) as [Hlt|Hge].
  - rewrite list_lookup_delete_lt in Hq by done.
    rewrite list_lookup_delete_lt in Hb by done. by eapply Hok.
  - rewrite list_lookup_delete_ge in Hq by lia.
    rewrite list_lookup_delete_ge in Hb by lia. by eapply Hok.
Qed.

Lemma find_object_Some (ms : list nat) (obj pos x : nat) :
  list_find (λ x, x = obj) ms = Some (pos, x) → ms !! pos = Some obj.
Proof. intros (Hx & -> & _)%list_find_Some. done. Qed.

Lemma find_object_None (ms : list nat) (obj : nat) :
  list_find (λ x, x = obj) ms = None → obj ∉ ms.
Proof.
  intros Hn%list_find_None Hin. rewrite Forall_forall in Hn. by apply (Hn obj).
Qed.

(** *** The invariant of a run *)

Lemma run_inv_start (pool : BackendPool) : fresh_pool pool → run_inv (start_run pool).
Proof.
  intros Hfresh. unfold fresh_pool in Hfresh. split; simpl.
  - apply length_seq.
  - apply NoDup_seq.
  - intros obj Hin. apply elem_of_seq in Hin. lia.
  - intros obj Hin. by apply elem_of_nil in Hin.
  - intros obj e Hin. by apply elem_of_nil in Hin.
  - done.
  - intros pos obj b Hobj Hb. rewrite Forall_lookup in Hfresh.
    destruct (Hfresh _ _ Hb) as [Hi Hc]. by apply object_ok_fresh.
Qed.

(** Every event keeps the invariant. *)
Lemma run_inv_event (st st' : pool_run) (ev : pool_event) :
  run_inv st → run_event st ev = Some st' → run_inv st'.
Proof.
  intros [Hlen Hnd Hms Hout Hlog Hbal Hok] Hev.
  destruct ev as [strategy | obj up | obj resp checked_at now metrics
                 | obj now metrics | h p part | h p]; simpl in Hev.
  - (* acquire *)
    destruct (get_backend (run_pool st) strategy) as [pos pool'| |] eqn:Hget;
      [|injection Hev as <-; by split..].
    destruct (members st !! pos) as [obj|] eqn:Hobj; [|done].
    injection Hev as <-.
    destruct (get_backend_Acquired _ _ _ _ Hget) as (b & Hb & Hh & Hbs & _).
    split; simpl; try done.
    + by rewrite Hbs, length_alter.
    + intros x [->|Hx]%elem_of_cons; [|by apply Hout].
      apply Hms. by eapply list_elem_of_lookup_2.
    + lia.
    + rewrite Hbs. eapply objects_ok_alter; [done | exact Hobj | exact Hok | |].
      * intros b0 Hb0. rewrite held_count_cons, decide_True by done.
        by apply object_ok_acquire.
      * intros x Hx. by rewrite held_count_cons, decide_False.
  - (* finish *)
    destruct (take_out obj (outstanding st)) as [held|] eqn:Hto; [|done].
    injection Hev as <-.
    destruct (take_out_Some _ _ _ Hto) as (Hin & Hlen' & Hcnt & Hoth & Hsub).
    assert (Hothers : ∀ x, x ≠ obj →
              held_count x held = held_count x (outstanding st)
              ∧ events_of x ((obj, Requested up) :: history st)
                = events_of x (history st)).
    { intros x Hx. rewrite events_of_cons, decide_False by done.
      by rewrite (Hoth x Hx). }
    unfold update_object.
    destruct (list_find (λ x, x = obj) (members st)) as [[pos x]|] eqn:Hfind.
    + apply find_object_Some in Hfind.
      split; simpl; try done.
      * by rewrite length_alter.
      * intros y Hy. by apply Hout, Hsub.
      * intros y e [[= -> ->]|Hy]%elem_of_cons; [by apply Hout | by eapply Hlog].
      * lia.
      * eapply objects_ok_alter; [done | exact Hfind | exact Hok | | exact Hothers].
        intros b0 Hb0. rewrite events_of_cons, decide_True by done.
        rewrite Hcnt in Hb0. by apply object_ok_finish.
    + apply find_object_None in Hfind.
      split; simpl; try done.
      * intros y Hy. by apply Hout, Hsub.
      * intros y e [[= -> ->]|Hy]%elem_of_cons; [by apply Hout | by eapply Hlog].
      * lia.
      * eapply objects_ok_others; [exact Hok|].
        intros x Hx. apply Hothers. by intros ->.
  - (* health check *)
    destruct (decide (obj < next_object st)%nat) as [Hlt|]; [|done].
    simpl in Hev. injection Hev as <-.
    assert (Hothers : ∀ x, x ≠ obj →
              held_count x (outstanding st) = held_count x (outstanding st)
              ∧ events_of x ((obj, Probed resp) :: history st)
                = events_of x (history st)).
    { intros x Hx. by rewrite events_of_cons, decide_False. }
    unfold update_object.
    destruct (list_find (λ x, x = obj) (members st)) as [[pos x]|] eqn:Hfind.
    + apply find_object_Some in Hfind.
      split; simpl; try done.
      * by rewrite length_alter.
      * intros y e [[= -> ->]|Hy]%elem_of_cons; [done | by eapply Hlog].
      * eapply objects_ok_alter; [done | exact Hfind | exact Hok | | exact Hothers].
        intros b0 Hb0. rewrite events_of_cons, decide_True by done.
        by apply object_ok_probe.
    + apply find_object_None in Hfind.
      split; simpl; try done.
      * intros y e [[= -> ->]|Hy]%elem_of_cons; [done | by eapply Hlog].
      * eapply objects_ok_others; [exact Hok|].
        intros x Hx. apply Hothers. by intros ->.
  - (* load refresh *)
    destruct (decide (obj < next_object st)%nat) as [Hlt|]; [|done].
    simpl in Hev. injection Hev as <-.
    unfold update_object.
    destruct (list_find (λ x, x = obj) (members st)) as [[pos x]|] eqn:Hfind;
      [|by split].
    apply find_object_Some in Hfind.
    split; simpl; try done.
    + by rewrite length_alter.
    + eapply objects_ok_alter; [done | exact Hfind | exact Hok | | done].
      intros b0 Hb0. by apply object_ok_refresh.
  - (* registration *)
    pose proof (add_backend_to_spec (backends (run_pool st)) h p part) as Hadd.
    destruct (endpoint_position h p (backends (run_pool st))) as [pos|];
      injection Hev as <-.
    + destruct Hadd as [[b Hb] Hadd].
      destruct (lookup_lt_is_Some_2 (members st) pos) as [obj Hobj].
      { rewrite Hlen. by eapply lookup_lt_Some. }
      rewrite Hobj. split; simpl; try done.
      * by rewrite Hadd, length_alter.
      * intros y e [[= -> ->]|Hy]%elem_of_cons; [|by eapply Hlog].
        apply Hms. by eapply list_elem_of_lookup_2.
      * rewrite Hadd.
        eapply objects_ok_alter; [done | exact Hobj | exact Hok | |].
        -- intros b0 Hb0. rewrite events_of_cons, decide_True by done.
           by apply object_ok_reregistered.
        -- intros x Hx. by rewrite events_of_cons, decide_False.
    + assert (Hnew : next_object st ∉ members st).
      { intros Hin. apply Hms in Hin. lia. }
      split; simpl.
      * rewrite Hadd, !length_app. simpl. lia.
      * apply NoDup_app. split_and!; [done | | apply NoDup_singleton].
        intros x Hx ->%list_elem_of_singleton. done.
      * intros x [Hx| ->%list_elem_of_singleton]%elem_of_app;
          [apply Hms in Hx|]; lia.
      * intros x Hx. apply Hout in Hx. lia.
      * intros x e Hx. apply Hlog in Hx. lia.
      * done.
      * rewrite Hadd. apply objects_ok_snoc; [done..|].
        rewrite held_count_absent, events_of_absent.
        -- by apply object_ok_fresh.
        -- intros e Hin. apply Hlog in Hin. lia.
        -- intros Hin. apply Hout in Hin. lia.
  - (* removal *)
    injection Hev as <-.
    pose proof (remove_backend_from_spec (backends (run_pool st)) h p) as Hrm.
    unfold remove_backend.
    destruct (remove_backend_from (backends (run_pool st)) h p) as [bs' removed].
    simpl in Hrm. subst bs'.
    unfold endpoint_position in *.
    destruct (list_find _ (backends (run_pool st))) as [[pos b]|] eqn:Hfind;
      simpl; [|by split].
    apply list_find_Some in Hfind as (Hb & _).
    split; simpl; try done.
    + rewrite !length_delete; [lia | by eexists |].
      apply lookup_lt_is_Some_2. rewrite Hlen. by eapply lookup_lt_Some.
    + eapply sublist_NoDup; [|apply sublist_delete]. done.
    + intros x Hx. apply Hms. by eapply list_elem_of_delete_inv.
    + by apply objects_ok_delete.
Qed.

Lemma run_inv_events (evs : list pool_event) (st st' : pool_run) :
  run_inv st → run_events st evs = Some st' → run_inv st'.
Proof.
  revert st. induction evs as [|ev evs IH]; intros st Hinv Hrun; simpl in Hrun.
  - by injection Hrun as <-.
  - destruct (run_event st ev) as [st1|] eqn:Hev; [|done]. simpl in Hrun.
    eapply IH; [|exact Hrun]. by eapply run_inv_event.
Qed.

(** An event can always happen, unless it releases an object that is not
    held or names an object that was never made. *)
Lemma run_event_defined (st : pool_run) (ev : pool_event) :
  run_inv st →
  match ev with
  | EvFinish obj _ => obj ∈ outstanding st
  | EvHealthCheck obj _ _ _ _ | EvLoadRefresh obj _ _ => (obj < next_object st)%nat
  | _ => True
  end →
  is_Some (run_event st ev).
Proof.
  intros [Hlen _ _ _ _ _ _] Hpre.
  destruct ev as [strategy | obj up | obj resp checked_at now metrics
                 | obj now metrics | h p part | h p]; simpl.
  - destruct (get_backend (run_pool st) strategy) as [pos pool'| |] eqn:Hget;
      [|by eexists..].
    destruct (get_backend_Acquired _ _ _ _ Hget) as (b & Hb & _).
    destruct (lookup_lt_is_Some_2 (members st) pos) as [obj ->]; [|by eexists].
    rewrite Hlen. by eapply lookup_lt_Some.
  - destruct (take_out_held _ _ Hpre) as [held ->]. by eexists.
  - rewrite decide_True by done. by eexists.
  - rewrite decide_True by done. by eexists.
  - destruct (endpoint_position _ _ _); by eexists.
  - by eexists.
Qed.

End run_facts.

(** *** The total of the counters *)

Lemma held_split (m : nat) (ms held : list nat) :
  m ∉ ms →
  length (filter (λ obj, obj ∈ m :: ms) held)
  = (held_count m held + length (filter (λ obj, obj ∈ ms) held))%nat.
Proof.
  intros Hm. unfold held_count.
  induction held as [|x held IH]; [done|].
  destruct (decide (x = m)) as [->|Hne].
  - rewrite (filter_cons_True (λ obj, obj ∈ m :: ms)) by (apply elem_of_cons; by left).
    rewrite (filter_cons_True (λ x, x = m)) by done.
    rewrite (filter_cons_False (λ obj, obj ∈ ms)) by done.
    simpl. by rewrite IH.
  - rewrite (filter_cons_False (λ x, x = m)) by done.
    destruct (decide (x ∈ ms)) as [Hin|Hnin].
    + rewrite (filter_cons_True (λ obj, obj ∈ m :: ms)) by (apply elem_of_cons; by right).
      rewrite (filter_cons_True (λ obj, obj ∈ ms)) by done.
      simpl. rewrite IH. lia.
    + rewrite (filter_cons_False (λ obj, obj ∈ m :: ms)).
      * by rewrite (filter_cons_False (λ obj, obj ∈ ms)).
      * intros [->|Hin]%elem_of_cons; done.
Qed.

Lemma total_from_counts (ms : list nat) (bs : list Backend) (held : list nat) :
  length ms = length bs → NoDup ms →
  (∀ pos obj b, ms !! pos = Some obj → bs !! pos = Some b →
     inflight b = Z.of_nat (held_count obj held)) →
  foldr (λ b acc, inflight b + acc) 0 bs
  = Z.of_nat (length (filter (λ obj, obj ∈ ms) held)).
Proof.
  revert bs. induction ms as [|m ms IH]; intros [|b bs] Hlen Hnd Hcnt; try done.
  - simpl. clear Hcnt. induction held as [|x held IHh]; [done|].
    rewrite filter_cons_False; [done | apply not_elem_of_nil].
  - apply NoDup_cons in Hnd as [Hm Hnd]. simpl.
    rewrite (held_split m ms held Hm), (Hcnt 0%nat m b eq_refl eq_refl).
    rewrite (IH bs); [lia | by injection Hlen | done |].
    intros pos obj b' Hobj Hb'. by apply (Hcnt (S pos)).
Qed.

(** The counters of a pool add up to the acquires not yet released whose
    object is in the pool. *)
Lemma total_inflight_held (st : pool_run) :
  run_inv st → total_inflight (run_pool st) = Z.of_nat (length (held_in_pool st)).
Proof.
  intros [Hlen Hnd _ _ _ _ Hok]. unfold total_inflight, held_in_pool.
  apply total_from_counts; [done..|].
  intros pos obj b Hobj Hb. by destruct (Hok pos obj b Hobj Hb) as (-> & _).
Qed.

Lemma held_in_pool_all (st : pool_run) :
  (∀ obj, obj ∈ outstanding st → obj ∈ members st) →
  held_in_pool st = outstanding st.
Proof.
  unfold held_in_pool. generalize (members st). intros ms.
  induction (outstanding st) as [|x held IH]; intros Hall; [done|].
  rewrite filter_cons_True by (apply Hall, elem_of_cons; by left).
  f_equal. apply IH. intros obj Hobj. apply Hall, elem_of_cons. by right.
Qed.

(** ** Facts about the proxy *)

Section proxy_facts.
Context `{FloatParser}.
Implicit Types (self : LoadBalancingProxy).

Lemma same_routing_refl self : same_routing self self.
Proof. by repeat split. Qed.

Lemma same_routing_trans self1 self2 self3 :
  same_routing self1 self2 → same_routing self2 self3 → same_routing self1 self3.
Proof.
  intros (? & ? & ? & ?) (? & ? & ? & ?). repeat split; congruence.
Qed.

Lemma update_tracked_routing self rid f : same_routing self (update_tracked self rid f).
Proof. by repeat split. Qed.

Lemma store_timing_routing self rid value set :
  same_routing self (store_timing self rid value set).
Proof.
  unfold store_timing. destruct value as [text|]; [|apply same_routing_refl].
  destruct (truthy_str _); [|apply same_routing_refl].
  destruct (py_float text); [apply update_tracked_routing | apply same_routing_refl].
Qed.

Lemma annotate_request_routing self self' rid rq :
  annotate_request self rid rq = Some self' → same_routing self self'.
Proof.
  unfold annotate_request. destruct (rq_last_user_msg rq) as [text|]; [|done].
  intros [= <-].
  eapply same_routing_trans; [|apply store_timing_routing].
  eapply same_routing_trans; [|apply store_timing_routing].
  destruct (negb _); [apply update_tracked_routing | apply same_routing_refl].
Qed.

Lemma conclude_routing self rid backend_url now up :
  same_routing self (conclude self rid backend_url now up).1.
Proof.
  destruct up as [status [text|] ? ?| | |]; simpl; try by repeat split.
  - destruct (status <? 500), (negb _); by repeat split.
  - destruct (status <? 500); by repeat split.
Qed.

Lemma fetch_backend_models_pools self force now env :
  pools (_fetch_backend_models self force now env).1 = pools self
  ∧ strategy (_fetch_backend_models self force now env).1 = strategy self
  ∧ headers (_fetch_backend_models self force now env).1 = headers self
  ∧ tracker (_fetch_backend_models self force now env).1 = tracker self.
Proof.
  unfold _fetch_backend_models. destruct (_ && _); [done|].
  by destruct (fetch_all_pools _ _ _).
Qed.

Lemma resolve_pool_pools self model now env :
  pools (resolve_pool self model now env).1 = pools self
  ∧ strategy (resolve_pool self model now env).1 = strategy self
  ∧ headers (resolve_pool self model now env).1 = headers self
  ∧ tracker (resolve_pool self model now env).1 = tracker self.
Proof.
  unfold resolve_pool. destruct (lookup_direct self model); [done|].
  destruct (lookup_mapped self model); [done|].
  destruct (lookup_mapped _ model); simpl; apply fetch_backend_models_pools.
Qed.

Lemma alter_alter {A} (f g : A → A) (i : nat) (l : list A) :
  alter g i (alter f i l) = alter (λ x, g (f x)) i l.
Proof.
  apply list_eq. intros j. destruct (decide (i = j)) as [->|Hne].
  - rewrite !list_lookup_alter_eq. by destruct (l !! j).
  - by rewrite !list_lookup_alter_ne.
Qed.

Lemma update_backend_pools self name pos f pool :
  PyDict.getitem (pools self) name = Some pool →
  pools (update_backend self name pos f)
  = PyDict.setitem (pools self) name (with_backends pool (alter f pos (backends pool))).
Proof. intros Hg. unfold update_backend. by rewrite Hg. Qed.

(** The pools after [forward]: the held backend is settled and released;
    when the inspection of the request body raises, only released. *)
Lemma forward_pools self rid rq name pos backend_url clock up pool :
  PyDict.getitem (pools self) name = Some pool →
  ∃ up', (up' = up ∨ up' = UpOtherError)
    ∧ pools (forward self rid rq name pos backend_url clock up).1
      = PyDict.setitem (pools self) name
          (with_backends pool
             (alter (λ b, release (settle b up')) pos (backends pool))).
Proof.
  intros Hg. unfold forward.
  set (self1 := with_tracker self _).
  destruct (annotate_request self1 rid rq) as [self2|] eqn:Han.
  - exists up. split; [by left|].
    apply annotate_request_routing in Han as (Hp2 & _).
    change (pools self1) with (pools self) in Hp2.
    set (self3 := update_backend self2 name pos (λ b, settle b up)).
    assert (Hp3 : pools self3 = PyDict.setitem (pools self) name
              (with_backends pool (alter (λ b, settle b up) pos (backends pool)))).
    { subst self3. rewrite <- Hp2. apply update_backend_pools. by rewrite Hp2. }
    pose proof (conclude_routing self3 rid backend_url (t_completed clock) up)
      as (Hp4 & _).
    destruct (conclude self3 rid backend_url (t_completed clock) up) as [self4 resp].
    simpl in *.
    rewrite (update_backend_pools self4 name pos release
               (with_backends pool (alter (λ b, settle b up) pos (backends pool)))).
    + rewrite Hp4, Hp3, PyDictFacts.setitem_setitem. simpl. by rewrite alter_alter.
    + rewrite Hp4, Hp3. apply PyDictFacts.getitem_setitem_eq.
  - exists UpOtherError. split; [by right|]. simpl.
    by rewrite (update_backend_pools self1 name pos release pool).
Qed.

(** The pools after a request: untouched, or one backend of one pool was
    acquired, settled and released. *)
Lemma proxy_request_pools self rid rq model path clock env up :
  pools (_proxy_request self rid rq model path clock env up).1 = pools self
  ∨ ∃ name pool pos pool1 up',
      PyDict.getitem (pools self) name = Some pool
      ∧ get_backend pool (strategy self) = Acquired pos pool1
      ∧ (up' = up ∨ up' = UpOtherError)
      ∧ pools (_proxy_request self rid rq model path clock env up).1
        = PyDict.setitem (pools self) name
            (with_backends pool1
               (alter (λ b, release (settle b up')) pos (backends pool1))).
Proof.
  unfold _proxy_request.
  set (self1 := with_tracker _ _).
  pose proof (resolve_pool_pools self1 model (t_models clock) env) as (Hp & Hs & _).
  change (pools self1) with (pools self) in Hp.
  change (strategy self1) with (strategy self) in Hs.
  destruct (resolve_pool self1 model (t_models clock) env) as [self2 found].
  simpl in Hp, Hs.
  destruct found as [name|]; simpl; [|by left].
  destruct (PyDict.getitem (pools self2) name) as [pool|] eqn:Hg; simpl; [|by left].
  destruct (get_backend pool (strategy self2)) as [pos pool1| |] eqn:Hget;
    [|by left..].
  destruct (backends pool1 !! pos) as [b|] eqn:Hb.
  - right.
    destruct (forward_pools
      (with_pools self2 (PyDict.setitem (pools self2) name pool1))
      rid rq name pos (url b) clock up pool1) as (up' & Hup & Hfw).
    { apply PyDictFacts.getitem_setitem_eq. }
    exists name, pool, pos, pool1, up'. rewrite <- Hp, <- Hs.
    split_and!; try done. rewrite Hfw. simpl. apply PyDictFacts.setitem_setitem.
  - exfalso. destruct (get_backend_Acquired _ _ _ _ Hget) as (b & Hb0 & _ & Hbs & _).
    rewrite Hbs, list_lookup_alter_eq, Hb0 in Hb. done.
Qed.

End proxy_facts.

Section proxy_facts_2.
Context `{FloatParser}.
Implicit Types (self : LoadBalancingProxy).

Lemma contains_getitem {V} (d : list (string * V)) (k : string) (v : V) :
  PyDict.getitem d k = Some v → PyDict.contains d k = true.
Proof. intros Hg. unfold PyDict.contains. by rewrite Hg. Qed.

Lemma resolve_pool_direct self name pool now env :
  PyDict.getitem (pools self) name = Some pool →
  resolve_pool self (Some name) now env = (self, Some name).
Proof.
  intros Hg. unfold resolve_pool, lookup_direct. simpl.
  by rewrite (contains_getitem _ _ _ Hg).
Qed.

(** Acquire, settle, release: the backend's counter ends where it began. *)
Lemma acquire_release_total (pool pool1 : BackendPool) (strategy : string)
    (pos : nat) (up : upstream) :
  Forall (λ b, 0 ≤ inflight b) (backends pool) →
  get_backend pool strategy = Acquired pos pool1 →
  total_inflight
    (with_backends pool1 (alter (λ b, release (settle b up)) pos (backends pool1)))
  = total_inflight pool.
Proof.
  intros Hnn Hget.
  destruct (get_backend_Acquired _ _ _ _ Hget) as (b & Hb & _ & Hbs & _).
  unfold total_inflight. simpl. rewrite Hbs, alter_alter.
  pose proof (total_inflight_alter_at pool [] pos b
    (λ x, release (settle (with_inflight x (inflight x + 1)) up)) Hb) as Ht.
  unfold total_inflight in Ht. simpl in Ht. rewrite Ht.
  unfold release. simpl. rewrite settle_inflight. simpl.
  rewrite Forall_lookup in Hnn. specialize (Hnn _ _ Hb). simpl in Hnn. lia.
Qed.

End proxy_facts_2.

Section resolution_facts.
Context `{FloatParser}.
Implicit Types (self : LoadBalancingProxy).

(** The pool search reads the pools and the model map, nothing else. *)
Lemma resolve_pool_routing self self' model now env :
  pools self' = pools self →
  model_to_pool self' = model_to_pool self →
  (resolve_pool self' model now env).2 = (resolve_pool self model now env).2
  ∧ model_to_pool (resolve_pool self' model now env).1
    = model_to_pool (resolve_pool self model now env).1.
Proof.
  intros Hp Hm.
  assert (Hd : lookup_direct self' model = lookup_direct self model)
    by (unfold lookup_direct; by rewrite Hp).
  assert (Hb : lookup_mapped self' model = lookup_mapped self model)
    by (unfold lookup_mapped; by rewrite Hp, Hm).
  unfold resolve_pool. rewrite Hd, Hb.
  destruct (lookup_direct self model); [done|].
  destruct (lookup_mapped self model); [done|].
  assert (Hf : pools (_fetch_backend_models self' true now env).1
               = pools (_fetch_backend_models self true now env).1
             ∧ model_to_pool (_fetch_backend_models self' true now env).1
               = model_to_pool (_fetch_backend_models self true now env).1).
  { unfold _fetch_backend_models. simpl. rewrite Hp, Hm.
    by destruct (fetch_all_pools _ _ _). }
  destruct Hf as [Hp' Hm'].
  unfold lookup_mapped, lookup_partial. rewrite Hp', Hm'.
  by destruct (_ ≫= _).
Qed.

(** The tracker after [submit] and a failed [complete]. *)
Lemma submit_then_fail (t : RequestTracker float) (now now' : float)
    (rid src mdl pth : string) (sid tid cid cmd : option string) :
  status <$> PyDict.getitem
    (requests (complete (submit t now rid src mdl pth sid tid cid cmd).2 now' rid false))
    rid = Some failed.
Proof.
  unfold complete, update_request.
  assert (Hg : PyDict.getitem
            (requests (submit t now rid src mdl pth sid tid cid cmd).2) rid
          = Some (submit t now rid src mdl pth sid tid cid cmd).1).
  { unfold submit. destruct sid as [s|]; [destruct (truthy_str _)|]; simpl;
      apply PyDictFacts.getitem_setitem_eq. }
  rewrite Hg. simpl. by rewrite PyDictFacts.getitem_setitem_eq.
Qed.

(** When the search finds no pool: 404, the list of known names, and the
    request is tracked as failed. *)
Lemma proxy_request_not_found self rid rq model path clock env up :
  (resolve_pool self model (t_models clock) env).2 = None →
  (_proxy_request self rid rq model path clock env up).2
  = NotFound ("No backend for model: " ++ str_of_model model)
      (available_models (resolve_pool self model (t_models clock) env).1)
  ∧ status <$> PyDict.getitem
      (requests (tracker (_proxy_request self rid rq model path clock env up).1)) rid
    = Some failed.
Proof.
  intros Hnone. unfold _proxy_request.
  set (self1 := with_tracker _ _).
  destruct (resolve_pool_routing self self1 model (t_models clock) env eq_refl eq_refl)
    as [Hfound Hmap].
  pose proof (resolve_pool_pools self1 model (t_models clock) env) as (Hp & _ & _ & Ht).
  pose proof (resolve_pool_pools self model (t_models clock) env) as (Hp0 & _).
  destruct (resolve_pool self1 model (t_models clock) env) as [self2 found].
  simpl in *. rewrite Hnone in Hfound. subst found. simpl. split.
  - f_equal. unfold available_models. simpl. by rewrite Hmap, Hp, Hp0.
  - rewrite Ht. apply submit_then_fail.
Qed.

End resolution_facts.

(** *** The model map *)

Lemma register_all_app (m2p regs1 regs2 : list (string * string)) :
  register_all m2p (regs1 ++ regs2) = register_all (register_all m2p regs1) regs2.
Proof. unfold register_all. apply foldl_app. Qed.

Lemma register_all_keys (m2p regs : list (string * string)) (id : string) :
  id ∈ PyDict.keys m2p → id ∈ PyDict.keys (register_all m2p regs).
Proof.
  revert m2p. induction regs as [|r regs IH]; intros m2p Hin; simpl; [done|].
  apply IH. by apply PyDictFacts.keys_in_setitem.
Qed.

(** The last registration of an id decides its entry. *)
Lemma register_all_last (m2p regs : list (string * string)) (id : string) :
  PyDict.getitem (register_all m2p regs) id
  = match last (filter (λ r : string * string, r.1 = id) regs) with
    | Some r => Some r.2
    | None => PyDict.getitem m2p id
    end.
Proof.
  induction regs as [|r regs IH] using rev_ind; [done|].
  rewrite register_all_app, filter_app. simpl.
  destruct (decide (r.1 = id)) as [<-|Hne].
  - rewrite filter_cons_True by done. rewrite filter_nil, last_snoc.
    apply PyDictFacts.getitem_setitem_eq.
  - rewrite filter_cons_False by done. rewrite filter_nil, app_nil_r.
    by rewrite PyDictFacts.getitem_setitem_ne.
Qed.

Lemma register_models_spec (pool_name : string) (entries : list model_entry)
    (m2p : list (string * string)) (all_models : list string) :
  (register_models pool_name entries m2p all_models).1.1
  = register_all m2p (entry_registrations pool_name entries).1
  ∧ (register_models pool_name entries m2p all_models).2
    = (entry_registrations pool_name entries).2.
Proof.
  revert m2p all_models.
  induction entries as [|[[id|]|] entries IH]; intros m2p all_models; simpl; try done.
  - destruct (entry_registrations pool_name entries) as [regs raised] eqn:He.
    destruct (negb (String.eqb id "")); simpl.
    + destruct (IH (PyDict.setitem m2p id pool_name)
                  (if bool_decide (id ∈ all_models) then all_models
                   else all_models ++ [id])) as [-> ->]. done.
    + apply IH.
  - destruct (entry_registrations pool_name entries) as [regs raised] eqn:He.
    apply IH.
Qed.

Lemma fetch_pool_models_spec (env : models_env) (pool_name : string)
    (bs : list Backend) (m2p : list (string * string)) (all_models : list string) :
  (fetch_pool_models env pool_name bs m2p all_models).1
  = register_all m2p (pool_registrations env pool_name bs).
Proof.
  revert m2p all_models. induction bs as [|b bs IH]; intros m2p all_models; simpl;
    [done|].
  destruct (healthy b); simpl; [|apply IH].
  destruct (env (host b) (port b)) as [|status [entries|]]; try apply IH.
  destruct (status =? 200); [|apply IH].
  pose proof (register_models_spec pool_name entries m2p all_models) as [Hm Hr].
  destruct (register_models pool_name entries m2p all_models) as [[m2p' all'] raised].
  destruct (entry_registrations pool_name entries) as [regs raised'].
  simpl in *. subst raised' m2p'. destruct raised; [|done].
  by rewrite IH, register_all_app.
Qed.

Lemma fetch_all_pools_spec (env : models_env) (ps : list (string * BackendPool))
    (m2p : list (string * string)) :
  (fetch_all_pools env ps m2p).1 = register_all m2p (registrations env ps).
Proof.
  unfold fetch_all_pools, registrations. generalize (@nil string) as all_models.
  revert m2p. induction ps as [|[name pool] ps IH]; intros m2p all_models; simpl;
    [done|].
  rewrite register_all_app, <- (fetch_pool_models_spec env name _ m2p all_models).
  destruct (fetch_pool_models env name (backends pool) m2p all_models) as [m2p' all'].
  apply IH.
Qed.

Section map_facts.
Context `{FloatParser}.
Implicit Types (self : LoadBalancingProxy).

Lemma fetch_backend_models_forced self now env :
  model_to_pool (_fetch_backend_models self true now env).1
  = register_all (model_to_pool self) (registrations env (pools self)).
Proof.
  unfold _fetch_backend_models. simpl.
  rewrite <- fetch_all_pools_spec. by destruct (fetch_all_pools _ _ _).
Qed.

Lemma fetch_backend_models_keys self force now env (id : string) :
  id ∈ PyDict.keys (model_to_pool self) →
  id ∈ PyDict.keys (model_to_pool (_fetch_backend_models self force now env).1).
Proof.
  intros Hin. unfold _fetch_backend_models. destruct (_ && _); [done|].
  pose proof (fetch_all_pools_spec env (pools self) (model_to_pool self)) as Hs.
  destruct (fetch_all_pools _ _ _) as [m2p all]. simpl in *. subst m2p.
  by apply register_all_keys.
Qed.

Lemma resolve_pool_keys self model now env (id : string) :
  id ∈ PyDict.keys (model_to_pool self) →
  id ∈ PyDict.keys (model_to_pool (resolve_pool self model now env).1).
Proof.
  intros Hin. unfold resolve_pool. destruct (lookup_direct self model); [done|].
  destruct (lookup_mapped self model); [done|].
  destruct (lookup_mapped _ model); simpl; by apply fetch_backend_models_keys.
Qed.

Lemma update_backend_routing self name pos f :
  model_to_pool (update_backend self name pos f) = model_to_pool self
  ∧ PyDict.keys (pools (update_backend self name pos f)) = PyDict.keys (pools self).
Proof.
  unfold update_backend. destruct (PyDict.getitem (pools self) name) eqn:Hg; [|done].
  split; [done|]. simpl. apply PyDictFacts.keys_setitem_present. eauto.
Qed.

Lemma forward_map self rid rq name pos backend_url clock up :
  model_to_pool (forward self rid rq name pos backend_url clock up).1
  = model_to_pool self.
Proof.
  unfold forward. set (self1 := with_tracker self _).
  destruct (annotate_request self1 rid rq) as [self2|] eqn:Han.
  - apply annotate_request_routing in Han as (_ & Hm2 & _).
    pose proof (conclude_routing
      (update_backend self2 name pos (λ b, settle b up)) rid backend_url
      (t_completed clock) up) as (_ & Hm4 & _).
    destruct (conclude _ rid backend_url (t_completed clock) up) as [self4 resp].
    simpl in *.
    rewrite (proj1 (update_backend_routing _ _ _ _)), Hm4.
    by rewrite (proj1 (update_backend_routing _ _ _ _)), Hm2.
  - simpl. by rewrite (proj1 (update_backend_routing _ _ _ _)).
Qed.

(** A request changes the model map only through the forced discovery of
    the pool search. *)
Lemma proxy_request_map self rid rq model path clock env up :
  model_to_pool (_proxy_request self rid rq model path clock env up).1
  = model_to_pool (resolve_pool self model (t_models clock) env).1.
Proof.
  unfold _proxy_request. set (self1 := with_tracker _ _).
  destruct (resolve_pool_routing self self1 model (t_models clock) env eq_refl eq_refl)
    as [_ Hmap].
  destruct (resolve_pool self1 model (t_models clock) env) as [self2 found].
  simpl in Hmap. rewrite <- Hmap. clear Hmap.
  destruct (found ≫= _) as [[name pool]|]; [|done].
  destruct (get_backend pool (strategy self2)) as [pos pool1| |]; try done.
  destruct (backends pool1 !! pos) as [b|]; [|done].
  by rewrite forward_map.
Qed.

Lemma conclude_not_404 self rid backend_url now up error available :
  (conclude self rid backend_url now up).2 ≠ NotFound error available.
Proof. by destruct up as [status [text|] ? ?| | |]. Qed.

(** The [available] list of a 404 is the list of known names after the pool
    search. *)
Lemma proxy_request_404_available self rid rq model path clock env up error available :
  (_proxy_request self rid rq model path clock env up).2 = NotFound error available →
  available
  = match PyDict.keys (model_to_pool (resolve_pool self model (t_models clock) env).1) with
    | [] => PyDict.keys (pools self)
    | ids => ids
    end.
Proof.
  unfold _proxy_request. set (self1 := with_tracker _ _).
  destruct (resolve_pool_routing self self1 model (t_models clock) env eq_refl eq_refl)
    as [_ Hmap].
  pose proof (resolve_pool_pools self1 model (t_models clock) env) as (Hp & _).
  destruct (resolve_pool self1 model (t_models clock) env) as [self2 found].
  simpl in Hmap, Hp. rewrite <- Hmap. change (pools self1) with (pools self) in Hp.
  destruct (found ≫= _) as [[name pool]|].
  - destruct (get_backend pool (strategy self2)) as [pos pool1| |]; try done.
    destruct (backends pool1 !! pos) as [b|]; [|done].
    unfold forward. destruct (annotate_request _ rid rq); [|done].
    match goal with
    | |- context [conclude ?s ?r ?u ?n ?o] =>
        pose proof (conclude_not_404 s r u n o error available) as Hc;
        destruct (conclude s r u n o) as [self4 resp]
    end.
    simpl in *. congruence.
  - simpl. intros [= _ <-]. unfold available_models. simpl. by rewrite Hp.
Qed.

End map_facts.

Section op_facts.
Context `{FloatParser}.
Implicit Types (self : LoadBalancingProxy).

Lemma proxy_add_backend_keys self model h p part (name : string) :
  name ∈ PyDict.keys (pools self) →
  name ∈ PyDict.keys (pools (proxy_add_backend self model h p part)).
Proof.
  intros Hin. unfold proxy_add_backend.
  destruct (PyDict.contains (pools self) model) eqn:Hc.
  - destruct (PyDict.getitem (pools self) model); simpl; [|done].
    by apply PyDictFacts.keys_in_setitem.
  - rewrite PyDictFacts.getitem_setitem_eq. simpl.
    by do 2 apply PyDictFacts.keys_in_setitem.
Qed.

Lemma proxy_remove_backend_keys self h p :
  PyDict.keys (pools (proxy_remove_backend self h p).1) = PyDict.keys (pools self).
Proof.
  unfold proxy_remove_backend, PyDict.keys. simpl. rewrite map_map. done.
Qed.

(** No operation removes a model id from the map or a pool from the proxy. *)
Lemma run_proxy_op_keeps self op :
  (∀ id, id ∈ PyDict.keys (model_to_pool self) →
         id ∈ PyDict.keys (model_to_pool (run_proxy_op self op)))
  ∧ (∀ name, name ∈ PyDict.keys (pools self) →
             name ∈ PyDict.keys (pools (run_proxy_op self op))).
Proof.
  destruct op as [model h p part | h p | force now env
                 | rid rq model path clock env up
                 | name pos resp checked_at now metrics | name pos now metrics | now];
    cbn [run_proxy_op].
  - split; [|intros name; apply proxy_add_backend_keys].
    intros id Hin. unfold proxy_add_backend.
    by destruct (PyDict.contains _ _), (PyDict.getitem _ _).
  - split; [done|]. intros name. by rewrite proxy_remove_backend_keys.
  - split; [intros id; apply fetch_backend_models_keys|].
    intros name. by rewrite (proj1 (fetch_backend_models_pools self force now env)).
  - split.
    + intros id Hin. rewrite proxy_request_map. by apply resolve_pool_keys.
    + intros name Hin.
      destruct (proxy_request_pools self rid rq model path clock env up)
        as [->|(name' & pool0 & pos & pool1 & up' & _ & _ & _ & ->)]; [done|].
      by apply PyDictFacts.keys_in_setitem.
  - destruct (update_backend_routing self name pos
      (λ b, _check_single_backend b resp checked_at now metrics)) as [-> ->]. done.
  - destruct (update_backend_routing self name pos
      (λ b, _refresh_backend_load b now metrics)) as [-> ->]. done.
  - done.
Qed.

Lemma run_proxy_ops_keeps self ops :
  (∀ id, id ∈ PyDict.keys (model_to_pool self) →
         id ∈ PyDict.keys (model_to_pool (run_proxy_ops self ops)))
  ∧ (∀ name, name ∈ PyDict.keys (pools self) →
             name ∈ PyDict.keys (pools (run_proxy_ops self ops))).
Proof.
  unfold run_proxy_ops. revert self.
  induction ops as [|op ops IH]; intros self; simpl; [done|].
  destruct (run_proxy_op_keeps self op) as [Hm Hp].
  destruct (IH (run_proxy_op self op)) as [Hm' Hp']. split; eauto.
Qed.

(** A mapped id that is not itself a pool name resolves to its pool. *)
Lemma resolve_pool_mapped self id pn now env :
  PyDict.getitem (model_to_pool self) id = Some pn →
  pn ≠ "" →
  pn ∈ PyDict.keys (pools self) →
  id ∉ PyDict.keys (pools self) →
  resolve_pool self (Some id) now env = (self, Some pn).
Proof.
  intros Hg Hne Hpn Hid. unfold resolve_pool, lookup_direct, lookup_mapped. simpl.
  destruct (PyDict.contains (pools self) id) eqn:Hc.
  { apply PyDictFacts.contains_true in Hc. contradiction. }
  rewrite Hg. simpl. apply PyDictFacts.contains_true in Hpn. rewrite Hpn.
  destruct (String.eqb_spec pn ""); [contradiction | done].
Qed.

End op_facts.

(** *** Parsing metrics *)

Section metrics_facts.
Context `{FloatParser}.



Lemma refresh_on_200 (b : Backend) (now : float) (text : string) :
  PrimFloat.ltb (now - load_last_updated b)%float LOAD_CACHE_TTL = false →
  _refresh_backend_load b now (MetricsResponse 200 text)
  = match parse_vllm_metrics text with
    | Some metrics =>
        with_load b (default 0 (running metrics) + default 0 (waiting metrics)) now
    | None => b
    end.
Proof. intros Hstale. unfold _refresh_backend_load. by rewrite Hstale. Qed.

End metrics_facts.

(** ** Facts about the poll loop *)




(** * Further facts *)

(** ** Selection by a minimum *)

Lemma py_min_Z_spec (l : list Z) (m : Z) :
  py_min_Z l = Some m → m ∈ l ∧ ∀ x, x ∈ l → m ≤ x.
Proof.
  destruct l as [|x0 l]; [done|]. simpl. intros [= <-].
  revert x0. induction l as [|y l IH]; intros x0; simpl.
  - split; [apply list_elem_of_here|]. intros x ->%list_elem_of_singleton. lia.
  - destruct (IH (Z.min x0 y)) as [Hin Hle]. split.
    + apply elem_of_cons in Hin as [Heq|Hin].
      * rewrite Heq. destruct (Z.min_spec x0 y) as [[_ ->]|[_ ->]].
        -- apply list_elem_of_here.
        -- apply list_elem_of_further, list_elem_of_here.
      * by do 2 apply list_elem_of_further.
    + intros x Hx.
      assert (foldl Z.min (Z.min x0 y) l ≤ Z.min x0 y)
        by (apply Hle, list_elem_of_here).
      apply elem_of_cons in Hx as [->|Hx]; [lia|].
      apply elem_of_cons in Hx as [->|Hx]; [lia|].
      apply Hle. by apply list_elem_of_further.
Qed.

Lemma py_min_Z_is_Some (l : list Z) : l ≠ [] → is_Some (py_min_Z l).
Proof. destruct l; [done|]. by eexists. Qed.

Lemma tied_positions_lookup (is_min : Backend → bool) (bs : list Backend) (j : nat) :
  j ∈ tied_positions is_min bs ↔ ∃ b, bs !! j = Some b ∧ is_min b = true.
Proof.
  unfold tied_positions. rewrite list_elem_of_fmap. split.
  - intros ([i b] & -> & Hin). apply list_elem_of_filter in Hin as [Hm Hin].
    apply elem_of_lookup_imap in Hin as (i' & b' & [= -> ->] & Hb). eauto.
  - intros (b & Hb & Hm). exists (j, b). split; [done|].
    apply list_elem_of_filter. split; [done|].
    apply elem_of_lookup_imap. eauto.
Qed.

Lemma pick_tied_elem (tied : list nat) (index : Z) :
  tied ≠ [] →
  pick_tied tied index = tied !! Z.to_nat (index `mod` Z.of_nat (length tied))
  ∧ ∃ j, pick_tied tied index = Some j ∧ j ∈ tied.
Proof.
  intros Hne. destruct tied as [|t tied]; [done|]. split; [done|].
  unfold pick_tied.
  pose proof (Z.mod_pos_bound index (Z.of_nat (length (t :: tied)))) as Hb.
  destruct (lookup_lt_is_Some_2 (t :: tied)
              (Z.to_nat (index `mod` Z.of_nat (length (t :: tied))))) as [j Hj].
  { simpl length in *. lia. }
  exists j. split; [done|]. by eapply list_elem_of_lookup_2.
Qed.

(** A strategy that takes a minimum: the position chosen is one of those
    where the key is least, picked by the rotation index. *)
Lemma select_by_minimum (key : Backend → Z) (bs : list Backend) (index : Z) :
  bs ≠ [] →
  ∃ m j b,
    py_min_Z (key <$> bs) = Some m
    ∧ pick_tied (tied_positions (λ b, key b =? m) bs) index = Some j
    ∧ bs !! j = Some b
    ∧ key b = m
    ∧ ∀ b', b' ∈ bs → key b ≤ key b'.
Proof.
  intros Hne.
  destruct (py_min_Z_is_Some (key <$> bs)) as [m Hm].
  { by destruct bs. }
  destruct (py_min_Z_spec _ _ Hm) as [Hin Hle].
  apply list_elem_of_fmap in Hin as (b0 & -> & Hb0).
  apply list_elem_of_lookup_1 in Hb0 as [j0 Hj0].
  assert (Htied : tied_positions (λ b, key b =? key b0) bs ≠ []).
  { intros Hnil.
    assert (j0 ∈ tied_positions (λ b, key b =? key b0) bs) as Hj.
    { apply tied_positions_lookup. exists b0. split; [done | apply Z.eqb_refl]. }
    rewrite Hnil in Hj. by apply elem_of_nil in Hj. }
  destruct (pick_tied_elem _ index Htied) as [_ (j & Hpick & Hj)].
  apply tied_positions_lookup in Hj as (b & Hb & Hkey). apply Z.eqb_eq in Hkey.
  exists (key b0), j, b. split_and!; try done.
  intros b' Hb'. rewrite Hkey. apply Hle. apply list_elem_of_fmap. eauto.
Qed.

Lemma healthy_backends_elem (pool : BackendPool) (b : Backend) :
  b ∈ (healthy_backends pool).*2 ↔ b ∈ backends pool ∧ healthy b = true.
Proof.
  unfold healthy_backends. rewrite list_elem_of_fmap. split.
  - intros ([pos b'] & -> & Hin). apply list_elem_of_filter in Hin as [Hh Hin].
    apply elem_of_lookup_imap in Hin as (i & y & [= -> ->] & Hy).
    split; [by eapply list_elem_of_lookup_2 | done].
  - intros [Hin Hh]. apply list_elem_of_lookup_1 in Hin as [pos Hpos].
    exists (pos, b). split; [done|]. apply list_elem_of_filter. split; [done|].
    apply elem_of_lookup_imap. eauto.
Qed.

Lemma get_backend_by_minimum (score : Backend → Z) (pool : BackendPool)
    (strategy : string) :
  (∀ bs index, bs ≠ [] →
     select_backend bs strategy index
     = (m ← py_min_Z (score <$> bs);
        pos ← pick_tied (tied_positions (λ b, score b =? m) bs) index;
        Some (pos, index + 1))) →
  (∃ b, b ∈ backends pool ∧ healthy b = true) →
  picks_minimum score pool strategy.
Proof.
  intros Hsel (b0 & Hb0 & Hh0).
  assert (Hne : (healthy_backends pool).*2 ≠ []).
  { intros Hnil. assert (b0 ∈ (healthy_backends pool).*2) as Hin
      by by apply healthy_backends_elem.
    rewrite Hnil in Hin. by apply elem_of_nil in Hin. }
  destruct (select_by_minimum score _ (_index pool) Hne)
    as (m & j & b & Hm & Hpick & Hj & Hkey & Hmin).
  rewrite list_lookup_fmap in Hj.
  destruct (healthy_backends pool !! j) as [[pos b1]|] eqn:Hhb; [|done].
  simpl in Hj. injection Hj as ->.
  pose proof (healthy_backends_lookup _ _ _ _ Hhb) as [Hb Hh].
  exists pos, b. eexists. split_and!; [|done|done| |reflexivity].
  - unfold get_backend. revert Hne Hm Hpick Hhb.
    generalize (healthy_backends pool). intros [|hb0 hbs] Hne Hm Hpick Hhb; [done|].
    rewrite (Hsel _ _ Hne), Hm. cbn [mbind option_bind]. rewrite Hpick.
    cbn [mbind option_bind]. rewrite Hhb. unfold counted_in.
    by rewrite (insert_as_alter _ _ _ (λ b, with_inflight b (inflight b + 1)) Hb).
  - intros b' Hb' Hh'. apply Hmin. by apply healthy_backends_elem.
Qed.

Lemma select_backend_least_connections (bs : list Backend) (index : Z) :
  bs ≠ [] →
  select_backend bs "least_connections" index
  = (m ← py_min_Z (connections_score <$> bs);
     pos ← pick_tied (tied_positions (λ b, connections_score b =? m) bs) index;
     Some (pos, index + 1)).
Proof. by destruct bs. Qed.

Lemma select_backend_least_load (bs : list Backend) (index : Z) :
  bs ≠ [] →
  select_backend bs "least_load" index
  = (m ← py_min_Z (load_score <$> bs);
     pos ← pick_tied (tied_positions (λ b, load_score b =? m) bs) index;
     Some (pos, index + 1)).
Proof. by destruct bs. Qed.

(** ** The first healthy backend *)

Lemma filter_imap_head {A} (P : A → Prop) `{∀ x, Decision (P x)} (f : nat → nat)
    (l : list A) :
  head (filter (λ ix : nat * A, P ix.2) (imap (λ i x, (f i, x)) l))
  = prod_map f id <$> list_find P l.
Proof.
  revert f. induction l as [|x l IH]; intros f; [done|].
  cbn [imap list_find].
  change (imap ((λ i x, (f i, x)) ∘ S) l) with (imap (λ i x, ((f ∘ S) i, x)) l).
  destruct (decide (P x)) as [Hx|Hx].
  - by rewrite filter_cons_True.
  - rewrite filter_cons_False by done.
    rewrite (IH (f ∘ S)). by destruct (list_find P l) as [[i y]|].
Qed.

Lemma healthy_backends_head (pool : BackendPool) :
  head (healthy_backends pool) = list_find (λ b, healthy b = true) (backends pool).
Proof.
  unfold healthy_backends.
  etrans; [exact (filter_imap_head (λ b, healthy b = true) id (backends pool))|].
  by destruct (list_find _ _) as [[i y]|].
Qed.

Lemma select_backend_unknown (bs : list Backend) (strategy : string) (index : Z) :
  known_strategy strategy = false → bs ≠ [] →
  select_backend bs strategy index = Some (0%nat, index).
Proof.
  unfold known_strategy. intros Hk Hne.
  apply orb_false_elim in Hk as [Hk Hll]. apply orb_false_elim in Hk as [Hk Hlat].
  apply orb_false_elim in Hk as [Hrr Hlc].
  destruct bs; [done|]. unfold select_backend. by rewrite Hrr, Hlc, Hlat, Hll.
Qed.

(** ** Registering and removing backends *)

Lemma same_endpoint_true (h : string) (p : Z) (b : Backend) :
  same_endpoint h p b = true ↔ (host b, port b) = (h, p).
Proof.
  unfold same_endpoint. rewrite andb_true_iff, String.eqb_eq, Z.eqb_eq.
  split; [by intros [-> ->] | by intros [= -> ->]].
Qed.

Lemma endpoint_position_Some (h : string) (p : Z) (bs : list Backend) (pos : nat) :
  endpoint_position h p bs = Some pos ↔
  ∃ b, bs !! pos = Some b ∧ (host b, port b) = (h, p)
       ∧ ∀ j b', bs !! j = Some b' → (j < pos)%nat → (host b', port b') ≠ (h, p).
Proof.
  unfold endpoint_position. split.
  - destruct (list_find _ bs) as [[i b]|] eqn:Hf; [|done]. simpl. intros [= <-].
    apply list_find_Some in Hf as (Hb & Hs & Hfirst). exists b.
    split_and!; [done | by apply same_endpoint_true |].
    intros j b' Hj Hlt He. apply (Hfirst j b' Hj Hlt). by apply same_endpoint_true.
  - intros (b & Hb & He & Hfirst).
    assert (list_find (λ b, same_endpoint h p b = true) bs = Some (pos, b)) as ->;
      [|done].
    apply list_find_Some. split_and!; [done | by apply same_endpoint_true |].
    intros j b' Hj Hlt Hs. apply (Hfirst j b' Hj Hlt). by apply same_endpoint_true.
Qed.

Lemma endpoint_position_None (h : string) (p : Z) (bs : list Backend) :
  endpoint_position h p bs = None ↔ (h, p) ∉ endpoints_of bs.
Proof.
  unfold endpoint_position, endpoints_of. split.
  - destruct (list_find _ bs) as [[i b]|] eqn:Hf; [done|]. intros _ Hin.
    apply list_find_None in Hf. rewrite Forall_forall in Hf.
    apply list_elem_of_fmap in Hin as (b & He & Hb).
    apply (Hf b Hb). by apply same_endpoint_true.
  - intros Hn. destruct (list_find _ bs) as [[i b]|] eqn:Hf; [|done].
    apply list_find_Some in Hf as (Hb & Hs & _). exfalso. apply Hn.
    apply list_elem_of_fmap. exists b. split.
    + symmetry. by apply same_endpoint_true.
    + by eapply list_elem_of_lookup_2.
Qed.

Lemma endpoints_of_alter (f : Backend → Backend) (pos : nat) (bs : list Backend) :
  (∀ b, host (f b) = host b ∧ port (f b) = port b) →
  endpoints_of (alter f pos bs) = endpoints_of bs.
Proof.
  intros Hf. unfold endpoints_of. apply list_eq. intros i.
  rewrite !list_lookup_fmap, list_lookup_alter.
  destruct (decide (pos = i)) as [->|]; [|done].
  destruct (bs !! i) as [b|]; [|done]. simpl.
  by destruct (Hf b) as [-> ->].
Qed.

Lemma reregistered_endpoint (part : string) (b : Backend) :
  host (reregistered part b) = host b ∧ port (reregistered part b) = port b.
Proof. unfold reregistered. by destruct (negb _). Qed.

Lemma filter_Forall_id {A} (P : A → Prop) `{∀ x, Decision (P x)} (l : list A) :
  Forall P l → filter P l = l.
Proof.
  induction 1 as [|x l Hx Hl IH]; [done|]. by rewrite filter_cons_True, IH.
Qed.

(** With one backend per endpoint, popping the first backend at [(h, p)]
    leaves the backends at other endpoints. *)
Lemma delete_endpoint (h : string) (p : Z) (bs : list Backend) (pos : nat) :
  unique_endpoints bs →
  endpoint_position h p bs = Some pos →
  delete pos bs = filter (λ b, (host b, port b) ≠ (h, p)) bs.
Proof.
  unfold unique_endpoints, endpoints_of.
  revert pos. induction bs as [|b bs IH]; intros pos Hu Hpos.
  { by apply endpoint_position_Some in Hpos as (? & ? & _). }
  rewrite fmap_cons in Hu. apply NoDup_cons in Hu as [Hb Hu].
  apply endpoint_position_Some in Hpos as (b0 & Hb0 & He & Hfirst).
  destruct pos as [|pos]; simpl in Hb0.
  - injection Hb0 as ->. simpl. rewrite filter_cons_False by (by intros Hne).
    symmetry. apply filter_Forall_id, Forall_forall. intros b' Hb' He'. apply Hb.
    apply list_elem_of_fmap. exists b'. split; [congruence | done].
  - assert (Hne : (host b, port b) ≠ (h, p)) by (apply (Hfirst 0%nat b); [done | lia]).
    simpl. rewrite filter_cons_True by done. f_equal. apply IH; [done|].
    apply endpoint_position_Some. exists b0. split_and!; [done..|].
    intros j b' Hj Hlt. apply (Hfirst (S j) b'); [done | lia].
Qed.

Lemma remove_backend_from_flag (bs : list Backend) (h : string) (p : Z) :
  (remove_backend_from bs h p).2
  = match endpoint_position h p bs with Some _ => true | None => false end.
Proof.
  unfold endpoint_position. induction bs as [|b bs IH]; [done|].
  cbn [remove_backend_from list_find]. destruct (same_endpoint h p b) eqn:Hb.
  - by rewrite decide_True by done.
  - rewrite decide_False by done. simpl.
    destruct (remove_backend_from bs h p) as [bs' removed]. simpl in *.
    by destruct (list_find _ bs) as [[pos b']|].
Qed.

Lemma endpoint_position_alter (f : Backend → Backend) (h : string) (p : Z)
    (pos : nat) (bs : list Backend) :
  (∀ b, host (f b) = host b ∧ port (f b) = port b) →
  endpoint_position h p (alter f pos bs) = endpoint_position h p bs.
Proof.
  intros Hf. unfold endpoint_position.
  assert (Hs : ∀ b, same_endpoint h p (f b) = same_endpoint h p b).
  { intros b. unfold same_endpoint. by destruct (Hf b) as [-> ->]. }
  revert pos. induction bs as [|b bs IH]; intros [|pos]; try done.
  - cbn [alter list_alter list_find].
    destruct (same_endpoint h p b) eqn:Hb.
    + by rewrite !decide_True by by rewrite ?Hs.
    + by rewrite !decide_False by by rewrite ?Hs, ?Hb.
  - cbn [alter list_alter list_find].
    destruct (decide (same_endpoint h p b = true)); [done|].
    specialize (IH pos). unfold alter in *.
    destruct (list_find _ (list_alter f pos bs)) as [[i x]|],
             (list_find _ bs) as [[i' x']|]; simpl in *; congruence.
Qed.

Lemma endpoint_position_snoc (h : string) (p : Z) (part : string) (bs : list Backend) :
  endpoint_position h p bs = None →
  endpoint_position h p (bs ++ [Backend_init h p part]) = Some (length bs).
Proof.
  intros Hn. apply endpoint_position_Some. exists (Backend_init h p part).
  split_and!.
  - by rewrite list_lookup_middle.
  - done.
  - intros j b' Hj Hlt He. rewrite lookup_app_l in Hj by done.
    apply endpoint_position_None in Hn. apply Hn.
    apply list_elem_of_fmap. exists b'. split; [done|].
    by eapply list_elem_of_lookup_2.
Qed.

Lemma reregistered_twice (part : string) (b : Backend) :
  reregistered part (reregistered part b) = reregistered part b.
Proof. unfold reregistered. by destruct (negb _). Qed.

Lemma reregistered_init (h : string) (p : Z) (part : string) :
  reregistered part (Backend_init h p part) = Backend_init h p part.
Proof. unfold reregistered. by destruct (negb _). Qed.

(** ** Laws of the objects of a run *)

Section object_laws.
Context `{FloatParser}.
Variable Q : nat → list backend_event → Backend → Prop.
Hypothesis HQ : object_law Q.

Lemma objects_satisfy_alter (st : pool_run) (pool' : BackendPool)
    (held' : list nat) (log' : list (nat * backend_event)) (acq rel : Z)
    (pos obj : nat) (f : Backend → Backend) :
  NoDup (members st) → members st !! pos = Some obj →
  objects_satisfy Q st →
  backends pool' = alter f pos (backends (run_pool st)) →
  (∀ b, Q (held_count obj (outstanding st)) (events_of obj (history st)) b →
        Q (held_count obj held') (events_of obj log') (f b)) →
  (∀ x, x ≠ obj →
        held_count x held' = held_count x (outstanding st)
        ∧ events_of x log' = events_of x (history st)) →
  objects_satisfy Q (mkPoolRun pool' (members st) (next_object st) held' acq rel log').
Proof.
  intros Hnd Hpos Hok Hbs Hf Hoth q x b' Hq Hb'. simpl in *. rewrite Hbs in Hb'.
  apply lookup_alter_Some in Hb' as [(-> & b & Hb & ->)|[Hne Hb']].
  - assert (x = obj) as -> by congruence. apply Hf. by eapply Hok.
  - assert (x ≠ obj) as Hx.
    { intros ->. apply Hne. by eapply NoDup_lookup. }
    destruct (Hoth x Hx) as [-> ->]. by eapply Hok.
Qed.

Lemma objects_satisfy_others (st : pool_run) (held' : list nat)
    (log' : list (nat * backend_event)) (acq rel : Z) :
  objects_satisfy Q st →
  (∀ x, x ∈ members st →
        held_count x held' = held_count x (outstanding st)
        ∧ events_of x log' = events_of x (history st)) →
  objects_satisfy Q
    (mkPoolRun (run_pool st) (members st) (next_object st) held' acq rel log').
Proof.
  intros Hok Hsame q x b Hq Hb. simpl in *.
  destruct (Hsame x (list_elem_of_lookup_2 _ _ _ Hq)) as [-> ->]. by eapply Hok.
Qed.

(** Every event keeps a law. *)
Lemma objects_satisfy_event (st st' : pool_run) (ev : pool_event) :
  run_inv st → objects_satisfy Q st → run_event st ev = Some st' →
  objects_satisfy Q st'.
Proof.
  intros [Hlen Hnd Hms Hout Hlog Hbal _] Hok Hev.
  destruct HQ as [Lacq Lfin Lprobe Lref Lrereg Lnew].
  destruct ev as [strategy | obj up | obj resp checked_at now metrics
                 | obj now metrics | h p part | h p]; simpl in Hev.
  - (* acquire *)
    destruct (get_backend (run_pool st) strategy) as [pos pool'| |] eqn:Hget;
      [|by injection Hev as <-..].
    destruct (members st !! pos) as [obj|] eqn:Hobj; [|done].
    injection Hev as <-.
    destruct (get_backend_Acquired _ _ _ _ Hget) as (b & Hb & Hh & Hbs & _).
    eapply objects_satisfy_alter; [done | exact Hobj | exact Hok | exact Hbs | |].
    + intros b0 Hb0. rewrite held_count_cons, decide_True by done. by apply Lacq.
    + intros x Hx. by rewrite held_count_cons, decide_False.
  - (* finish *)
    destruct (take_out obj (outstanding st)) as [held|] eqn:Hto; [|done].
    injection Hev as <-.
    destruct (take_out_Some _ _ _ Hto) as (Hin & Hlen' & Hcnt & Hoth & Hsub).
    assert (Hothers : ∀ x, x ≠ obj →
              held_count x held = held_count x (outstanding st)
              ∧ events_of x ((obj, Requested up) :: history st)
                = events_of x (history st)).
    { intros x Hx. rewrite events_of_cons, decide_False by done.
      by rewrite (Hoth x Hx). }
    unfold update_object.
    destruct (list_find (λ x, x = obj) (members st)) as [[pos x]|] eqn:Hfind.
    + apply find_object_Some in Hfind.
      eapply objects_satisfy_alter;
        [done | exact Hfind | exact Hok | done | | exact Hothers].
      intros b0 Hb0. rewrite events_of_cons, decide_True by done.
      rewrite Hcnt in Hb0. by apply Lfin.
    + apply find_object_None in Hfind.
      apply objects_satisfy_others; [done|].
      intros x Hx. apply Hothers. by intros ->.
  - (* health check *)
    destruct (decide (obj < next_object st)%nat) as [Hlt|]; [|done].
    injection Hev as <-.
    assert (Hothers : ∀ x, x ≠ obj →
              held_count x (outstanding st) = held_count x (outstanding st)
              ∧ events_of x ((obj, Probed resp) :: history st)
                = events_of x (history st)).
    { intros x Hx. by rewrite events_of_cons, decide_False. }
    unfold update_object.
    destruct (list_find (λ x, x = obj) (members st)) as [[pos x]|] eqn:Hfind.
    + apply find_object_Some in Hfind.
      eapply objects_satisfy_alter;
        [done | exact Hfind | exact Hok | done | | exact Hothers].
      intros b0 Hb0. rewrite events_of_cons, decide_True by done. by apply Lprobe.
    + apply find_object_None in Hfind.
      apply objects_satisfy_others; [done|].
      intros x Hx. apply Hothers. by intros ->.
  - (* load refresh *)
    destruct (decide (obj < next_object st)%nat) as [Hlt|]; [|done].
    injection Hev as <-.
    unfold update_object.
    destruct (list_find (λ x, x = obj) (members st)) as [[pos x]|] eqn:Hfind.
    + apply find_object_Some in Hfind.
      eapply objects_satisfy_alter; [done | exact Hfind | exact Hok | done | | done].
      intros b0 Hb0. by apply Lref.
    + by apply objects_satisfy_others.
  - (* registration *)
    pose proof (add_backend_to_spec (backends (run_pool st)) h p part) as Hadd.
    destruct (endpoint_position h p (backends (run_pool st))) as [pos|];
      injection Hev as <-.
    + destruct Hadd as [[b Hb] Hadd].
      destruct (lookup_lt_is_Some_2 (members st) pos) as [obj Hobj].
      { rewrite Hlen. by eapply lookup_lt_Some. }
      rewrite Hobj.
      eapply objects_satisfy_alter; [done | exact Hobj | exact Hok | exact Hadd | |].
      * intros b0 Hb0. rewrite events_of_cons, decide_True by done. by apply Lrereg.
      * intros x Hx. by rewrite events_of_cons, decide_False.
    + intros q x b Hq Hb. simpl in *. rewrite Hadd in Hb.
      destruct (decide (q < length (members st))%nat) as [Hlt|Hge].
      * rewrite lookup_app_l in Hq by done.
        rewrite lookup_app_l in Hb by lia. by eapply Hok.
      * rewrite lookup_app_r in Hq by lia. rewrite lookup_app_r in Hb by lia.
        rewrite Hlen in Hq.
        destruct (q - length (backends (run_pool st)))%nat as [|k]; simpl in *; [|done].
        injection Hq as <-; injection Hb as <-.
        rewrite held_count_absent, events_of_absent.
        -- apply Lnew.
        -- intros e Hin. apply Hlog in Hin. lia.
        -- intros Hin. apply Hout in Hin. lia.
  - (* removal *)
    injection Hev as <-.
    pose proof (remove_backend_from_spec (backends (run_pool st)) h p) as Hrm.
    unfold remove_backend.
    destruct (remove_backend_from (backends (run_pool st)) h p) as [bs' removed].
    simpl in Hrm. subst bs'.
    destruct (endpoint_position h p (backends (run_pool st))) as [pos|]; [|done].
    intros q x b Hq Hb. simpl in *.
    destruct (decide (q < pos)%nat) as [Hlt|Hge].
    + rewrite list_lookup_delete_lt in Hq by done.
      rewrite list_lookup_delete_lt in Hb by done. by eapply Hok.
    + rewrite list_lookup_delete_ge in Hq by lia.
      rewrite list_lookup_delete_ge in Hb by lia. by eapply Hok.
Qed.

Lemma objects_satisfy_events (evs : list pool_event) (st st' : pool_run) :
  run_inv st → objects_satisfy Q st → run_events st evs = Some st' →
  objects_satisfy Q st'.
Proof.
  revert st. induction evs as [|ev evs IH]; intros st Hinv Hok Hrun; simpl in Hrun.
  - by injection Hrun as <-.
  - destruct (run_event st ev) as [st1|] eqn:Hev; [|done]. simpl in Hrun.
    eapply IH; [| |exact Hrun].
    + by eapply run_inv_event.
    + by eapply objects_satisfy_event.
Qed.

End object_laws.

(** *** The statistics *)

Lemma count_outcomes_cons (f : upstream → bool) (e : backend_event)
    (es : list backend_event) :
  count_outcomes f (e :: es)
  = match e with
    | Requested up => (if f up then 1 else 0) + count_outcomes f es
    | _ => count_outcomes f es
    end.
Proof.
  unfold count_outcomes. destruct e as [up| |]; try done. simpl.
  destruct (f up) eqn:Hf.
  - rewrite filter_cons_True by done. simpl length. lia.
  - rewrite filter_cons_False by (by rewrite Hf). lia.
Qed.

Lemma accounted_law : object_law accounted.
Proof.
  split; unfold accounted.
  - by intros n es b [? ?].
  - intros n es b up [Hr He]. rewrite !count_outcomes_cons.
    destruct up as [status ? ? ?|lat|lat|]; simpl.
    + destruct (status <? 500); simpl; lia.
    + unfold on_timeout. simpl. destruct (_ >=? 3); simpl; lia.
    + lia.
    + done.
  - intros H n es b resp checked_at now metrics [Hr He].
    rewrite !count_outcomes_cons. unfold _check_single_backend.
    destruct resp as [|status]; [done|].
    cbn [healthy with_last_check with_healthy].
    destruct (status <? 500); [|done].
    unfold _refresh_backend_load. destruct (PrimFloat.ltb _ _); [done|].
    destruct metrics as [|st text]; [done|]. destruct (st =? 200); [|done].
    by destruct (parse_vllm_metrics text).
  - intros H n es b now metrics [Hr He].
    unfold _refresh_backend_load. destruct (PrimFloat.ltb _ _); [done|].
    destruct metrics as [|st text]; [done|]. destruct (st =? 200); [|done].
    by destruct (parse_vllm_metrics text).
  - intros n es b part [Hr He]. rewrite !count_outcomes_cons.
    unfold reregistered. by destruct (negb _).
  - done.
Qed.

Lemma count_outcomes_le (es : list backend_event) :
  0 ≤ count_outcomes recorded_as_error es ≤ count_outcomes recorded es.
Proof.
  induction es as [|e es IH]; [done|]. rewrite !count_outcomes_cons.
  destruct e as [up| |]; try done.
  destruct up as [status ? ? ?|lat|lat|]; simpl; try lia.
  destruct (status <? 500); simpl; lia.
Qed.

(** ** The tracker's store *)

Section store_facts.
Context {T : Type} `{Timestamp T}.
Implicit Types (self : RequestTracker T) (req : TrackedRequest T) (now : T).

(** The cleanup only removes. *)
Lemma cleanup_sub self now rid req :
  PyDict.wf (requests self) →
  PyDict.getitem (requests (_cleanup_old_requests self now)) rid = Some req →
  PyDict.getitem (requests self) rid = Some req.
Proof.
  intros Hwf. rewrite cleanup_requests by done.
  pose proof (wf_after_expiry self now Hwf) as Hwf1.
  destruct (_ >? _); intros Hg.
  - apply PyDictFacts.getitem_filter in Hg as [Hg _]; [|done].
    by apply getitem_after_expiry in Hg as [Hg _].
  - by apply getitem_after_expiry in Hg as [Hg _].
Qed.

Lemma cleanup_wf self now :
  PyDict.wf (requests self) → PyDict.wf (requests (_cleanup_old_requests self now)).
Proof.
  intros Hwf. rewrite cleanup_requests by done.
  pose proof (wf_after_expiry self now Hwf) as Hwf1.
  destruct (_ >? _); [by apply PyDictFacts.wf_filter | done].
Qed.

Lemma cleanup_sublist self now :
  PyDict.wf (requests self) →
  requests (_cleanup_old_requests self now) `sublist_of` requests self.
Proof.
  intros Hwf. rewrite cleanup_requests by done.
  destruct (_ >? _).
  - etrans; [apply sublist_filter|]. apply sublist_filter.
  - apply sublist_filter.
Qed.

Lemma update_request_getitem self rid f rid' req' :
  PyDict.getitem (requests (update_request self rid f)) rid' = Some req' →
  (rid' = rid ∧ ∃ req, PyDict.getitem (requests self) rid = Some req ∧ req' = f req)
  ∨ (rid' ≠ rid ∧ PyDict.getitem (requests self) rid' = Some req').
Proof.
  unfold update_request.
  destruct (PyDict.getitem (requests self) rid) as [req|] eqn:Hg; simpl.
  - destruct (decide (rid' = rid)) as [->|Hne].
    + rewrite PyDictFacts.getitem_setitem_eq. intros [= <-]. left. eauto.
    + rewrite PyDictFacts.getitem_setitem_ne by done. intros Hg'. by right.
  - intros Hg'. destruct (decide (rid' = rid)) as [->|Hne]; [congruence | by right].
Qed.

Lemma update_request_wf self rid f :
  PyDict.wf (requests self) → PyDict.wf (requests (update_request self rid f)).
Proof.
  intros Hwf. unfold update_request.
  destruct (PyDict.getitem (requests self) rid); [|done].
  by apply PyDictFacts.wf_setitem.
Qed.

Lemma submit_getitem self now rid src mdl pth sid tid cid cmd rid' req' :
  PyDict.getitem (requests (submit self now rid src mdl pth sid tid cid cmd).2) rid'
  = Some req' →
  (rid' = rid ∧ req' = (submit self now rid src mdl pth sid tid cid cmd).1)
  ∨ (rid' ≠ rid ∧ PyDict.getitem (requests self) rid' = Some req').
Proof.
  rewrite (proj2 (submit_record self now rid src mdl pth sid tid cid cmd)).
  destruct (decide (rid' = rid)) as [->|Hne].
  - rewrite PyDictFacts.getitem_setitem_eq. intros [= <-]. by left.
  - rewrite PyDictFacts.getitem_setitem_ne by done. intros Hg. by right.
Qed.

Lemma submit_wf self now rid src mdl pth sid tid cid cmd :
  PyDict.wf (requests self) →
  PyDict.wf (requests (submit self now rid src mdl pth sid tid cid cmd).2).
Proof.
  intros Hwf. rewrite (proj2 (submit_record self now rid src mdl pth sid tid cid cmd)).
  by apply PyDictFacts.wf_setitem.
Qed.

Lemma run_op_wf self (op : tracker_op T) :
  PyDict.wf (requests self) → PyDict.wf (requests (run_op self op)).
Proof.
  intros Hwf. destruct op; simpl.
  - by apply submit_wf.
  - by apply update_request_wf.
  - by apply update_request_wf.
  - by apply cleanup_wf.
Qed.

(** A property of the tracker that every call keeps holds after every run. *)
Lemma run_ops_ind (P : RequestTracker T → Prop) self (ops : list (tracker_op T)) :
  P self → (∀ t op, P t → P (run_op t op)) → P (run_ops self ops).
Proof.
  intros H0 Hstep. unfold run_ops. revert self H0.
  induction ops as [|op ops IH]; intros self H0; simpl; [done|].
  apply IH. by apply Hstep.
Qed.

Lemma store_consistent_step self (op : tracker_op T) :
  PyDict.wf (requests self) →
  (∀ rid req, PyDict.getitem (requests self) rid = Some req →
              record_consistent rid req) →
  ∀ rid req, PyDict.getitem (requests (run_op self op)) rid = Some req →
             record_consistent rid req.
Proof.
  intros Hwf Hok rid req Hg.
  destruct op as [now r src mdl pth sid tid cid cmd|now r url|now r ok|now];
    simpl in Hg.
  - apply submit_getitem in Hg as [[-> ->]|[_ Hg]]; [|by apply Hok].
    rewrite (proj1 (submit_record self now r src mdl pth sid tid cid cmd)).
    by split.
  - apply update_request_getitem in Hg as [(-> & req0 & Hg0 & ->)|[_ Hg]];
      [|by apply Hok].
    destruct (Hok _ _ Hg0) as [Hid _]. split; [done|]. simpl. split; by eexists.
  - apply update_request_getitem in Hg as [(-> & req0 & Hg0 & ->)|[_ Hg]];
      [|by apply Hok].
    destruct (Hok _ _ Hg0) as [Hid _]. split; [done|]. simpl.
    destruct ok; by eexists.
  - apply Hok. by eapply cleanup_sub.
Qed.

End store_facts.

(** *** Turn numbers in the store *)

Section turn_facts.
Context {T : Type} `{Timestamp T}.
Implicit Types (self : RequestTracker T) (req : TrackedRequest T) (now : T).

Lemma turn_in_range_mono self self' req :
  (∀ s, turn_counter self s ≤ turn_counter self' s) →
  turn_in_range self req → turn_in_range self' req.
Proof.
  intros Hle. unfold turn_in_range. destruct (turn_number req) as [k|]; [|done].
  intros (s & Hs & Hne & Hk). exists s. split_and!; try done; try lia.
  specialize (Hle s). lia.
Qed.

Lemma turns_inv_update self rid (f : TrackedRequest T → TrackedRequest T) :
  (∀ req, session_id (f req) = session_id req ∧ turn_number (f req) = turn_number req) →
  turns_inv self → turns_inv (update_request self rid f).
Proof.
  intros Hf [Hwf Hnn Hrange Hdist].
  assert (Hc : ∀ s, turn_counter (update_request self rid f) s = turn_counter self s).
  { intros s. unfold turn_counter. by rewrite update_request_counters. }
  assert (Hget : ∀ rid' req',
            PyDict.getitem (requests (update_request self rid f)) rid' = Some req' →
            ∃ req0, PyDict.getitem (requests self) rid' = Some req0
                    ∧ session_id req' = session_id req0
                    ∧ turn_number req' = turn_number req0).
  { intros rid' req' Hg.
    apply update_request_getitem in Hg as [(-> & req0 & Hg0 & ->)|[_ Hg]].
    - exists req0. by destruct (Hf req0) as [-> ->].
    - by exists req'. }
  split.
  - by apply update_request_wf.
  - intros s. by rewrite Hc.
  - intros rid' req' Hg. destruct (Hget _ _ Hg) as (req0 & Hg0 & Hs & Ht).
    specialize (Hrange _ _ Hg0). unfold turn_in_range in *.
    rewrite Hs, Ht. destruct (turn_number req0); [|done].
    destruct Hrange as (s & ? & ? & ?). exists s. by rewrite Hc.
  - intros rid1 rid2 req1 req2 k Hg1 Hg2 Hs Ht1 Ht2.
    destruct (Hget _ _ Hg1) as (r1 & Hr1 & Hs1 & Hk1).
    destruct (Hget _ _ Hg2) as (r2 & Hr2 & Hs2 & Hk2).
    apply (Hdist rid1 rid2 r1 r2 k); congruence.
Qed.

Lemma turns_inv_submit self now rid src mdl pth sid tid cid cmd :
  turns_inv self → turns_inv (submit self now rid src mdl pth sid tid cid cmd).2.
Proof.
  intros [Hwf Hnn Hrange Hdist].
  set (res := submit self now rid src mdl pth sid tid cid cmd).
  assert (Hnew : res.1 = fresh_request now rid src mdl pth sid tid cid cmd
                           (turn_number res.1)) by apply submit_record.
  assert (Hsid : session_id res.1 = sid) by (by rewrite Hnew).
  assert (Hcases :
    (∃ s, sid = Some s ∧ s ≠ ""
          ∧ turn_number res.1 = Some (turn_counter self s + 1)
          ∧ turn_counter res.2 s = turn_counter self s + 1
          ∧ ∀ s', s' ≠ s → turn_counter res.2 s' = turn_counter self s')
    ∨ (truthy_str sid = false ∧ turn_number res.1 = None
       ∧ ∀ s', turn_counter res.2 s' = turn_counter self s')).
  { destruct (truthy_str sid) eqn:Ht.
    - left. destruct sid as [s|]; [|done]. apply truthy_str_Some in Ht.
      destruct (submit_turn_truthy self now rid src mdl pth s tid cid cmd Ht)
        as [Hk Hc].
      exists s. split_and!; try done.
      + unfold turn_counter at 1. subst res. rewrite Hc, lookup_insert_eq. done.
      + intros s' Hs'. apply submit_other_session. congruence.
    - right.
      destruct (submit_turn_falsy self now rid src mdl pth sid tid cid cmd Ht)
        as [Hk Hc].
      split_and!; try done. intros s'. unfold turn_counter. subst res. by rewrite Hc. }
  assert (Hmono : ∀ s, turn_counter self s ≤ turn_counter res.2 s).
  { intros s. destruct Hcases as [(s0 & _ & _ & _ & Hc & Hoth)|(_ & _ & Hc)].
    - destruct (decide (s = s0)) as [->|Hne]; [lia | by rewrite Hoth].
    - by rewrite Hc. }
  split.
  - by apply submit_wf.
  - intros s. specialize (Hnn s). specialize (Hmono s). lia.
  - intros rid' req' Hg.
    apply submit_getitem in Hg as [[-> ->]|[_ Hg]];
      [|by eapply turn_in_range_mono; [exact Hmono | eapply Hrange]].
    fold res. unfold turn_in_range.
    destruct Hcases as [(s & -> & Hne & -> & Hc & _)|(Hf & -> & _)].
    + exists s. rewrite Hsid. split_and!; try done; [|lia]. specialize (Hnn s). lia.
    + by rewrite Hsid.
  - intros rid1 rid2 req1 req2 k Hg1 Hg2 Hs Ht1 Ht2.
    apply submit_getitem in Hg1 as [[-> ->]|[Hn1 Hg1]];
      apply submit_getitem in Hg2 as [[-> ->]|[Hn2 Hg2]];
      repeat match goal with
             | H : context [submit self now rid src mdl pth sid tid cid cmd] |- _ =>
                 progress fold res in H
             end; fold res.
    + done.
    + exfalso. destruct Hcases as [(s & -> & Hne & Hk & _)|(_ & Hk & _)];
        [|congruence].
      pose proof (Hrange _ _ Hg2) as Hr. unfold turn_in_range in Hr.
      rewrite Ht2 in Hr. destruct Hr as (s2 & Hs2 & _ & Hk2).
      assert (s2 = s) as -> by congruence.
      assert (k = turn_counter self s + 1) by congruence. lia.
    + exfalso. destruct Hcases as [(s & -> & Hne & Hk & _)|(_ & Hk & _)];
        [|congruence].
      pose proof (Hrange _ _ Hg1) as Hr. unfold turn_in_range in Hr.
      rewrite Ht1 in Hr. destruct Hr as (s1 & Hs1 & _ & Hk1).
      assert (s1 = s) as -> by congruence.
      assert (k = turn_counter self s + 1) by congruence. lia.
    + by eapply Hdist.
Qed.

Lemma turns_inv_cleanup self now :
  turns_inv self → turns_inv (_cleanup_old_requests self now).
Proof.
  intros [Hwf Hnn Hrange Hdist].
  assert (Hc : ∀ s, turn_counter (_cleanup_old_requests self now) s = turn_counter self s).
  { intros s. unfold turn_counter. by rewrite cleanup_counters. }
  split.
  - by apply cleanup_wf.
  - intros s. by rewrite Hc.
  - intros rid req Hg. apply cleanup_sub in Hg; [|done].
    eapply turn_in_range_mono; [|by eapply Hrange]. intros s. by rewrite Hc.
  - intros rid1 rid2 req1 req2 k Hg1 Hg2.
    apply cleanup_sub in Hg1; [|done]. apply cleanup_sub in Hg2; [|done].
    by eapply Hdist.
Qed.

Lemma turns_inv_run (mh : Z) (ci st : T) (ops : list (tracker_op T)) :
  turns_inv (run_ops (RequestTracker_init mh ci st) ops).
Proof.
  apply run_ops_ind.
  - split; simpl.
    + apply NoDup_nil_2.
    + intros s. unfold turn_counter. simpl. by rewrite lookup_empty.
    + done.
    + done.
  - intros t op Hinv. destruct op; simpl.
    + by apply turns_inv_submit.
    + by apply turns_inv_update.
    + by apply turns_inv_update.
    + by apply turns_inv_cleanup.
Qed.

(** The requests of a session are no more than the turns it was given. *)
Lemma session_requests_bound self (s : string) :
  turns_inv self → s ≠ "" →
  Z.of_nat (length (session_requests s self)) ≤ turn_counter self s.
Proof.
  intros [Hwf Hnn Hrange Hdist] Hs.
  set (l := session_requests s self).
  set (f := λ x : string * TrackedRequest T, default 0 (turn_number x.2)).
  assert (Hin : ∀ x, x ∈ l →
            PyDict.getitem (requests self) x.1 = Some x.2
            ∧ session_id x.2 = Some s
            ∧ ∃ k, turn_number x.2 = Some k ∧ 1 ≤ k ≤ turn_counter self s).
  { intros [rid req] Hx. apply list_elem_of_filter in Hx as [Hsx Hx]. simpl in *.
    assert (Hg : PyDict.getitem (requests self) rid = Some req)
      by by apply PyDictFacts.elem_getitem.
    split_and!; [done..|].
    pose proof (Hrange _ _ Hg) as Hr. unfold turn_in_range in Hr.
    destruct (turn_number req) as [k|].
    - destruct Hr as (s' & Hs' & _ & Hk). exists k. split; [done|].
      assert (s' = s) as -> by congruence. done.
    - rewrite Hsx in Hr. apply truthy_str_Some in Hs. congruence. }
  assert (Hnd : NoDup (f <$> l)).
  { apply NoDup_fmap_2_strong.
    - intros [r1 q1] [r2 q2] H1 H2 Hf.
      destruct (Hin _ H1) as (Hg1 & Hs1 & k1 & Hk1 & _).
      destruct (Hin _ H2) as (Hg2 & Hs2 & k2 & Hk2 & _).
      simpl in *. subst f. simpl in Hf. rewrite Hk1, Hk2 in Hf. simpl in Hf. subst k2.
      assert (r1 = r2) as -> by (eapply (Hdist r1 r2 q1 q2 k1); congruence).
      congruence.
    - apply (NoDup_fmap_1 fst). eapply sublist_NoDup; [exact Hwf|].
      apply fmap_sublist, sublist_filter. }
  assert (Hsub : f <$> l ⊆ seqZ 1 (turn_counter self s)).
  { intros k Hk. apply list_elem_of_fmap in Hk as (x & -> & Hx).
    destruct (Hin _ Hx) as (_ & _ & k & Hk & Hr). subst f. simpl. rewrite Hk. simpl.
    apply elem_of_seqZ. lia. }
  pose proof (submseteq_length _ _ (NoDup_submseteq _ _ Hnd Hsub)) as Hlen.
  rewrite length_fmap, length_seqZ in Hlen. specialize (Hnn s). lia.
Qed.

End turn_facts.

(** *** Running the cleanup twice *)

Section cleanup_twice.
Context {T : Type} `{Timestamp T}.
Implicit Types (self : RequestTracker T) (now : T).

Lemma cleanup_with_requests self now :
  _cleanup_old_requests self now
  = with_requests self (requests (_cleanup_old_requests self now)).
Proof. unfold _cleanup_old_requests. cbv zeta. by destruct (_ >? _). Qed.

Lemma after_expiry_with_requests self now rs :
  (∀ x, x ∈ rs → expired_at self now x.2 = false) →
  after_expiry (with_requests self rs) now = rs.
Proof.
  intros Hrs. unfold after_expiry. simpl.
  apply filter_Forall_id. apply Forall_forall. intros x Hx.
  unfold expired_at. simpl. by apply Hrs.
Qed.

Lemma cleanup_twice self now :
  PyDict.wf (requests self) →
  _cleanup_old_requests (_cleanup_old_requests self now) now
  = _cleanup_old_requests self now.
Proof.
  intros Hwf.
  rewrite (cleanup_with_requests (_cleanup_old_requests self now) now).
  rewrite (cleanup_with_requests self now) at 1 3.
  unfold with_requests at 1 3. simpl. f_equal.
  set (rs := requests (_cleanup_old_requests self now)).
  assert (Hwf' : PyDict.wf rs) by by apply cleanup_wf.
  assert (Hin : ∀ x, x ∈ rs → x ∈ after_expiry self now).
  { intros x. subst rs. rewrite cleanup_requests by done.
    destruct (_ >? _); [|done]. by intros [_ ?]%list_elem_of_filter. }
  assert (Hae : after_expiry (with_requests self rs) now = rs).
  { apply after_expiry_with_requests. intros x Hx.
    by apply Hin, list_elem_of_filter in Hx as [? _]. }
  rewrite (cleanup_with_requests self now). fold rs.
  rewrite cleanup_requests by done.
  rewrite Hae. change (max_history (with_requests self rs)) with (max_history self).
  destruct (Z.of_nat (length rs) >? max_history self) eqn:Hbig; [|done].
  assert (Hnone : finished_after_expiry (with_requests self rs) now = []).
  { unfold finished_after_expiry. rewrite Hae.
    (* the first run had more than [max_history] left and took every
       finished record *)
    subst rs. revert Hbig Hwf'. rewrite cleanup_requests by done.
    destruct (Z.of_nat (length (after_expiry self now)) >? max_history self) eqn:Hb1.
    - intros Hbig Hwf'.
      pose proof (length_filter_out_keys (map fst (size_victims self now))
                    (after_expiry self now) (wf_after_expiry self now Hwf)
                    (size_victims_keys_NoDup self now Hwf)) as Hlen.
      assert (Hlen' := Hlen). clear Hlen.
      assert (Hkeys : ∀ k, k ∈ map fst (size_victims self now) →
                           k ∈ PyDict.keys (after_expiry self now)).
      { intros k Hk. apply list_elem_of_fmap in Hk as (x & -> & Hx).
        apply size_victims_finished in Hx.
        apply list_elem_of_filter in Hx as [_ Hx].
        apply list_elem_of_fmap. by exists x. }
      specialize (Hlen' Hkeys). rewrite length_map in Hlen'.
      assert (Hall : size_victims self now
                     = py_sort older (finished_after_expiry self now)).
      { unfold size_victims in *. apply take_ge.
        rewrite length_take in Hlen'. lia. }
      match goal with |- ?l = [] => destruct l as [|x l'] eqn:Hl; [done|] end.
      exfalso.
      assert (Hx : x ∈ x :: l') by (apply elem_of_cons; by left).
      rewrite <- Hl in Hx. apply list_elem_of_filter in Hx as [Hdone Hx].
      apply list_elem_of_filter in Hx as [Hnot Hx].
      apply Hnot. apply list_elem_of_fmap. exists x. split; [done|].
      rewrite Hall, py_sort_perm. by apply list_elem_of_filter.
    - intros Hbig. lia. }
  unfold size_victims. rewrite Hnone. simpl. rewrite take_nil. simpl.
  apply filter_Forall_id. apply Forall_forall. intros x _. apply not_elem_of_nil.
Qed.

End cleanup_twice.

(** *** The session counters of [get_status] *)

Section status_facts.
Context {T : Type} `{Timestamp T}.
Implicit Types (self : RequestTracker T) (req : TrackedRequest T)
  (l : list (TrackedRequest T)) (sess : SessionInfo T).

Lemma count_in_snoc l r sid P :
  count_in (l ++ [r]) sid P
  = count_in l sid P
    + (if decide (session_id r = Some sid ∧ P r = true) then 1 else 0).
Proof.
  unfold count_in. rewrite filter_app, length_app.
  destruct (decide _) as [Hd|Hd].
  - rewrite filter_cons_True by done. simpl. lia.
  - rewrite filter_cons_False by done. simpl. lia.
Qed.

Lemma turns_in_snoc l r sid :
  turns_in (l ++ [r]) sid
  = turns_in l sid
    ++ (if decide (session_id r = Some sid ∧ measured_turn r = true) then [r] else []).
Proof.
  unfold turns_in. by rewrite filter_app.
Qed.

Lemma count_in_nonneg l sid P : 0 ≤ count_in l sid P.
Proof. unfold count_in. lia. Qed.

Lemma count_by_status l sid :
  count_in l sid (λ _, true)
  = count_in l sid (has_status completed) + count_in l sid (has_status pending)
    + count_in l sid (has_status in_flight) + count_in l sid (has_status failed).
Proof.
  induction l as [|r l IH] using rev_ind; [done|].
  rewrite !count_in_snoc, IH. unfold has_status.
  destruct (decide (session_id r = Some sid)) as [Hs|Hs].
  - destruct (status r) eqn:Hst;
      repeat (destruct (decide _) as [[_ ?]|?];
              try (exfalso; by (discriminate || naive_solver))); lia.
  - repeat (destruct (decide _) as [[? _]|?]; [done|]). lia.
Qed.

Lemma counts_session_other self l r sid sess :
  session_id r ≠ Some sid →
  counts_session self l sid sess → counts_session self (l ++ [r]) sid sess.
Proof.
  intros Hne [? ? ? ? ? ? ? ? ?].
  split; try done; rewrite ?count_in_snoc, ?turns_in_snoc;
    (destruct (decide _) as [[? _]|_]; [done|]); rewrite ?app_nil_r; lia || done.
Qed.

Lemma counts_session_new self l r sid :
  sid ≠ "" → (∀ r', r' ∈ l → session_id r' ≠ Some sid) →
  counts_session self l sid (new_session self sid r).
Proof.
  intros Hne Hnone.
  assert (Hnil : ∀ P, filter (λ r, session_id r = Some sid ∧ P r = true) l = []).
  { intros P. induction l as [|x l IH]; [done|].
    rewrite filter_cons_False.
    - apply IH. intros r' Hr'. apply Hnone. apply elem_of_cons. by right.
    - intros [Hs _]. apply (Hnone x); [apply elem_of_cons; by left | done]. }
  split; try done; simpl; unfold count_in, turns_in; by rewrite Hnil.
Qed.

Lemma counts_session_count self l r sid sess :
  session_id r = Some sid →
  counts_session self l sid sess →
  counts_session self (l ++ [r]) sid (count_request sess r).
Proof.
  intros Hs [? ? ? ? ? ? ? ? ?].
  unfold count_request.
  split; try done; rewrite ?count_in_snoc, ?turns_in_snoc;
    unfold measured_turn, has_status in *;
    destruct (status r) eqn:Hst; simpl; try done;
    repeat match goal with
      | |- context [decide ?P] =>
          destruct (decide P) as [[_ ?]|?];
          try (exfalso; by (discriminate || naive_solver))
      end;
    rewrite ?app_nil_r; try (lia || congruence).
  all: destruct (truthy_time (completed_at r) && truthy_time (started_at r)) eqn:Ht;
    try congruence; exfalso; naive_solver.
Qed.

Lemma sessions_inv_step self l m r :
  sessions_inv self l m → sessions_inv self (l ++ [r]) (session_step self m r).
Proof.
  intros [Hwf Hcounts Hall]. unfold session_step.
  destruct (truthy_str (session_id r)) eqn:Htr.
  - destruct (session_id r) as [s|] eqn:Hs; [|done]. simpl.
    apply truthy_str_Some in Htr.
    set (m1 := if PyDict.contains m s then m
               else PyDict.setitem m s (new_session self s r)).
    assert (Hwf1 : PyDict.wf m1).
    { subst m1. destruct (PyDict.contains m s); [done|].
      by apply PyDictFacts.wf_setitem. }
    assert (Hm1 : ∃ sess0, PyDict.getitem m1 s = Some sess0
                           ∧ counts_session self l s sess0
                           ∧ 0 ≤ si_total_requests sess0
                           ∧ ∀ sid, sid ≠ s →
                                    PyDict.getitem m1 sid = PyDict.getitem m sid).
    { subst m1. unfold PyDict.contains.
      destruct (PyDict.getitem m s) as [sess0|] eqn:Hg.
      - exists sess0. destruct (Hcounts _ _ Hg). split_and!; try done. lia.
      - exists (new_session self s r). split_and!.
        + apply PyDictFacts.getitem_setitem_eq.
        + apply counts_session_new; [done|]. intros r' Hr' Hs'.
          apply Htr. by eapply Hall.
        + simpl. lia.
        + intros sid Hne. by apply PyDictFacts.getitem_setitem_ne. }
    destruct Hm1 as (sess0 & Hg0 & Hc0 & Hpos & Hoth). rewrite Hg0.
    split.
    + by apply PyDictFacts.wf_setitem.
    + intros sid sess. destruct (decide (sid = s)) as [->|Hne].
      * rewrite PyDictFacts.getitem_setitem_eq. intros [= <-]. split.
        -- by apply counts_session_count.
        -- unfold count_request. destruct (status r); simpl; lia.
      * rewrite PyDictFacts.getitem_setitem_ne by done. rewrite Hoth by done.
        intros Hg. destruct (Hcounts _ _ Hg) as [Hc Hp]. split; [|done].
        apply counts_session_other; [congruence | done].
    + intros sid r'. destruct (decide (sid = s)) as [->|Hne].
      * by rewrite PyDictFacts.getitem_setitem_eq.
      * rewrite PyDictFacts.getitem_setitem_ne by done. rewrite Hoth by done.
        intros Hg Hr' Hs'. apply elem_of_app in Hr' as [Hr'|Hr'].
        -- by eapply Hall.
        -- apply list_elem_of_singleton in Hr'. congruence.
  - assert (Hno : ∀ sid, sid ≠ "" → session_id r ≠ Some sid).
    { intros sid Hne Hs. rewrite Hs in Htr.
      apply truthy_str_Some in Hne. congruence. }
    split.
    + done.
    + intros sid sess Hg. destruct (Hcounts _ _ Hg) as [Hc Hp]. split; [|done].
      apply counts_session_other; [|done]. apply Hno, Hc.
    + intros sid r' Hg Hr' Hs'. apply elem_of_app in Hr' as [Hr'|Hr'].
      * by eapply Hall.
      * apply list_elem_of_singleton in Hr'. subst r'.
        destruct (decide (sid = "")) as [|Hne]; [done|]. by destruct (Hno sid Hne).
Qed.

Lemma sessions_inv_fold self l :
  sessions_inv self l (foldl (session_step self) [] l).
Proof.
  induction l as [|r l IH] using rev_ind.
  - split; [apply NoDup_nil_2 | done | by intros ? ? _ ?%elem_of_nil].
  - rewrite foldl_snoc. by apply sessions_inv_step.
Qed.

Lemma count_in_store self sid P :
  count_in (PyDict.values (requests self)) sid P = session_count self sid P.
Proof. done. Qed.

(** What the report says of each session, before the turns are sorted. *)
Lemma session_map_elem self sid sess :
  (sid, sess) ∈ foldl (session_step self) [] (PyDict.values (requests self)) →
  counts_session self (PyDict.values (requests self)) sid sess
  ∧ 0 < si_total_requests sess.
Proof.
  intros Hin.
  destruct (sessions_inv_fold self (PyDict.values (requests self)))
    as [Hwf Hcounts _].
  apply Hcounts. by apply PyDictFacts.elem_getitem.
Qed.

Lemma session_map_values self sess :
  sess ∈ PyDict.values (session_map_of self) →
  ∃ sess0,
    sess = sort_turns sess0
    ∧ counts_session self (PyDict.values (requests self)) (si_session_id sess) sess0
    ∧ 0 < si_total_requests sess0.
Proof.
  unfold PyDict.values, session_map_of.
  change (@map (string * SessionInfo T) (SessionInfo T) snd)
    with (fmap (M:=list) (@snd string (SessionInfo T))).
  intros Hin. apply list_elem_of_fmap in Hin as ([sid s1] & -> & Hin).
  apply list_elem_of_fmap in Hin as ([sid0 s0] & [= -> ->] & Hin).
  simpl. exists s0. destruct (session_map_elem self sid0 s0 Hin) as [Hc Hp].
  split_and!; [done| |done]. by rewrite (cs_id _ _ _ _ Hc).
Qed.

Lemma session_map_ids self :
  si_session_id <$> PyDict.values (session_map_of self)
  = PyDict.keys (foldl (session_step self) [] (PyDict.values (requests self))).
Proof.
  unfold PyDict.values, PyDict.keys, session_map_of.
  change (@map (string * SessionInfo T) (SessionInfo T) snd)
    with (fmap (M:=list) (@snd string (SessionInfo T))).
  change (@map (string * SessionInfo T) string fst)
    with (fmap (M:=list) (@fst string (SessionInfo T))).
  rewrite <- !list_fmap_compose.
  apply list_fmap_ext. intros i [sid s0] Hin%list_elem_of_lookup_2. simpl.
  destruct (session_map_elem self sid s0 Hin) as [Hc _]. apply Hc.
Qed.

Lemma session_count_requests self (sid : string) :
  session_count self sid (λ _, true)
  = Z.of_nat (length (session_requests sid self)).
Proof.
  unfold session_count, session_requests, PyDict.values. f_equal.
  induction (requests self) as [|[k r] d IH]; [done|]. simpl map.
  destruct (decide (session_id r = Some sid)) as [Hs|Hs].
  - rewrite !filter_cons_True by done. simpl. by rewrite IH.
  - rewrite !filter_cons_False by (simpl; tauto). done.
Qed.

End status_facts.

Lemma session_map_covers {T : Type} `{Timestamp T} (self : RequestTracker T)
    (r : TrackedRequest T) :
  r ∈ PyDict.values (requests self) → truthy_str (session_id r) = true →
  ∃ sess, sess ∈ PyDict.values (session_map_of self)
          ∧ session_id r = Some (si_session_id sess).
Proof.
  intros Hr Htr. destruct (session_id r) as [sid|] eqn:Hs; [|done].
  apply truthy_str_Some in Htr.
  destruct (sessions_inv_fold self (PyDict.values (requests self)))
    as [Hwf Hcounts Hall].
  destruct (PyDict.getitem (foldl (session_step self) [] (PyDict.values (requests self)))
              sid) as [sess0|] eqn:Hg.
  - exists (sort_turns sess0). split.
    + unfold PyDict.values, session_map_of.
      change (@map (string * SessionInfo T) (SessionInfo T) snd)
        with (fmap (M:=list) (@snd string (SessionInfo T))).
      apply list_elem_of_fmap. exists (sid, sort_turns sess0). split; [done|].
      apply list_elem_of_fmap. exists (sid, sess0). split; [done|].
      by apply PyDictFacts.getitem_Some_elem.
    + simpl. destruct (Hcounts _ _ Hg) as [Hc _]. by rewrite (cs_id _ _ _ _ Hc).
  - destruct Htr. by eapply Hall.
Qed.

(** *** The queues of [get_status] *)

Lemma status_partition {T : Type} (l : list (TrackedRequest T)) :
  (length (filter (λ r, status r = pending) l)
   + length (filter (λ r, status r = in_flight) l)
   + length (filter (λ r, is_done (status r) = true) l) = length l)%nat.
Proof.
  induction l as [|r l IH]; [done|].
  destruct (status r) eqn:Hst.
  - rewrite (filter_cons_True (λ r, status r = pending)) by done.
    rewrite !filter_cons_False by (rewrite Hst; done). simpl. lia.
  - rewrite (filter_cons_True (λ r, status r = in_flight)) by done.
    rewrite !filter_cons_False by (rewrite Hst; done). simpl. lia.
  - rewrite (filter_cons_True (λ r, is_done (status r) = true)) by (by rewrite Hst).
    rewrite !filter_cons_False by (rewrite Hst; done). simpl. lia.
  - rewrite (filter_cons_True (λ r, is_done (status r) = true)) by (by rewrite Hst).
    rewrite !filter_cons_False by (rewrite Hst; done). simpl. lia.
Qed.

Lemma filter_length_le {A : Type} (P Q : A → Prop)
    `{∀ x, Decision (P x)} `{∀ x, Decision (Q x)} (l : list A) :
  (∀ x, P x → Q x) → (length (filter P l) ≤ length (filter Q l))%nat.
Proof.
  intros HPQ. induction l as [|x l IH]; [done|].
  destruct (decide (P x)) as [HP|HP].
  - rewrite (filter_cons_True P) by done.
    rewrite (filter_cons_True Q) by auto. simpl. lia.
  - rewrite (filter_cons_False P) by done.
    destruct (decide (Q x)).
    + rewrite (filter_cons_True Q) by done. simpl. lia.
    + by rewrite (filter_cons_False Q).
Qed.

(** A queue of the report: the first 50 of the sorted selection. *)
Lemma queue_of_status {A : Type} (lt : A → A → bool) (P : A → Prop)
    `{∀ x, Decision (P x)} (l : list A) :
  length (take 50 (py_sort lt (filter P l)))
  = (50 `min` length (filter P l))%nat
  ∧ ∀ x, x ∈ take 50 (py_sort lt (filter P l)) → x ∈ l ∧ P x.
Proof.
  split.
  - by rewrite length_take, (Permutation_length (py_sort_perm lt _)).
  - intros x Hx. apply subseteq_take in Hx. rewrite py_sort_perm in Hx.
    apply list_elem_of_filter in Hx. tauto.
Qed.

(** *** Tunnels *)

Lemma tunnel_keys_filter (self : SSHTunnelManager) (h : string) (p : Z) :
  (λ e : string * string * Z, (e.1.2, e.2))
    <$> filter (λ e : string * string * Z, (e.1.2, e.2) ≠ (h, p)) (endpoints self)
  = filter (λ k, k ≠ (h, p)) (tunnel_keys self).
Proof.
  unfold tunnel_keys. induction (endpoints self) as [|e l IH]; [done|].
  rewrite fmap_cons. destruct (decide ((e.1.2, e.2) = (h, p))) as [He|He].
  - rewrite !filter_cons_False by (intros Hn; by apply Hn). done.
  - rewrite !filter_cons_True by done. rewrite fmap_cons. by rewrite IH.
Qed.

Lemma tunnels_in_step_op (self : SSHTunnelManager) (op : tunnel_op) :
  tunnels_in_step self → tunnels_in_step (run_tunnel_op self op).
Proof.
  intros Hstep. destruct op as [model h p spawned|h p]; simpl.
  - unfold add_tunnel. destruct (bool_decide _) eqn:Hin; [done|].
    destruct spawned; [|done].
    intros k. unfold tunnel_keys. simpl. rewrite fmap_app, elem_of_app. simpl.
    rewrite elem_of_union, elem_of_singleton, list_elem_of_singleton.
    specialize (Hstep k). unfold tunnel_keys in Hstep. tauto.
  - unfold remove_tunnel. destruct (bool_decide _) eqn:Hin; [|done].
    intros k. unfold tunnel_keys. simpl. rewrite tunnel_keys_filter.
    rewrite elem_of_difference, elem_of_singleton, list_elem_of_filter.
    specialize (Hstep k). tauto.
Qed.

Lemma tunnel_keys_NoDup_op (self : SSHTunnelManager) (op : tunnel_op) :
  tunnels_in_step self → NoDup (tunnel_keys self) →
  NoDup (tunnel_keys (run_tunnel_op self op)).
Proof.
  intros Hstep Hnd. destruct op as [model h p spawned|h p]; simpl.
  - unfold add_tunnel. destruct (bool_decide _) eqn:Hin; [done|].
    destruct spawned; [|done].
    apply bool_decide_eq_false in Hin.
    unfold tunnel_keys. simpl. rewrite fmap_app. simpl.
    apply NoDup_app. split_and!; [done| |apply NoDup_singleton].
    intros k Hk ->%list_elem_of_singleton. apply Hin. by apply Hstep.
  - unfold remove_tunnel. destruct (bool_decide _) eqn:Hin; [|done].
    unfold tunnel_keys. simpl. rewrite tunnel_keys_filter. by apply NoDup_filter.
Qed.

Lemma add_then_remove_tunnel (self self' : SSHTunnelManager) (model h : string)
    (p : Z) (flag : bool) :
  tunnels_in_step self → (h, p) ∉ procs self →
  add_tunnel self model h p true = Some (self', flag) →
  flag = true ∧ (h, p) ∈ procs self' ∧ remove_tunnel self' h p = (self, true).
Proof.
  intros Hstep Hnot. unfold add_tunnel.
  rewrite bool_decide_eq_false_2 by done. intros [= <- <-].
  split_and!; [done|set_solver|].
  unfold remove_tunnel. simpl. rewrite bool_decide_eq_true_2 by set_solver.
  f_equal. destruct self as [es ps]. simpl in *. f_equal.
  - rewrite filter_app. rewrite filter_cons_False by (intros Hn; by apply Hn).
    rewrite filter_nil, app_nil_r. apply filter_Forall_id.
    apply Forall_forall. intros e He Hk. apply Hnot, Hstep.
    unfold tunnel_keys. simpl. apply list_elem_of_fmap. by exists e.
  - apply leibniz_equiv. set_solver.
Qed.

(** *** The pools of a proxy *)

Lemma add_backend_to_endpoints (bs : list Backend) (h : string) (p : Z) (part : string) :
  endpoints_of (add_backend_to bs h p part)
  = if decide ((h, p) ∈ endpoints_of bs) then endpoints_of bs
    else endpoints_of bs ++ [(h, p)].
Proof.
  pose proof (add_backend_to_spec bs h p part) as Hadd.
  destruct (endpoint_position h p bs) as [pos|] eqn:Hpos.
  - destruct Hadd as [_ ->].
    apply endpoint_position_Some in Hpos as (b0 & Hb0 & He0 & _).
    rewrite decide_True.
    + apply endpoints_of_alter, reregistered_endpoint.
    + apply list_elem_of_fmap. exists b0. split; [done|].
      by eapply list_elem_of_lookup_2.
  - rewrite Hadd. apply endpoint_position_None in Hpos.
    rewrite decide_False by done. unfold endpoints_of. by rewrite fmap_app.
Qed.

Lemma add_backend_to_unique (bs : list Backend) (h : string) (p : Z) (part : string) :
  unique_endpoints bs → unique_endpoints (add_backend_to bs h p part).
Proof.
  unfold unique_endpoints. rewrite add_backend_to_endpoints.
  destruct (decide _) as [|Hn]; [done|]. intros Hu.
  apply NoDup_app. split_and!; [done| |apply NoDup_singleton].
  by intros x Hx ->%list_elem_of_singleton.
Qed.

Lemma remove_backend_from_endpoints (bs : list Backend) (h : string) (p : Z) :
  unique_endpoints bs →
  endpoints_of (remove_backend_from bs h p).1
  = filter (λ e, e ≠ (h, p)) (endpoints_of bs).
Proof.
  unfold unique_endpoints, endpoints_of.
  induction bs as [|b bs IH]; [done|]. intros Hu.
  rewrite fmap_cons in Hu. apply NoDup_cons in Hu as [Hb Hu].
  cbn [remove_backend_from]. destruct (same_endpoint h p b) eqn:Hs.
  - apply same_endpoint_true in Hs. rewrite fmap_cons.
    rewrite filter_cons_False by (intros Hn; by apply Hn).
    symmetry. apply filter_Forall_id, Forall_forall. intros e He ->.
    apply Hb. by rewrite Hs.
  - specialize (IH Hu).
    destruct (remove_backend_from bs h p) as [bs' removed]. cbn [fst] in *.
    rewrite !fmap_cons. rewrite filter_cons_True.
    + by rewrite IH.
    + intros He. apply same_endpoint_true in He. congruence.
Qed.

Lemma remove_backend_pool (pool : BackendPool) (h : string) (p : Z) :
  remove_backend pool h p
  = (with_backends pool (remove_backend_from (backends pool) h p).1,
     (remove_backend_from (backends pool) h p).2).
Proof. unfold remove_backend. by destruct (remove_backend_from _ _ _). Qed.

Lemma remove_backend_from_flag_iff (bs : list Backend) (h : string) (p : Z) :
  (remove_backend_from bs h p).2 = true ↔ (h, p) ∈ endpoints_of bs.
Proof.
  rewrite remove_backend_from_flag.
  destruct (endpoint_position h p bs) as [pos|] eqn:Hpos.
  - apply endpoint_position_Some in Hpos as (b0 & Hb0 & He0 & _).
    split; [intros _|done]. apply list_elem_of_fmap. exists b0.
    split; [done | by eapply list_elem_of_lookup_2].
  - apply endpoint_position_None in Hpos. split; [done | by intros ?].
Qed.

Lemma elem_of_setitem {V} (d : list (string * V)) (k k' : string) (v v' : V) :
  (k', v') ∈ PyDict.setitem d k v → (k' = k ∧ v' = v) ∨ (k', v') ∈ d.
Proof.
  induction d as [|[k0 v0] d IH]; simpl.
  - intros [= -> ->]%list_elem_of_singleton. by left.
  - destruct (decide (k0 = k)) as [->|Hne].
    + intros [[= -> ->]|Hin]%elem_of_cons; [by left|].
      right. apply elem_of_cons. by right.
    + intros [[= -> ->]|Hin]%elem_of_cons.
      * right. apply elem_of_cons. by left.
      * destruct (IH Hin) as [?|?]; [by left|]. right. apply elem_of_cons. by right.
Qed.

Lemma pools_ok_setitem (ps : list (string * BackendPool)) (name : string)
    (pool : BackendPool) :
  pools_ok ps → pool_model pool = name → unique_endpoints (backends pool) →
  pools_ok (PyDict.setitem ps name pool).
Proof.
  intros [Hwf Hok] Hm Hu. split; [by apply PyDictFacts.wf_setitem|].
  intros name' pool' [[-> ->]|Hin]%elem_of_setitem; [done | by apply Hok].
Qed.

Lemma pools_ok_alter (ps : list (string * BackendPool)) (name : string)
    (pool : BackendPool) (f : Backend → Backend) (pos : nat) :
  (∀ b, host (f b) = host b ∧ port (f b) = port b) →
  pools_ok ps → PyDict.getitem ps name = Some pool →
  pools_ok (PyDict.setitem ps name (with_backends pool (alter f pos (backends pool)))).
Proof.
  intros Hf Hok Hg.
  destruct (proj2 Hok name pool (PyDictFacts.getitem_Some_elem _ _ _ Hg)) as [Hm Hu].
  apply pools_ok_setitem; [done..|].
  unfold unique_endpoints. simpl. by rewrite endpoints_of_alter.
Qed.

Section pools_facts.
Context `{FloatParser}.
Implicit Types (self : LoadBalancingProxy).

Lemma refresh_endpoint (b : Backend) (now : float) (metrics : metrics_response) :
  host (_refresh_backend_load b now metrics) = host b
  ∧ port (_refresh_backend_load b now metrics) = port b.
Proof.
  unfold _refresh_backend_load. destruct (PrimFloat.ltb _ _); [done|].
  destruct metrics as [|status text]; [done|]. destruct (status =? 200); [|done].
  by destruct (parse_vllm_metrics text).
Qed.

Lemma check_endpoint (b : Backend) (resp : health_response) (checked_at now : float)
    (metrics : metrics_response) :
  host (_check_single_backend b resp checked_at now metrics) = host b
  ∧ port (_check_single_backend b resp checked_at now metrics) = port b.
Proof.
  unfold _check_single_backend. destruct resp as [|status]; [done|].
  cbn [healthy with_last_check with_healthy].
  destruct (status <? 500); [|done].
  apply (refresh_endpoint (with_last_check (with_healthy b true) checked_at)).
Qed.

Lemma settle_endpoint (up : upstream) (b : Backend) :
  host (release (settle b up)) = host b ∧ port (release (settle b up)) = port b.
Proof.
  destruct up as [status ? ? ?| | |]; simpl; try done.
  unfold on_timeout. simpl. by destruct (_ >=? 3).
Qed.

Lemma pools_ok_add self model h p part :
  pools_ok (pools self) → pools_ok (pools (proxy_add_backend self model h p part)).
Proof.
  intros Hok. unfold proxy_add_backend, PyDict.contains.
  destruct (PyDict.getitem (pools self) model) as [pool|] eqn:Hg.
  - rewrite Hg. simpl.
    destruct (proj2 Hok model pool (PyDictFacts.getitem_Some_elem _ _ _ Hg))
      as [Hm Hu].
    apply pools_ok_setitem; [done..|]. by apply add_backend_to_unique.
  - rewrite PyDictFacts.getitem_setitem_eq. simpl.
    apply pools_ok_setitem; [|done|].
    + apply pools_ok_setitem; [done..|]. apply NoDup_nil_2.
    + apply add_backend_to_unique, NoDup_nil_2.
Qed.

Lemma pools_ok_remove self h p :
  pools_ok (pools self) → pools_ok (pools (proxy_remove_backend self h p).1).
Proof.
  intros [Hwf Hok]. split.
  - unfold PyDict.wf. by rewrite proxy_remove_backend_keys.
  - simpl. intros name pool Hin.
    change (map ?f (pools self)) with (f <$> pools self) in Hin.
    apply list_elem_of_fmap in Hin as ([name0 pool0] & [= -> ->] & Hin).
    destruct (Hok _ _ Hin) as [Hm Hu]. simpl.
    rewrite remove_backend_pool. simpl. split; [done|].
    unfold unique_endpoints. rewrite remove_backend_from_endpoints by done.
    by apply NoDup_filter.
Qed.

Lemma pools_ok_update self name pos (f : Backend → Backend) :
  (∀ b, host (f b) = host b ∧ port (f b) = port b) →
  pools_ok (pools self) → pools_ok (pools (update_backend self name pos f)).
Proof.
  intros Hf Hok. unfold update_backend.
  destruct (PyDict.getitem (pools self) name) as [pool|] eqn:Hg; [|done].
  simpl. by apply pools_ok_alter.
Qed.

Lemma pools_ok_request self rid rq model path clock env up :
  pools_ok (pools self) →
  pools_ok (pools (_proxy_request self rid rq model path clock env up).1).
Proof.
  intros Hok.
  destruct (proxy_request_pools self rid rq model path clock env up)
    as [->|(name & pool & pos & pool1 & up' & Hg & Hget & _ & ->)]; [done|].
  apply get_backend_Acquired in Hget as (b & _ & _ & Hbs & Hm).
  destruct (proj2 Hok name pool (PyDictFacts.getitem_Some_elem _ _ _ Hg)) as [Hn Hu].
  apply pools_ok_setitem; [done| simpl; congruence |].
  unfold unique_endpoints. simpl.
  rewrite (endpoints_of_alter _ _ _ (settle_endpoint up')), Hbs.
  by rewrite endpoints_of_alter.
Qed.

Lemma pools_ok_op self (op : proxy_op) :
  pools_ok (pools self) → pools_ok (pools (run_proxy_op self op)).
Proof.
  intros Hok.
  destruct op as [model h p part | h p | force now env
                 | rid rq model path clock env up
                 | name pos resp checked_at now metrics | name pos now metrics | now];
    cbn [run_proxy_op].
  - by apply pools_ok_add.
  - by apply pools_ok_remove.
  - by rewrite (proj1 (fetch_backend_models_pools self force now env)).
  - by apply pools_ok_request.
  - apply pools_ok_update; [|done]. intros b. apply check_endpoint.
  - apply pools_ok_update; [|done]. intros b. apply refresh_endpoint.
  - done.
Qed.

Lemma pools_ok_run (strategy : string) (hc : HeadersConfig) (ops : list proxy_op) :
  pools_ok (pools (run_proxy_ops (LoadBalancingProxy_init strategy hc) ops)).
Proof.
  unfold run_proxy_ops.
  assert (Hinit : pools_ok (pools (LoadBalancingProxy_init strategy hc))).
  { split; [apply NoDup_nil_2|]. by intros ? ? ?%elem_of_nil. }
  revert Hinit. generalize (LoadBalancingProxy_init strategy hc).
  induction ops as [|op ops IH]; intros self Hok; [done|].
  simpl. apply IH. by apply pools_ok_op.
Qed.

Lemma proxy_remove_backend_flag self h p :
  (proxy_remove_backend self h p).2 = true ↔ registered_somewhere (pools self) h p.
Proof.
  unfold proxy_remove_backend, registered_somewhere. simpl.
  rewrite existsb_exists. split.
  - intros ([name pool] & Hin & Hflag). exists name, pool.
    split; [by apply list_elem_of_In|].
    simpl in Hflag. rewrite remove_backend_pool in Hflag.
    by apply remove_backend_from_flag_iff.
  - intros (name & pool & Hin & He). exists (name, pool).
    split; [by apply list_elem_of_In|].
    simpl. rewrite remove_backend_pool. by apply remove_backend_from_flag_iff.
Qed.

Lemma proxy_remove_backend_gone self h p :
  pools_ok (pools self) →
  ¬ registered_somewhere (pools (proxy_remove_backend self h p).1) h p.
Proof.
  intros [_ Hok] (name & pool & Hin & He). simpl in Hin.
  change (map ?f (pools self)) with (f <$> pools self) in Hin.
  apply list_elem_of_fmap in Hin as ([name0 pool0] & [= -> ->] & Hin).
  destruct (Hok _ _ Hin) as [_ Hu]. simpl in He.
  rewrite remove_backend_pool in He. simpl in He.
  rewrite remove_backend_from_endpoints in He by done.
  apply list_elem_of_filter in He as [Hne _]. by apply Hne.
Qed.

End pools_facts.

(** *** Accounting of requests *)

Section account_facts.
Context `{FloatParser}.
Implicit Types (self : LoadBalancingProxy) (t : RequestTracker float).

Lemma same_account_refl rid self : same_account rid self self.
Proof. done. Qed.

Lemma same_account_trans rid self1 self2 self3 :
  same_account rid self1 self2 → same_account rid self2 self3 →
  same_account rid self1 self3.
Proof. intros (? & ? & ?) (? & ? & ?). split_and!; congruence. Qed.

Lemma update_request_status t (rid rid' : string)
    (f : TrackedRequest float → TrackedRequest float) :
  (∀ r, status (f r) = status r) →
  status <$> PyDict.getitem (requests (update_request t rid f)) rid'
  = status <$> PyDict.getitem (requests t) rid'.
Proof.
  intros Hf. unfold update_request.
  destruct (PyDict.getitem (requests t) rid) as [req|] eqn:Hg; [|done]. simpl.
  destruct (decide (rid' = rid)) as [->|Hne].
  - rewrite PyDictFacts.getitem_setitem_eq, Hg. simpl. by rewrite Hf.
  - by rewrite PyDictFacts.getitem_setitem_ne.
Qed.

Lemma update_request_sets t (rid : string)
    (f : TrackedRequest float → TrackedRequest float) (st : Status) :
  (∀ r, status (f r) = st) →
  is_Some (status <$> PyDict.getitem (requests t) rid) →
  status <$> PyDict.getitem (requests (update_request t rid f)) rid = Some st.
Proof.
  intros Hf Hsome. unfold update_request.
  destruct (PyDict.getitem (requests t) rid) as [req|] eqn:Hg.
  - simpl. rewrite PyDictFacts.getitem_setitem_eq. simpl. by rewrite Hf.
  - by destruct Hsome.
Qed.

Lemma update_tracked_account self (rid rid' : string)
    (f : TrackedRequest float → TrackedRequest float) :
  (∀ r, status (f r) = status r) → same_account rid' self (update_tracked self rid f).
Proof.
  intros Hf. split_and!; [done..|]. unfold tracked_status. simpl.
  by apply update_request_status.
Qed.

Lemma update_backend_account self (rid name : string) (pos : nat)
    (f : Backend → Backend) :
  same_account rid self (update_backend self name pos f).
Proof. unfold update_backend. by destruct (PyDict.getitem _ _). Qed.

Lemma store_timing_account self (rid rid' : string) (value : option string)
    (set : float → TrackedRequest float → TrackedRequest float) :
  (∀ x r, status (set x r) = status r) →
  same_account rid' self (store_timing self rid value set).
Proof.
  intros Hset. unfold store_timing. destruct value as [text|]; [|done].
  destruct (truthy_str _); [|done]. destruct (py_float text); [|done].
  by apply update_tracked_account.
Qed.

Lemma annotate_request_account self self' (rid rid' : string) (rq : request) :
  annotate_request self rid rq = Some self' → same_account rid' self self'.
Proof.
  unfold annotate_request. destruct (rq_last_user_msg rq) as [text|]; [|done].
  intros [= <-].
  eapply same_account_trans; [|by apply store_timing_account].
  eapply same_account_trans; [|by apply store_timing_account].
  destruct (negb _); [by apply update_tracked_account | done].
Qed.

Lemma tracker_complete_account self (now : float) (rid : string) (success : bool) :
  is_Some (tracked_status self rid) →
  total_requests (tracker_complete self now rid success) = total_requests self
  ∧ total_errors (tracker_complete self now rid success) = total_errors self
  ∧ tracked_status (tracker_complete self now rid success) rid
    = Some (if success then completed else failed).
Proof.
  intros Hsome. split_and!; [done..|]. unfold tracked_status. simpl.
  by apply update_request_sets.
Qed.

Lemma conclude_accounted self (rid backend_url : string) (now : float) (up : upstream) :
  tracked_status self rid = Some in_flight →
  total_requests (conclude self rid backend_url now up).1 = total_requests self
  ∧ accounted_as (conclude self rid backend_url now up).2 (total_errors self)
      (total_errors (conclude self rid backend_url now up).1)
      (tracked_status (conclude self rid backend_url now up).1 rid).
Proof.
  intros Hst. destruct up as [status action bt lat|lat|lat|]; simpl.
  - set (self1 := update_tracked self rid (set_backend_time_ms bt)).
    assert (H1 : same_account rid self self1) by by apply update_tracked_account.
    set (self2 := if status <? 500 then self1 else count_error self1).
    assert (H2 : total_requests self2 = total_requests self
                 ∧ total_errors self2
                   = total_errors self + (if status <? 500 then 0 else 1)
                 ∧ tracked_status self2 rid = Some in_flight).
    { destruct H1 as (Hr & He & Ht). subst self2.
      destruct (status <? 500); unfold tracked_status in *; cbn [count_error
        with_totals total_requests total_errors tracker]; split_and!;
        try lia; congruence. }
    destruct H2 as (Hr2 & He2 & Ht2).
    destruct action as [text|]; simpl.
    + set (self3 := if negb (String.eqb text "") then _ else self2).
      assert (H3 : same_account rid self2 self3).
      { subst self3. destruct (negb _); [by apply update_tracked_account | done]. }
      destruct H3 as (Hr3 & He3 & Ht3).
      destruct (tracker_complete_account self3 now rid (status <? 500))
        as (Hr4 & He4 & Ht4); [by rewrite Ht3, Ht2|].
      split; [congruence|]. rewrite Ht4.
      destruct (status <? 500); (split; [lia | done]).
    + split; [done|]. rewrite He2, Ht2.
      split; [destruct (status <? 500); lia | by right].
  - destruct (tracker_complete_account (count_error self) now rid false)
      as (Hr & He & Ht);
      [by (change (is_Some (tracked_status self rid)); rewrite Hst)|].
    split; [done|]. split; [exact He | exact Ht].
  - destruct (tracker_complete_account self now rid false)
      as (Hr & He & Ht); [by rewrite Hst|].
    split; [done|]. split; [simpl in *; lia | exact Ht].
  - split; [done|]. split; [lia | by right].
Qed.

Lemma accounted_as_shift (resp : response) (errors errors' : Z) (st st' : option Status)
    (e0 : Z) :
  accounted_as resp e0 errors st → errors' = errors → st' = st →
  accounted_as resp e0 errors' st'.
Proof. by intros ? -> ->. Qed.

Lemma accounted_as_base (resp : response) (e0 e0' errors : Z) (st : option Status) :
  accounted_as resp e0 errors st → e0' = e0 → accounted_as resp e0' errors st.
Proof. by intros ? ->. Qed.

Lemma forward_accounted self (rid : string) (rq : request) (name : string) (pos : nat)
    (backend_url : string) (clock : readings) (up : upstream) :
  is_Some (tracked_status self rid) →
  total_requests (forward self rid rq name pos backend_url clock up).1
  = total_requests self
  ∧ accounted_as (forward self rid rq name pos backend_url clock up).2
      (total_errors self)
      (total_errors (forward self rid rq name pos backend_url clock up).1)
      (tracked_status (forward self rid rq name pos backend_url clock up).1 rid).
Proof.
  intros Hsome. unfold forward.
  set (self1 := with_tracker self _).
  assert (H1 : total_requests self1 = total_requests self
               ∧ total_errors self1 = total_errors self
               ∧ tracked_status self1 rid = Some in_flight).
  { split_and!; [done..|]. unfold tracked_status. subst self1. simpl.
    by apply update_request_sets. }
  destruct H1 as (Hr1 & He1 & Ht1).
  destruct (annotate_request self1 rid rq) as [self2|] eqn:Han.
  - apply (annotate_request_account _ _ _ rid) in Han as (Hr2 & He2 & Ht2).
    set (self3 := update_backend self2 name pos (λ b, settle b up)).
    destruct (update_backend_account self2 rid name pos (λ b, settle b up))
      as (Hr3 & He3 & Ht3). fold self3 in Hr3, He3, Ht3.
    destruct (conclude_accounted self3 rid backend_url (t_completed clock) up)
      as (Hr4 & Hacc); [congruence|].
    destruct (conclude self3 rid backend_url (t_completed clock) up)
      as [self4 resp]. simpl in *.
    destruct (update_backend_account self4 rid name pos release) as (Hr5 & He5 & Ht5).
    split; [congruence|].
    eapply accounted_as_shift; [|exact He5|exact Ht5].
    replace (total_errors self) with (total_errors self3) by congruence. done.
  - simpl.
    destruct (update_backend_account self1 rid name pos release) as (Hr5 & He5 & Ht5).
    split; [congruence|]. rewrite He5, Ht5, He1, Ht1. split; [lia | by right].
Qed.

Lemma resolve_pool_totals self (model : option string) (now : float) (env : models_env) :
  total_requests (resolve_pool self model now env).1 = total_requests self
  ∧ total_errors (resolve_pool self model now env).1 = total_errors self.
Proof.
  assert (Hf : total_requests (_fetch_backend_models self true now env).1
               = total_requests self
               ∧ total_errors (_fetch_backend_models self true now env).1
                 = total_errors self).
  { unfold _fetch_backend_models. simpl. by destruct (fetch_all_pools _ _ _). }
  unfold resolve_pool. destruct (lookup_direct self model); [done|].
  destruct (lookup_mapped self model); [done|].
  by destruct (lookup_mapped _ model).
Qed.

Lemma proxy_request_accounted self (rid : string) (rq : request)
    (model : option string) (path : string) (clock : readings) (env : models_env)
    (up : upstream) :
  total_requests (_proxy_request self rid rq model path clock env up).1
  = total_requests self + 1
  ∧ accounted_as (_proxy_request self rid rq model path clock env up).2
      (total_errors self)
      (total_errors (_proxy_request self rid rq model path clock env up).1)
      (tracked_status (_proxy_request self rid rq model path clock env up).1 rid).
Proof.
  unfold _proxy_request.
  set (self1 := with_tracker _ _).
  assert (H1 : total_requests self1 = total_requests self + 1
               ∧ total_errors self1 = total_errors self
               ∧ tracked_status self1 rid = Some pending).
  { split_and!; [done..|]. unfold tracked_status. subst self1.
    cbn [tracker with_tracker]. unfold submit.
    destruct (header_or rq _ _) as [s|]; [destruct (truthy_str _)|]; simpl;
      by rewrite PyDictFacts.getitem_setitem_eq. }
  destruct H1 as (Hr1 & He1 & Ht1).
  pose proof (resolve_pool_pools self1 model (t_models clock) env) as (_ & _ & _ & Htr).
  pose proof (resolve_pool_totals self1 model (t_models clock) env) as (Hr2 & He2).
  destruct (resolve_pool self1 model (t_models clock) env) as [self2 found].
  simpl in *.
  assert (Ht2 : tracked_status self2 rid = Some pending)
    by (unfold tracked_status in *; by rewrite Htr).
  assert (Hfail : ∀ resp,
            (∀ e0 e1 st, e1 = e0 + 1 → st = Some failed → accounted_as resp e0 e1 st) →
            total_requests
              (tracker_complete (count_error self2) (t_completed clock) rid false)
            = total_requests self + 1
            ∧ accounted_as resp (total_errors self)
                (total_errors
                   (tracker_complete (count_error self2) (t_completed clock) rid false))
                (tracked_status
                   (tracker_complete (count_error self2) (t_completed clock) rid false)
                   rid)).
  { intros resp Hresp.
    destruct (tracker_complete_account (count_error self2) (t_completed clock) rid false)
      as (Hr & He & Ht);
      [by (change (is_Some (tracked_status self2 rid)); rewrite Ht2)|].
    split; [simpl in *; congruence|]. apply Hresp; [|done].
    rewrite He. simpl. congruence. }
  destruct (found ≫= _) as [[name pool]|] eqn:Hfound; cbn [fst snd].
  - destruct (get_backend pool (strategy self2)) as [pos pool'| |] eqn:Hget.
    + set (self3 := with_pools self2 _).
      destruct (backends pool' !! pos) as [b|].
      * destruct (forward_accounted self3 rid rq name pos (url b) clock up)
          as (Hr & Hacc);
          [by (change (is_Some (tracked_status self2 rid)); rewrite Ht2)|].
        split; [simpl in *; congruence|].
        eapply accounted_as_base; [exact Hacc|]. simpl. congruence.
      * cbn [fst snd accounted_as]. split; [simpl; congruence|].
        split; [simpl; lia | left; exact Ht2].
    + cbn [fst snd]. apply Hfail. by intros.
    + cbn [fst snd accounted_as]. split; [congruence|].
      split; [lia | left; exact Ht2].
  - apply Hfail. by intros.
Qed.

Lemma run_proxy_op_totals self (op : proxy_op) :
  total_requests (run_proxy_op self op)
  = total_requests self + (if is_request op then 1 else 0)
  ∧ total_errors self ≤ total_errors (run_proxy_op self op)
    ≤ total_errors self + (if is_request op then 1 else 0).
Proof.
  destruct op as [model h p part | h p | force now env
                 | rid rq model path clock env up
                 | name pos resp checked_at now metrics | name pos now metrics | now];
    cbn [run_proxy_op is_request].
  - unfold proxy_add_backend.
    destruct (PyDict.getitem _ model); simpl; lia.
  - simpl. lia.
  - unfold _fetch_backend_models. destruct (_ && _); [simpl; lia|].
    destruct (fetch_all_pools _ _ _). simpl. lia.
  - destruct (proxy_request_accounted self rid rq model path clock env up)
      as [Hr Hacc]. split; [done|].
    unfold accounted_as in Hacc.
    destruct (_proxy_request self rid rq model path clock env up) as [self' resp].
    simpl in *. destruct resp as [| | | |s|]; try lia.
    destruct (s <? 500); lia.
  - destruct (update_backend_account self "" name pos
      (λ b, _check_single_backend b resp checked_at now metrics)) as (-> & -> & _). lia.
  - destruct (update_backend_account self "" name pos
      (λ b, _refresh_backend_load b now metrics)) as (-> & -> & _). lia.
  - simpl. lia.
Qed.

End account_facts.

Lemma run_proxy_ops_totals `{FloatParser} (self : LoadBalancingProxy)
    (ops : list proxy_op) :
  total_requests (run_proxy_ops self ops) = total_requests self + handled_requests ops
  ∧ total_errors self ≤ total_errors (run_proxy_ops self ops)
    ≤ total_errors self + handled_requests ops.
Proof.
  unfold run_proxy_ops, handled_requests. revert self.
  induction ops as [|op ops IH]; intros self; simpl; [lia|].
  destruct (IH (run_proxy_op self op)) as [Hr He].
  destruct (run_proxy_op_totals self op) as [Hr1 He1].
  destruct (is_request op) eqn:Hop.
  - rewrite filter_cons_True by done. simpl length. lia.
  - rewrite filter_cons_False by (by rewrite Hop). lia.
Qed.

(** *** The health report *)



(** *** The list a model discovery returns *)

Lemma seen_after_app (all_models : list string) (regs1 regs2 : list (string * string)) :
  seen_after all_models (regs1 ++ regs2) = seen_after (seen_after all_models regs1) regs2.
Proof. unfold seen_after. apply foldl_app. Qed.

Lemma seen_after_spec (all_models : list string) (regs : list (string * string)) :
  NoDup all_models →
  NoDup (seen_after all_models regs)
  ∧ ∀ id, id ∈ seen_after all_models regs ↔ id ∈ all_models ∨ id ∈ regs.*1.
Proof.
  revert all_models. induction regs as [|r regs IH]; intros all_models Hnd; simpl.
  - split; [done|]. intros id. rewrite elem_of_nil. tauto.
  - assert (Hnd' : NoDup (add_new all_models r.1)).
    { unfold add_new. case_bool_decide; [done|].
      apply NoDup_app. split_and!; [done| |apply NoDup_singleton].
      by intros x Hx ->%list_elem_of_singleton. }
    destruct (IH _ Hnd') as [Hn Hin]. split; [done|].
    intros id. rewrite Hin, elem_of_cons. unfold add_new.
    case_bool_decide as Hr.
    + split; [tauto|]. intros [?|[->|?]]; tauto.
    + rewrite elem_of_app, list_elem_of_singleton. tauto.
Qed.

Lemma register_models_seen (pool_name : string) (entries : list model_entry)
    (m2p : list (string * string)) (all_models : list string) :
  (register_models pool_name entries m2p all_models).1.2
  = seen_after all_models (entry_registrations pool_name entries).1.
Proof.
  revert m2p all_models.
  induction entries as [|[[id|]|] entries IH]; intros m2p all_models; simpl; try done.
  - destruct (entry_registrations pool_name entries) as [regs raised] eqn:He.
    destruct (negb (String.eqb id "")); simpl.
    + by rewrite IH.
    + apply IH.
  - destruct (entry_registrations pool_name entries) as [regs raised] eqn:He.
    apply IH.
Qed.

Lemma fetch_pool_models_seen (env : models_env) (pool_name : string)
    (bs : list Backend) (m2p : list (string * string)) (all_models : list string) :
  (fetch_pool_models env pool_name bs m2p all_models).2
  = seen_after all_models (pool_registrations env pool_name bs).
Proof.
  revert m2p all_models. induction bs as [|b bs IH]; intros m2p all_models; simpl;
    [done|].
  destruct (healthy b); simpl; [|apply IH].
  destruct (env (host b) (port b)) as [|status [entries|]]; try apply IH.
  destruct (status =? 200); [|apply IH].
  pose proof (register_models_spec pool_name entries m2p all_models) as [_ Hr].
  pose proof (register_models_seen pool_name entries m2p all_models) as Hs.
  destruct (register_models pool_name entries m2p all_models) as [[m2p' all'] raised].
  destruct (entry_registrations pool_name entries) as [regs raised'].
  simpl in *. subst raised' all'. destruct raised; [|done].
  by rewrite IH, seen_after_app.
Qed.

Lemma fetch_all_pools_seen (env : models_env) (ps : list (string * BackendPool))
    (m2p : list (string * string)) :
  (fetch_all_pools env ps m2p).2 = seen_after [] (registrations env ps).
Proof.
  unfold fetch_all_pools, registrations. generalize (@nil string) as all_models.
  revert m2p. induction ps as [|[name pool] ps IH]; intros m2p all_models; simpl;
    [done|].
  rewrite seen_after_app, <- (fetch_pool_models_seen env name _ m2p all_models).
  destruct (fetch_pool_models env name (backends pool) m2p all_models) as [m2p' all'].
  apply IH.
Qed.

(** What is registered: non-empty ids, under the name of a pool. *)
Lemma entry_registrations_elem (pool_name : string) (entries : list model_entry)
    (r : string * string) :
  r ∈ (entry_registrations pool_name entries).1 → r.1 ≠ "" ∧ r.2 = pool_name.
Proof.
  induction entries as [|[[id|]|] entries IH]; simpl.
  - by intros ?%elem_of_nil.
  - destruct (entry_registrations pool_name entries) as [regs raised].
    destruct (String.eqb_spec id ""); simpl; [done|].
    intros [->|Hin]%elem_of_cons; [done | by apply IH].
  - by destruct (entry_registrations pool_name entries) as [regs raised].
  - by intros ?%elem_of_nil.
Qed.

Lemma pool_registrations_elem (env : models_env) (pool_name : string)
    (bs : list Backend) (r : string * string) :
  r ∈ pool_registrations env pool_name bs → r.1 ≠ "" ∧ r.2 = pool_name.
Proof.
  induction bs as [|b bs IH]; simpl; [by intros ?%elem_of_nil|].
  destruct (healthy b); [|done].
  destruct (env (host b) (port b)) as [|status [entries|]]; try done.
  destruct (status =? 200); [|done].
  pose proof (entry_registrations_elem pool_name entries r) as He.
  destruct (entry_registrations pool_name entries) as [regs raised]. simpl in He.
  destruct raised; [|done]. intros [?|?]%elem_of_app; auto.
Qed.

Lemma registrations_elem (env : models_env) (ps : list (string * BackendPool))
    (r : string * string) :
  r ∈ registrations env ps → r.1 ≠ "" ∧ r.2 ∈ PyDict.keys ps.
Proof.
  unfold registrations. intros Hin. apply list_elem_of_In, in_flat_map in Hin
    as ([name pool] & Hkv & Hr).
  apply list_elem_of_In, pool_registrations_elem in Hr as [Hne ->].
  split; [done|]. apply list_elem_of_fmap. exists (name, pool).
  split; [done | by apply list_elem_of_In].
Qed.

(** *** The gauges of a metrics text *)

Lemma prefix_cons_inv (a : ascii) (s line : string) :
  String.prefix (String a s) line = true →
  ∃ line', line = String a line' ∧ String.prefix s line' = true.
Proof.
  destruct line as [|b line']; simpl; [done|].
  destruct (ascii_dec a b) as [->|]; [|done]. eauto.
Qed.

Lemma gauge_names_exclusive (line : string) :
  String.prefix "vllm:num_requests_running" line = true →
  String.prefix "vllm:num_requests_waiting" line = false.
Proof.
  intros Hr. do 19 (apply prefix_cons_inv in Hr as (? & -> & Hr)). reflexivity.
Qed.

Lemma last_value_snoc (rs : list int_result) (r : int_result) :
  last_value (rs ++ [r]) = match ok_value r with
                           | Some n => Some n
                           | None => last_value rs
                           end.
Proof.
  unfold last_value. rewrite omap_app. simpl.
  destruct (ok_value r); simpl; [apply last_snoc | by rewrite app_nil_r].
Qed.

Section gauge_facts.
Context `{FloatParser}.

Lemma readings_of_snoc (name : string) (lines : list string) (line : string) :
  readings_of name (lines ++ [line])
  = readings_of name lines
    ++ (if String.prefix name line then [int_of_last_field line] else []).
Proof.
  unfold readings_of. rewrite filter_app, fmap_app. f_equal.
  destruct (String.prefix name line) eqn:Hp.
  - by rewrite filter_cons_True.
  - rewrite filter_cons_False; [done|]. by rewrite Hp.
Qed.

Lemma parse_lines_spec (lines : list string) :
  let R := readings_of "vllm:num_requests_running" lines in
  let W := readings_of "vllm:num_requests_waiting" lines in
  (IntOverflowError ∉ R → IntOverflowError ∉ W →
   foldl (λ acc line, m ← acc; parse_line m line) (Some (mkMetrics None None)) lines
   = Some (mkMetrics (last_value R) (last_value W)))
  ∧ (IntOverflowError ∈ R ∨ IntOverflowError ∈ W →
     foldl (λ acc line, m ← acc; parse_line m line) (Some (mkMetrics None None)) lines
     = None).
Proof.
  cbv zeta. induction lines as [|line lines [IHok IHbad]] using rev_ind.
  - split; [done|]. by intros [?%elem_of_nil|?%elem_of_nil].
  - rewrite foldl_snoc, !readings_of_snoc.
    destruct (String.prefix "vllm:num_requests_running" line) eqn:Hr.
    + rewrite (gauge_names_exclusive line Hr), app_nil_r.
      split.
      * intros HR HW. rewrite not_elem_of_app in HR. destruct HR as [HR Hl].
        rewrite (IHok HR HW). simpl. unfold parse_line. rewrite Hr.
        rewrite last_value_snoc.
        destruct (int_of_last_field line) as [n| |]; simpl; try done.
        exfalso. apply Hl. by apply list_elem_of_singleton.
      * intros Hbad.
        destruct (decide (IntOverflowError ∈ readings_of "vllm:num_requests_running" lines
                          ∨ IntOverflowError ∈ readings_of "vllm:num_requests_waiting" lines))
          as [Hold|Hnew].
        -- by rewrite (IHbad Hold).
        -- assert (HR := λ h, Hnew (or_introl h)). assert (HW := λ h, Hnew (or_intror h)). rewrite (IHok HR HW). simpl.
           unfold parse_line. rewrite Hr.
           destruct Hbad as [[?|Hl%list_elem_of_singleton]%elem_of_app|?]; try done.
           by rewrite <- Hl.
    + rewrite app_nil_r.
      destruct (String.prefix "vllm:num_requests_waiting" line) eqn:Hw.
      * split.
        -- intros HR HW. rewrite not_elem_of_app in HW. destruct HW as [HW Hl].
           rewrite (IHok HR HW). simpl. unfold parse_line. rewrite Hr, Hw.
           rewrite last_value_snoc.
           destruct (int_of_last_field line) as [n| |]; simpl; try done.
           exfalso. apply Hl. by apply list_elem_of_singleton.
        -- intros Hbad.
           destruct (decide (IntOverflowError ∈ readings_of "vllm:num_requests_running" lines
                             ∨ IntOverflowError ∈ readings_of "vllm:num_requests_waiting" lines))
             as [Hold|Hnew].
           ++ by rewrite (IHbad Hold).
           ++ assert (HR := λ h, Hnew (or_introl h)). assert (HW := λ h, Hnew (or_intror h)). rewrite (IHok HR HW). simpl.
              unfold parse_line. rewrite Hr, Hw.
              destruct Hbad as [?|[?|Hl%list_elem_of_singleton]%elem_of_app]; try done.
              by rewrite <- Hl.
      * rewrite app_nil_r. split.
        -- intros HR HW. rewrite (IHok HR HW). simpl. unfold parse_line.
           by rewrite Hr, Hw.
        -- intros Hbad. by rewrite (IHbad Hbad).
Qed.

End gauge_facts.

(** *** Script names and endpoints *)













(** *** Starting the proxy *)

Section seen_facts.
Context {A : Type} `{EqDecision A}.
Implicit Types (acc l : list A).

Lemma add_seen_fold_spec acc l :
  NoDup acc →
  NoDup (foldl add_seen acc l)
  ∧ ∀ x, x ∈ foldl add_seen acc l ↔ x ∈ acc ∨ x ∈ l.
Proof.
  revert acc. induction l as [|y l IH]; intros acc Hnd; simpl.
  - split; [done|]. intros x. rewrite elem_of_nil. tauto.
  - assert (Hnd' : NoDup (add_seen acc y)).
    { unfold add_seen. destruct (decide _); [done|].
      apply NoDup_app. split_and!; [done| |apply NoDup_singleton].
      by intros x Hx ->%list_elem_of_singleton. }
    destruct (IH _ Hnd') as [Hn Hin]. split; [done|].
    intros x. rewrite Hin, elem_of_cons. unfold add_seen.
    destruct (decide (y ∈ acc)) as [Hy|Hy].
    + split; [tauto|]. intros [?|[->|?]]; tauto.
    + rewrite elem_of_app, list_elem_of_singleton. tauto.
Qed.

Lemma add_seen_fold_NoDup acc l :
  NoDup (acc ++ l) → foldl add_seen acc l = acc ++ l.
Proof.
  revert acc. induction l as [|y l IH]; intros acc Hnd; simpl.
  - by rewrite app_nil_r.
  - assert (Hy : y ∉ acc).
    { apply NoDup_app in Hnd as (_ & Hdis & _). intros Hin.
      apply (Hdis y Hin). apply elem_of_cons. by left. }
    unfold add_seen. rewrite decide_False by done.
    rewrite IH; rewrite <- app_assoc; done.
Qed.

Lemma add_seen_present acc x : x ∈ acc → add_seen acc x = acc.
Proof. intros Hin. unfold add_seen. by rewrite decide_True. Qed.

Lemma add_seen_elem acc x : x ∈ add_seen acc x.
Proof.
  unfold add_seen. destruct (decide _); [done|].
  apply elem_of_app. right. by apply list_elem_of_singleton.
Qed.

End seen_facts.

Lemma proxy_add_backend_keys_eq (self : LoadBalancingProxy) (m h : string) (p : Z)
    (part : string) :
  PyDict.keys (pools (proxy_add_backend self m h p part))
  = add_seen (PyDict.keys (pools self)) m.
Proof.
  unfold proxy_add_backend, PyDict.contains.
  destruct (PyDict.getitem (pools self) m) as [pool|] eqn:Hg.
  - rewrite Hg. simpl. rewrite PyDictFacts.keys_setitem_present by by rewrite Hg.
    rewrite add_seen_present; [done|].
    destruct (decide (m ∈ PyDict.keys (pools self))) as [|Hn]; [done|].
    apply PyDictFacts.getitem_None in Hn. congruence.
  - rewrite PyDictFacts.getitem_setitem_eq. simpl.
    rewrite PyDictFacts.keys_setitem_present
      by by rewrite PyDictFacts.getitem_setitem_eq.
    rewrite PyDictFacts.keys_setitem_absent by done.
    unfold add_seen. rewrite decide_False; [done|].
    by apply PyDictFacts.getitem_None.
Qed.

Lemma proxy_add_backend_endpoints (self : LoadBalancingProxy) (m h : string) (p : Z)
    (part m' : string) :
  pool_endpoints (proxy_add_backend self m h p part) m'
  = if decide (m' = m) then add_seen (pool_endpoints self m) (h, p)
    else pool_endpoints self m'.
Proof.
  unfold pool_endpoints, proxy_add_backend, PyDict.contains.
  assert (Hadd : ∀ bs, endpoints_of (add_backend_to bs h p part)
                       = add_seen (endpoints_of bs) (h, p)).
  { intros bs. rewrite add_backend_to_endpoints. unfold add_seen.
    by destruct (decide _). }
  destruct (PyDict.getitem (pools self) m) as [pool|] eqn:Hg.
  - rewrite Hg. simpl. destruct (decide (m' = m)) as [->|Hne].
    + rewrite PyDictFacts.getitem_setitem_eq. simpl. apply Hadd.
    + by rewrite PyDictFacts.getitem_setitem_ne.
  - rewrite PyDictFacts.getitem_setitem_eq. simpl.
    destruct (decide (m' = m)) as [->|Hne].
    + rewrite PyDictFacts.getitem_setitem_eq. simpl. apply (Hadd []).
    + by rewrite !PyDictFacts.getitem_setitem_ne.
Qed.

Lemma register_tuples_keys (m : string) (proxy : LoadBalancingProxy)
    (l : list backend_tuple) :
  PyDict.keys (pools (foldl (register_tuple m) proxy l))
  = match l with
    | [] => PyDict.keys (pools proxy)
    | _ => add_seen (PyDict.keys (pools proxy)) m
    end.
Proof.
  revert proxy. induction l as [|[[h p] part] l IH]; intros proxy; [done|].
  simpl foldl. rewrite IH.
  change (register_tuple m proxy (h, p, part))
    with (proxy_add_backend proxy m h p (default "" part)).
  rewrite proxy_add_backend_keys_eq.
  destruct l; [done|]. apply add_seen_present, add_seen_elem.
Qed.

Lemma register_tuples_endpoints (m : string) (proxy : LoadBalancingProxy)
    (l : list backend_tuple) (m' : string) :
  pool_endpoints (foldl (register_tuple m) proxy l) m'
  = if decide (m' = m)
    then foldl add_seen (pool_endpoints proxy m)
           ((λ t : backend_tuple, (t.1.1, t.1.2)) <$> l)
    else pool_endpoints proxy m'.
Proof.
  revert proxy. induction l as [|[[h p] part] l IH]; intros proxy.
  - simpl. by destruct (decide _) as [->|].
  - simpl foldl. rewrite IH.
    change (register_tuple m proxy (h, p, part))
      with (proxy_add_backend proxy m h p (default "" part)).
    rewrite !proxy_add_backend_endpoints.
    destruct (decide (m' = m)) as [->|Hne]; [|done].
    by rewrite decide_True.
Qed.

Lemma register_tuples_ok (m : string) (proxy : LoadBalancingProxy)
    (l : list backend_tuple) :
  pools_ok (pools proxy) → pools_ok (pools (foldl (register_tuple m) proxy l)).
Proof.
  revert proxy. induction l as [|[[h p] part] l IH]; intros proxy Hok; [done|].
  simpl foldl. apply IH. unfold register_tuple. by apply pools_ok_add.
Qed.

Lemma proxy_server_fold (d : list (string * list backend_tuple))
    (proxy : LoadBalancingProxy) :
  PyDict.wf d → (∀ kv, kv ∈ d → kv.2 ≠ []) →
  let final :=
    foldl (λ proxy (kv : string * list backend_tuple),
             foldl (register_tuple kv.1) proxy kv.2) proxy d in
  PyDict.keys (pools final) = foldl add_seen (PyDict.keys (pools proxy)) (PyDict.keys d)
  ∧ (pools_ok (pools proxy) → pools_ok (pools final))
  ∧ ∀ m, pool_endpoints final m
         = foldl add_seen (pool_endpoints proxy m)
             ((λ t : backend_tuple, (t.1.1, t.1.2))
                <$> default [] (PyDict.getitem d m)).
Proof.
  cbv zeta. revert proxy. induction d as [|[k l] d IH]; intros proxy Hwf Hne.
  - simpl. split_and!; done.
  - unfold PyDict.wf in Hwf. simpl in Hwf. apply NoDup_cons in Hwf as [Hk Hwf].
    simpl foldl.
    destruct (IH (foldl (register_tuple k) proxy l) Hwf) as (Hkeys & Hok & Hends).
    { intros kv Hkv. apply Hne. apply elem_of_cons. by right. }
    split_and!.
    + rewrite Hkeys, register_tuples_keys. simpl.
      destruct l; [|done]. exfalso. apply (Hne (k, [])); [|done].
      apply elem_of_cons. by left.
    + intros Hp. by apply Hok, register_tuples_ok.
    + intros m. rewrite Hends, register_tuples_endpoints. simpl.
      destruct (decide (k = m)) as [->|Hkm].
      * rewrite decide_True by done.
        assert (Hnone : PyDict.getitem d m = None)
          by by apply PyDictFacts.getitem_None.
        rewrite Hnone. done.
      * rewrite decide_False by done. done.
Qed.

Lemma group_endpoint_spec (d : list (string * list backend_tuple)) (e : endpoint) :
  PyDict.keys (group_endpoint d e) = add_seen (PyDict.keys d) e.1.1.1
  ∧ ∀ m, PyDict.getitem (group_endpoint d e) m
         = if decide (m = e.1.1.1)
           then Some (default [] (PyDict.getitem d m) ++ [("localhost", e.1.2, Some e.2)])
           else PyDict.getitem d m.
Proof.
  destruct e as [[[model node] port] part]. simpl.
  unfold group_endpoint, PyDict.contains.
  destruct (PyDict.getitem d model) as [l|] eqn:Hg.
  - rewrite Hg. split.
    + rewrite PyDictFacts.keys_setitem_present by by rewrite Hg.
      rewrite add_seen_present; [done|].
      destruct (decide (model ∈ PyDict.keys d)) as [|Hn]; [done|].
      apply PyDictFacts.getitem_None in Hn. congruence.
    + intros m. destruct (decide (m = model)) as [->|Hne].
      * by rewrite PyDictFacts.getitem_setitem_eq, Hg.
      * by rewrite PyDictFacts.getitem_setitem_ne.
  - rewrite PyDictFacts.getitem_setitem_eq. split.
    + rewrite PyDictFacts.keys_setitem_present
        by by rewrite PyDictFacts.getitem_setitem_eq.
      rewrite PyDictFacts.keys_setitem_absent by done.
      unfold add_seen. rewrite decide_False; [done|].
      by apply PyDictFacts.getitem_None.
    + intros m. destruct (decide (m = model)) as [->|Hne].
      * by rewrite PyDictFacts.getitem_setitem_eq, Hg.
      * by rewrite !PyDictFacts.getitem_setitem_ne.
Qed.

Lemma build_backends_spec (eps : list endpoint) :
  PyDict.keys (_build_backends eps)
  = seen_in_order ((λ e : endpoint, e.1.1.1) <$> eps)
  ∧ ∀ m, PyDict.getitem (_build_backends eps) m
         = if decide (m ∈ (λ e : endpoint, e.1.1.1) <$> eps)
           then Some ((λ e : endpoint, ("localhost", e.1.2, Some e.2))
                        <$> filter (λ e : endpoint, e.1.1.1 = m) eps)
           else None.
Proof.
  unfold _build_backends, seen_in_order.
  induction eps as [|e eps [IHk IHg]] using rev_ind; [done|].
  rewrite foldl_snoc, fmap_app, foldl_app. simpl.
  destruct (group_endpoint_spec (foldl group_endpoint [] eps) e) as [Hk Hg].
  split; [by rewrite Hk, IHk|].
  intros m. rewrite Hg, IHg, filter_app, fmap_app. clear Hg IHg Hk IHk.
  set (ms := (λ e0 : endpoint, e0.1.1.1) <$> eps).
  assert (Hnil : m ∉ ms → filter (λ e0 : endpoint, e0.1.1.1 = m) eps = []).
  { intros Hn. destruct (filter _ eps) as [|x xs] eqn:Hf; [done|]. exfalso. apply Hn.
    assert (Hx : x ∈ x :: xs) by (apply elem_of_cons; by left).
    rewrite <- Hf in Hx. apply list_elem_of_filter in Hx as [Hxm Hx].
    apply list_elem_of_fmap. by exists x. }
  destruct (decide (m ∈ ms ++ [e.1.1.1])) as [Hin|Hnin].
  - destruct (decide (m = e.1.1.1)) as [->|Hne].
    + rewrite filter_cons_True by done. simpl. f_equal. f_equal.
      destruct (decide (e.1.1.1 ∈ ms)) as [|Hn]; [done|]. simpl.
      by rewrite (Hnil Hn).
    + rewrite filter_cons_False by (intros ?; by apply Hne). rewrite app_nil_r.
      apply elem_of_app in Hin as [Hin|Hin%list_elem_of_singleton]; [|done].
      by rewrite decide_True.
  - destruct (decide (m = e.1.1.1)) as [->|Hne].
    + exfalso. apply Hnin, elem_of_app. right. by apply list_elem_of_singleton.
    + rewrite decide_False; [done|]. intros Hin. apply Hnin, elem_of_app. by left.
Qed.

(** *** Allocations *)

Lemma total_count_app (l1 l2 : list allocation) :
  total_count (l1 ++ l2) = total_count l1 + total_count l2.
Proof.
  unfold total_count. induction l1 as [|a l1 IH]; simpl; [done|]. rewrite IH. lia.
Qed.

Lemma total_count_cons (a : allocation) (l : list allocation) :
  total_count (a :: l) = alloc_count a + total_count l.
Proof. done. Qed.

Lemma total_count_alter (n : Z) (i : nat) (l : list allocation) :
  (i < length l)%nat → total_count (alter (add_count n) i l) = total_count l + n.
Proof.
  revert i. induction l as [|a l IH]; intros i Hi; simpl in Hi; [lia|].
  destruct i as [|i].
  - change (alter (add_count n) 0%nat (a :: l)) with (add_count n a :: l).
    rewrite !total_count_cons. simpl. lia.
  - change (alter (add_count n) (S i) (a :: l))
      with (a :: alter (add_count n) i l).
    rewrite !total_count_cons, IH by lia. lia.
Qed.

Lemma first_max_from_lt (best_i : nat) (best : Z) (i : nat) (l : list allocation) :
  (best_i < i)%nat → (first_max_from best_i best i l < i + length l)%nat.
Proof.
  revert best_i best i. induction l as [|a l IH]; intros best_i best i Hlt; simpl.
  - lia.
  - destruct (best <? alloc_count a).
    + specialize (IH i (alloc_count a) (S i)). lia.
    + specialize (IH best_i best (S i)). lia.
Qed.

Lemma allocate_loop_spec (idle_gpus : nat → Z) (i : nat) (prefs : list partition_pref)
    (acc : list allocation) (r : Z) (allocs : list allocation) (r' : Z) :
  allocate_loop idle_gpus i prefs acc r = Some (allocs, r') →
  Forall (λ a, 0 < alloc_count a) acc → 0 ≤ r →
  total_count allocs + r' = total_count acc + r
  ∧ Forall (λ a, 0 < alloc_count a) allocs
  ∧ 0 ≤ r'
  ∧ ∃ new, allocs = acc ++ new
           ∧ (new = [] → 0 < r →
              ∀ k pref, prefs !! k = Some pref →
                idle_gpus (i + k)%nat `div` default 4 (pref_gpus pref) ≤ 0).
Proof.
  revert i acc r. induction prefs as [|pref prefs IH]; intros i acc r; simpl.
  - intros [= <- <-] Hacc Hr. split_and!; try done.
    exists []. rewrite app_nil_r. split; [done|]. intros _ _ k p. by rewrite lookup_nil.
  - destruct (Z.leb_spec r 0) as [Hle|Hpos].
    + intros [= <- <-] Hacc Hr. split_and!; try done.
      exists []. rewrite app_nil_r. split; [done|]. lia.
    + destruct (default 4 (pref_gpus pref) =? 0) eqn:Hz; [done|].
      set (can_fit := idle_gpus i `div` default 4 (pref_gpus pref)).
      destruct (Z.gtb_spec (Z.min can_fit r) 0) as [Hfit|Hnofit].
      * intros Hloop Hacc Hr.
        apply IH in Hloop as (Hsum & Hall & Hr' & new & -> & _); [| |lia].
        -- split_and!; [|done|done|].
           ++ rewrite Hsum, total_count_app. unfold total_count at 2. simpl. lia.
           ++ exists (mkAlloc (pref_partition pref)
                        (Some (default "default" (pref_qos pref)))
                        (Some (default 4 (pref_gpus pref))) (Z.min can_fit r) :: new).
              split; [by rewrite <- app_assoc | done].
        -- apply Forall_app. split; [done|]. by apply Forall_singleton.
      * intros Hloop Hacc Hr.
        apply IH in Hloop as (Hsum & Hall & Hr' & new & -> & Hnone); [|done|lia].
        split_and!; try done. exists new. split; [done|].
        intros Hnew _ k p Hk. destruct k as [|k]; simpl in Hk.
        -- injection Hk as <-. rewrite Nat.add_0_r. fold can_fit. lia.
        -- replace (i + S k)%nat with (S i + k)%nat by lia. by apply Hnone.
Qed.

Lemma started_replicas_spec (start : Z) (allocs : list allocation) :
  Forall (λ a, 0 < alloc_count a) allocs →
  started_replicas start allocs
  = (λ k : nat, start + Z.of_nat k) <$> seq 0 (Z.to_nat (total_count allocs)).
Proof.
  intros Hpos. revert start. induction Hpos as [|a l Ha Hl IH]; intros start; [done|].
  simpl started_replicas. rewrite IH.
  assert (Hnn : 0 ≤ total_count l).
  { clear -Hl. induction Hl as [|b l Hb _ IH]; [done|].
    unfold total_count in *. simpl. lia. }
  replace (Z.to_nat (total_count (a :: l)))
    with (Z.to_nat (alloc_count a) + Z.to_nat (total_count l))%nat
    by (rewrite total_count_cons; lia).
  rewrite seq_app, fmap_app. f_equal.
  replace (seq (0 + Z.to_nat (alloc_count a)) (Z.to_nat (total_count l)))
    with (Nat.add (Z.to_nat (alloc_count a)) <$> seq 0 (Z.to_nat (total_count l)))
    by (rewrite fmap_add_seq; f_equal; lia).
  rewrite <- list_fmap_compose.
  apply list_fmap_ext. intros _ k _. simpl. lia.
Qed.

(** *** Requests that name a pool, and requests to a proxy without pools *)

Section handle_facts.
Context `{FloatParser}.
Implicit Types (self : LoadBalancingProxy).



End handle_facts.

Lemma start_tunnels_spec (spawns : string → Z → bool)
    (eps : list (string * string * Z)) (ps ps' : gset (string * Z)) :
  start_tunnels spawns eps ps = Some ps' →
  ∀ k, k ∈ ps' ↔ k ∈ ps ∨ k ∈ (λ e : string * string * Z, (e.1.2, e.2)) <$> eps.
Proof.
  revert ps. induction eps as [|[[m h] p] eps IH]; intros ps; simpl.
  - intros [= <-] k. rewrite elem_of_nil. tauto.
  - destruct (spawns h p); [|done]. intros Hs k. rewrite (IH _ Hs k).
    rewrite elem_of_union, elem_of_singleton, elem_of_cons. tauto.
Qed.

(** * Properties of the proxy, the tracker and the poll loop *)

(** ** Backend pools *)

(** C1 (amended).  The in-flight counters of a pool count the acquires not
    yet released of the backends that are in the pool.  [get_backend] adds
    exactly 1 to the backend it returns; whatever the upstream call gives (a
    response, a timeout, a transport error, another exception), the handler's
    [finally] clause takes 1 off, floored at 0.  Along every interleaving of
    acquires, completions, health checks, load refreshes, registrations and
    removals on a fresh pool: the counter of every backend in the pool is the
    number of acquires of that backend not yet released; the counters sum to
    the number of such acquires over the backends in the pool, which is the
    number of acquires minus the number of releases as long as no handler
    holds a backend that was removed from the pool; and no counter is
    negative.  A request handled from start to end leaves the total of every
    pool as it found it. *)
Theorem inflight_counts_outstanding_requests `{FloatParser} :
  (∀ (pool pool' : BackendPool) (strategy : string) (pos : nat),
     get_backend pool strategy = Acquired pos pool' →
     ∃ b, backends pool !! pos = Some b
          ∧ backends pool'
            = alter (λ b, with_inflight b (inflight b + 1)) pos (backends pool)
          ∧ total_inflight pool' = total_inflight pool + 1)
  ∧ (∀ (b : Backend) (up : upstream),
       inflight (release (settle b up)) = Z.max 0 (inflight b - 1))
  ∧ (∀ (pool : BackendPool) (evs : list pool_event) (st : pool_run),
       fresh_pool pool →
       run_events (start_run pool) evs = Some st →
       acquires st - releases st = Z.of_nat (length (outstanding st))
       ∧ (∀ (pos obj : nat) (b : Backend),
            members st !! pos = Some obj →
            backends (run_pool st) !! pos = Some b →
            inflight b = Z.of_nat (held_count obj (outstanding st)))
       ∧ total_inflight (run_pool st) = Z.of_nat (length (held_in_pool st))
       ∧ ((∀ obj, obj ∈ outstanding st → obj ∈ members st) →
          total_inflight (run_pool st) = acquires st - releases st)
       ∧ Forall (λ b, 0 ≤ inflight b) (backends (run_pool st)))
  ∧ (∀ (self : LoadBalancingProxy) (rid : string) (rq : request)
       (model : option string) (path : string) (clock : readings)
       (env : models_env) (up : upstream) (name : string) (pool : BackendPool),
       (∀ name pool, PyDict.getitem (pools self) name = Some pool →
                     Forall (λ b, 0 ≤ inflight b) (backends pool)) →
       PyDict.getitem (pools self) name = Some pool →
       ∃ pool',
         PyDict.getitem
           (pools (_proxy_request self rid rq model path clock env up).1) name
         = Some pool'
         ∧ total_inflight pool' = total_inflight pool).
Proof.
  split_and!.
  - intros pool pool' strategy pos Hget.
    destruct (get_backend_Acquired _ _ _ _ Hget) as (b & Hb & _ & Hbs & _).
    exists b. split_and!; [done..|].
    unfold total_inflight at 1. rewrite Hbs.
    pose proof (total_inflight_alter_at pool [] pos b
                  (λ b, with_inflight b (inflight b + 1)) Hb) as Ht.
    unfold total_inflight at 1 in Ht. simpl in Ht. rewrite Ht. simpl. lia.
  - intros b up. unfold release. simpl. by rewrite settle_inflight.
  - intros pool evs st Hfresh Hrun.
    pose proof (run_inv_events evs _ _ (run_inv_start pool Hfresh) Hrun) as Hinv.
    pose proof (total_inflight_held st Hinv) as Htot.
    destruct Hinv as [_ _ _ _ _ Hbal Hok].
    split_and!; [done | | done | |].
    + intros pos obj b Hobj Hb. by destruct (Hok pos obj b Hobj Hb) as (-> & _).
    + intros Hall. rewrite Htot, (held_in_pool_all st Hall). lia.
    + apply Forall_lookup. intros pos b Hb.
      destruct (lookup_lt_is_Some_2 (members st) pos) as [obj Hobj].
      { apply lookup_lt_Some in Hb.
        pose proof (run_inv_events evs _ _ (run_inv_start pool Hfresh) Hrun)
          as [Hlen _ _ _ _ _ _]. lia. }
      destruct (Hok pos obj b Hobj Hb) as (-> & _). lia.
  - intros self rid rq model path clock env up name pool Hnn Hg.
    destruct (proxy_request_pools self rid rq model path clock env up)
      as [->|(name' & pool0 & pos & pool1 & up' & Hg0 & Hget & _ & ->)].
    + by exists pool.
    + destruct (decide (name' = name)) as [->|Hne].
      * rewrite PyDictFacts.getitem_setitem_eq. eexists; split; [done|].
        assert (pool0 = pool) as -> by congruence.
        eapply acquire_release_total; [by eapply Hnn | done].
      * rewrite PyDictFacts.getitem_setitem_ne by done. by exists pool.
Qed.

(** Scenario S2 as a run: A carries one request, B none; a least-load
    acquire picks B; B is removed while it is busy and registered anew; in
    the end both requests have completed and the pool is idle. *)
Lemma inflight_counts_outstanding_requests_witness :
  let no_floats : FloatParser := λ _, None in
  let pool :=
    mkBackendPool "m"
      [Backend_init "127.0.0.1" 5900 ""; Backend_init "127.0.0.1" 5910 ""] 0 in
  let evs :=
    [EvAcquire "least_load"; EvLoadRefresh 0 5 (MetricsResponse 200 "");
     EvAcquire "least_load"; EvRemoveBackend "127.0.0.1" 5910;
     EvAddBackend "127.0.0.1" 5910 "p1";
     EvFinish 1 (UpResponse 200 (Inspected "") 12 15);
     EvFinish 0 (UpTimeout 1000)] in
  fresh_pool pool
  ∧ (outstanding <$> run_events (start_run pool) (take 3 evs)) = Some [1; 0]%nat
  ∧ (members <$> run_events (start_run pool) (take 5 evs)) = Some [0; 2]%nat
  ∧ ∃ st, run_events (start_run pool) evs = Some st
          ∧ total_inflight (run_pool st) = Z.of_nat (length (held_in_pool st))
          ∧ total_inflight (run_pool st) = 0.
Proof.
  cbv zeta.
  set (pool := mkBackendPool "m" _ 0). set (evs := [_; _; _; _; _; _; _]).
  assert (Hfresh : fresh_pool pool) by (repeat constructor).
  split; [exact Hfresh|]. split; [vm_compute; reflexivity|].
  split; [vm_compute; reflexivity|].
  destruct (run_events (H:=λ _, None) (start_run pool) evs) as [st|] eqn:Hrun;
    [|vm_compute in Hrun; discriminate].
  exists st. split; [reflexivity|].
  destruct (proj1 (proj2 (proj2 (inflight_counts_outstanding_requests (H:=λ _, None))))
              pool evs st Hfresh Hrun) as (_ & _ & Htot & _).
  split; [exact Htot|].
  vm_compute in Hrun. injection Hrun as <-. reflexivity.
Defined.

(** C1, counterexample.  A pool with one backend: a handler acquires it, and
    while the request is outstanding the backend is removed.  The pool's
    counters now sum to 0 with one acquire not yet released; the handler's
    release, when it comes, changes an object the pool no longer has. *)
Lemma removed_backend_leaves_the_sum :
  let no_floats : FloatParser := λ _, None in
  let pool := mkBackendPool "m" [Backend_init "localhost" 5900 ""] 0 in
  let busy := [EvAcquire "least_load"] in
  let removed := busy ++ [EvRemoveBackend "localhost" 5900] in
  let finished := removed ++ [EvFinish 0 (UpClientError 5)] in
  let sum_and_balance (st : pool_run) :=
    (total_inflight (run_pool st), acquires st - releases st) in
  fresh_pool pool
  ∧ (sum_and_balance <$> run_events (start_run pool) busy) = Some (1, 1)
  ∧ (sum_and_balance <$> run_events (start_run pool) removed) = Some (0, 1)
  ∧ (outstanding <$> run_events (start_run pool) removed) = Some [0%nat]
  ∧ (sum_and_balance <$> run_events (start_run pool) finished) = Some (0, 0).
Proof.
  cbv zeta. split; [repeat constructor|]. split_and!; vm_compute; reflexivity.
Qed.

(** C2 (amended).  A timed-out upstream call adds 1 to the backend's
    [consecutive_timeouts], marks the backend unhealthy once the counter is
    3 or more, and is answered with HTTP 504.  A health probe answered with a
    status below 500 and a registration of a backend already in the pool set
    the healthy flag and leave the counter as it is.  Along every
    interleaving of acquires, completions, health checks, load refreshes,
    registrations and removals on a fresh pool, a backend whose three most
    recent upstream calls all timed out, and whose flag has not been set by a
    probe or a registration since the last of them, is unhealthy.
    [get_backend] only returns a backend whose healthy flag is set, and a
    request for a pool without a healthy backend is answered with HTTP
    503. *)
Theorem three_timeouts_make_unhealthy `{FloatParser} :
  (∀ (b : Backend) (latency_ms : float),
     consecutive_timeouts (on_timeout b latency_ms) = consecutive_timeouts b + 1
     ∧ healthy (on_timeout b latency_ms)
       = (if consecutive_timeouts b + 1 >=? 3 then false else healthy b))
  ∧ (∀ (self : LoadBalancingProxy) (rid : string) (rq : request) (name : string)
       (pos : nat) (backend_url text : string) (clock : readings) (latency_ms : float),
       rq_last_user_msg rq = Inspected text →
       (forward self rid rq name pos backend_url clock (UpTimeout latency_ms)).2
       = GatewayTimeout backend_url
       ∧ response_status (GatewayTimeout backend_url) = Some 504)
  ∧ (∀ (b : Backend) (status : Z) (checked_at now : float) (metrics : metrics_response),
       healthy (_check_single_backend b (HealthResponse status) checked_at now metrics)
       = (status <? 500)
       ∧ consecutive_timeouts
           (_check_single_backend b (HealthResponse status) checked_at now metrics)
         = consecutive_timeouts b)
  ∧ (∀ (bs : list Backend) (h : string) (p : Z) (part : string) (pos : nat)
       (b : Backend),
       endpoint_position h p bs = Some pos →
       bs !! pos = Some b →
       ∃ b', add_backend_to bs h p part !! pos = Some b'
             ∧ healthy b' = true
             ∧ consecutive_timeouts b' = consecutive_timeouts b)
  ∧ (∀ (pool : BackendPool) (evs : list pool_event) (st : pool_run)
       (pos obj : nat) (b : Backend),
       fresh_pool pool →
       run_events (start_run pool) evs = Some st →
       members st !! pos = Some obj →
       backends (run_pool st) !! pos = Some b →
       last_three_timed_out (events_of obj (history st)) = true →
       recovered (events_of obj (history st)) = false →
       healthy b = false)
  ∧ (∀ (pool pool' : BackendPool) (strategy : string) (pos : nat),
       get_backend pool strategy = Acquired pos pool' →
       ∃ b, backends pool !! pos = Some b ∧ healthy b = true)
  ∧ (∀ (self : LoadBalancingProxy) (rid : string) (rq : request) (name path : string)
       (pool : BackendPool) (clock : readings) (env : models_env) (up : upstream),
       PyDict.getitem (pools self) name = Some pool →
       Forall (λ b, healthy b = false) (backends pool) →
       ∃ error,
         (_proxy_request self rid rq (Some name) path clock env up).2 = NoHealthy error
         ∧ response_status (NoHealthy error) = Some 503).
Proof.
  split_and!.
  - intros b latency_ms. unfold on_timeout. simpl.
    by destruct (consecutive_timeouts b + 1 >=? 3).
  - intros self rid rq name pos backend_url text clock latency_ms Hrq.
    split; [|done]. unfold forward, annotate_request. by rewrite Hrq.
  - intros b status checked_at now metrics.
    by destruct (check_keeps b (HealthResponse status) checked_at now metrics)
      as (_ & -> & ->).
  - intros bs h p part pos b Hpos Hb.
    pose proof (add_backend_to_spec bs h p part) as Hadd. rewrite Hpos in Hadd.
    destruct Hadd as [_ ->]. exists (reregistered part b).
    rewrite list_lookup_alter_eq, Hb. unfold reregistered.
    by destruct (negb _).
  - intros pool evs st pos obj b Hfresh Hrun Hobj Hb Hlast Hrec.
    pose proof (run_inv_events evs _ _ (run_inv_start pool Hfresh) Hrun)
      as [_ _ _ _ _ _ Hok].
    destruct (Hok pos obj b Hobj Hb) as (_ & _ & Hh).
    apply last_three_leading in Hlast.
    destruct (healthy b); [|done].
    destruct (Hh eq_refl) as [Hr|Hle]; [congruence | lia].
  - intros pool pool' strategy pos Hget.
    destruct (get_backend_Acquired _ _ _ _ Hget) as (b & Hb & Hh & _). eauto.
  - intros self rid rq name path pool clock env up Hg Hall.
    unfold _proxy_request.
    set (self1 := with_tracker _ _).
    rewrite (resolve_pool_direct self1 name pool) by done. simpl.
    change (pools self1) with (pools self). rewrite Hg. simpl.
    rewrite (get_backend_none_healthy pool _ Hall). eauto.
Qed.

(** Scenario S3: a single backend, three requests that time out, a fourth
    request. *)
Lemma three_timeouts_make_unhealthy_witness :
  let no_floats : FloatParser := λ _, None in
  let pool := mkBackendPool "m" [Backend_init "localhost" 5900 ""] 0 in
  let evs :=
    [EvAcquire "least_load"; EvFinish 0 (UpTimeout 1000);
     EvAcquire "least_load"; EvFinish 0 (UpTimeout 1000);
     EvAcquire "least_load"; EvFinish 0 (UpTimeout 1000)] in
  let proxy :=
    proxy_add_backend (LoadBalancingProxy_init "least_load" HeadersConfig_default)
      "m" "localhost" 5900 "" in
  let handle self rid :=
    _proxy_request self rid (mkRequest None (λ _, None) (Inspected ""))
      (Some "m") "/v1/chat/completions" (mkReadings 1 2 3 4)
      (λ _ _, ModelsFailed) (UpTimeout 1000) in
  let r1 := handle proxy "1" in
  let r2 := handle r1.1 "2" in
  let r3 := handle r2.1 "3" in
  let r4 := handle r3.1 "4" in
  fresh_pool pool
  ∧ (∃ st, run_events (start_run pool) evs = Some st
           ∧ last_three_timed_out (events_of 0 (history st)) = true
           ∧ recovered (events_of 0 (history st)) = false
           ∧ (healthy <$> backends (run_pool st)) = [false])
  ∧ response_status <$> [r1.2; r2.2; r3.2; r4.2] = Some <$> [504; 504; 504; 503].
Proof.
  cbv zeta.
  set (pool := mkBackendPool "m" _ 0). set (evs := [_; _; _; _; _; _]).
  assert (Hfresh : fresh_pool pool) by (repeat constructor).
  split; [exact Hfresh|]. split; [|vm_compute; reflexivity].
  destruct (run_events (H:=λ _, None) (start_run pool) evs) as [st|] eqn:Hrun;
    [|vm_compute in Hrun; discriminate].
  exists st. split; [reflexivity|].
  assert (Hlast : last_three_timed_out (events_of 0 (history st)) = true).
  { vm_compute in Hrun. injection Hrun as <-. reflexivity. }
  assert (Hrec : recovered (events_of 0 (history st)) = false).
  { vm_compute in Hrun. injection Hrun as <-. reflexivity. }
  assert (Hobj : members st !! 0%nat = Some 0%nat).
  { vm_compute in Hrun. injection Hrun as <-. reflexivity. }
  split; [exact Hlast|]. split; [exact Hrec|].
  destruct (backends (run_pool st)) as [|b [|b' bs]] eqn:Hbs;
    try (vm_compute in Hrun; injection Hrun as <-; discriminate).
  simpl. f_equal.
  eapply (proj1 (proj2 (proj2 (proj2 (proj2
            (three_timeouts_make_unhealthy (H:=λ _, None)))))));
    [exact Hfresh | exact Hrun | exact Hobj | by rewrite Hbs | exact Hlast
    | exact Hrec].
Defined.

(** C2, counterexample.  Scenario S3 goes on: after the three timeouts the
    backend is unhealthy.  The health loop then probes it and gets a 200 (or
    the poll loop registers its host and port again): the backend is healthy
    though its three most recent upstream calls all timed out, its counter
    still is 3, and the next acquire returns it. *)
Lemma probe_revives_timed_out_backend :
  let no_floats : FloatParser := λ _, None in
  let pool := mkBackendPool "m" [Backend_init "localhost" 5900 ""] 0 in
  let s3 :=
    [EvAcquire "least_load"; EvFinish 0 (UpTimeout 1000);
     EvAcquire "least_load"; EvFinish 0 (UpTimeout 1000);
     EvAcquire "least_load"; EvFinish 0 (UpTimeout 1000)] in
  let probed := s3 ++ [EvHealthCheck 0 (HealthResponse 200) 10 10 MetricsFailed] in
  let registered := s3 ++ [EvAddBackend "localhost" 5900 ""] in
  let flags (st : pool_run) :=
    (last_three_timed_out (events_of 0 (history st)),
     (λ b, (healthy b, consecutive_timeouts b)) <$> backends (run_pool st)) in
  fresh_pool pool
  ∧ (flags <$> run_events (start_run pool) s3) = Some (true, [(false, 3)])
  ∧ (flags <$> run_events (start_run pool) probed) = Some (true, [(true, 3)])
  ∧ (flags <$> run_events (start_run pool) registered) = Some (true, [(true, 3)])
  ∧ (outstanding <$> run_events (start_run pool) (probed ++ [EvAcquire "least_load"]))
    = Some [0%nat].
Proof.
  cbv zeta. split; [repeat constructor|]. split_and!; vm_compute; reflexivity.
Qed.

(** C3.  Round robin returns [list[index mod n]] and advances the index by
    one; on a pool of n healthy backends (n >= 1, whatever their load), n
    acquires in a row return the positions [index mod n],
    [(index + 1) mod n], ..., which are all the n positions, each exactly
    once. *)
Theorem round_robin_each_backend_once (pool : BackendPool) :
  (1 ≤ length (backends pool))%nat →
  Forall (λ b, healthy b = true) (backends pool) →
  let n := length (backends pool) in
  select_backend (backends pool) "round_robin" (_index pool)
  = Some (Z.to_nat (_index pool `mod` Z.of_nat n), _index pool + 1)
  ∧ ∃ order pool',
      acquire_n n pool "round_robin" = Some (order, pool')
      ∧ order = (λ k, Z.to_nat ((_index pool + Z.of_nat k) `mod` Z.of_nat n)) <$> seq 0 n
      ∧ order ≡ₚ seq 0 n
      ∧ _index pool' = _index pool + Z.of_nat n.
Proof.
  intros Hn Hall. cbv zeta.
  assert (Hne : backends pool ≠ []).
  { intros Hnil. rewrite Hnil in Hn. simpl in Hn. lia. }
  split; [by apply select_backend_round_robin|].
  destruct (acquire_n_round_robin (length (backends pool)) pool Hne Hall)
    as (pool' & Hacq & Hidx & _).
  eexists _, pool'. split_and!; [exact Hacq | done | | done].
  symmetry. apply submseteq_length_Permutation.
  - apply NoDup_submseteq; [apply NoDup_seq|].
    intros x Hx. apply elem_of_seq in Hx. apply rotation_covers. lia.
  - by rewrite length_fmap.
Qed.

(** Scenario S1: two healthy backends, three acquires: A, B, A. *)
Lemma round_robin_each_backend_once_witness :
  let pool :=
    mkBackendPool "m"
      [Backend_init "127.0.0.1" 5900 ""; Backend_init "127.0.0.1" 5910 ""] 0 in
  (fst <$> acquire_n 3 pool "round_robin") = Some [0; 1; 0]%nat
  ∧ ∃ order pool',
      acquire_n 2 pool "round_robin" = Some (order, pool')
      ∧ order ≡ₚ [0; 1]%nat.
Proof.
  cbv zeta. split; [vm_compute; reflexivity|].
  destruct (round_robin_each_backend_once
              (mkBackendPool "m"
                 [Backend_init "127.0.0.1" 5900 ""; Backend_init "127.0.0.1" 5910 ""] 0))
    as (_ & order & pool' & Hacq & _ & Hperm & _).
  - simpl. lia.
  - repeat constructor.
  - exists order, pool'. split; [exact Hacq | exact Hperm].
Defined.

(** ** Model resolution *)

(** C4 (amended).  The pool for model name m is found by trying, in this
    order: (a) m among the pool names; (b) m in the model-to-pool map, the
    mapped name being non-empty and a pool name; (c) the same after a forced
    model discovery; (d) the first pool whose name, ignoring case, contains m
    or is contained in it (m non-empty).  If all four fail the request is
    tracked as failed and answered with HTTP 404, an error text and the list
    [available], which holds the ids of the model map, or the pool names when
    the map is empty.  In scenario S4 the map is not empty: the list is
    [my_model@v2] and does not name the pool [my_model]. *)
Theorem pool_resolution_and_404 `{FloatParser} :
  (∀ (self : LoadBalancingProxy) (model : option string) (now : float)
     (env : models_env),
     let refreshed := (_fetch_backend_models self true now env).1 in
     (∀ name, lookup_direct self model = Some name →
              resolve_pool self model now env = (self, Some name))
     ∧ (∀ name, lookup_direct self model = None →
                lookup_mapped self model = Some name →
                resolve_pool self model now env = (self, Some name))
     ∧ (∀ name, lookup_direct self model = None →
                lookup_mapped self model = None →
                lookup_mapped refreshed model = Some name →
                resolve_pool self model now env = (refreshed, Some name))
     ∧ (lookup_direct self model = None →
        lookup_mapped self model = None →
        lookup_mapped refreshed model = None →
        resolve_pool self model now env = (refreshed, lookup_partial refreshed model)))
  ∧ (∀ (self : LoadBalancingProxy) (m name : string),
       (lookup_direct self (Some m) = Some name
        ↔ name = m ∧ m ∈ PyDict.keys (pools self))
       ∧ (lookup_mapped self (Some m) = Some name
          ↔ PyDict.getitem (model_to_pool self) m = Some name
            ∧ name ≠ "" ∧ name ∈ PyDict.keys (pools self))
       ∧ (lookup_partial self (Some m) = Some name
          ↔ m ≠ ""
            ∧ ∃ i pool,
                pools self !! i = Some (name, pool)
                ∧ (is_substring (lower m) (lower name)
                   || is_substring (lower name) (lower m)) = true
                ∧ ∀ j other, pools self !! j = Some other → (j < i)%nat →
                    (is_substring (lower m) (lower other.1)
                     || is_substring (lower other.1) (lower m)) = false))
  ∧ (∀ (self : LoadBalancingProxy) (rid : string) (rq : request)
       (model : option string) (path : string) (clock : readings)
       (env : models_env) (up : upstream),
       (resolve_pool self model (t_models clock) env).2 = None →
       let result := _proxy_request self rid rq model path clock env up in
       let refreshed := (resolve_pool self model (t_models clock) env).1 in
       response_status result.2 = Some 404
       ∧ result.2 = NotFound ("No backend for model: " ++ str_of_model model)
                      (match PyDict.keys (model_to_pool refreshed) with
                       | [] => PyDict.keys (pools self)
                       | ids => ids
                       end)
       ∧ status <$> PyDict.getitem (requests (tracker result.1)) rid = Some failed)
  ∧ (let r1 := s4_request s4_proxy "0000000000000001" "my_model@v2" in
     let r2 := s4_request r1.1 "0000000000000002" "MY_MODEL" in
     let r3 := s4_request r2.1 "0000000000000003" "unknown" in
     r1.2 = Forwarded 200
     ∧ r2.2 = Forwarded 200
     ∧ r3.2 = NotFound "No backend for model: unknown" ["my_model@v2"]).
Proof.
  split_and!.
  - intros self model now env. cbv zeta. unfold resolve_pool. split_and!.
    + by intros name ->.
    + by intros name -> ->.
    + by intros name -> -> ->.
    + by intros -> -> ->.
  - intros self m name. split_and!.
    + unfold lookup_direct. simpl.
      destruct (PyDict.contains (pools self) m) eqn:Hc.
      * apply PyDictFacts.contains_true in Hc. split; [by intros [= <-] | by intros [-> _]].
      * split; [done|]. intros [_ Hin]. apply PyDictFacts.contains_true in Hin. congruence.
    + unfold lookup_mapped. simpl.
      destruct (PyDict.getitem (model_to_pool self) m) as [pn|]; simpl;
        [|split; [done | by intros [? _]]].
      destruct (String.eqb_spec pn "") as [->|Hne]; simpl.
      * split; [done | by intros ([= <-] & ? & _)].
      * destruct (PyDict.contains (pools self) pn) eqn:Hc.
        -- apply PyDictFacts.contains_true in Hc.
           split; [by intros [= <-] | by intros ([= <-] & _)].
        -- split; [done|]. intros ([= <-] & _ & Hin).
           apply PyDictFacts.contains_true in Hin. congruence.
    + unfold lookup_partial. simpl.
      destruct (String.eqb_spec m "") as [->|Hne]; simpl.
      * split; [|by intros [? _]].
        destruct (list_find _ (pools self)) as [[i [n p]]|] eqn:Hf; [|done].
        apply list_find_Some in Hf as (_ & Hf & _). simpl in Hf. discriminate.
      * destruct (String.eqb_spec (lower m) "") as [Hl|Hl].
        { destruct m; [done | discriminate]. }
        simpl. split.
        -- destruct (list_find _ (pools self)) as [[i [n p]]|] eqn:Hf; [|done].
           simpl. intros [= <-]. split; [done|].
           apply list_find_Some in Hf as (Hi & Hp & Hfirst). simpl in Hp.
           exists i, p. split_and!; [done..|].
           intros j other Hj Hlt. specialize (Hfirst j other Hj Hlt).
           by apply not_true_is_false in Hfirst.
        -- intros (_ & i & pool & Hi & Hp & Hfirst).
           assert (Hf : list_find
             (λ kv : string * BackendPool,
                (is_substring (lower m) (lower kv.1)
                 || is_substring (lower kv.1) (lower m)) = true)
             (pools self) = Some (i, (name, pool))).
           { apply list_find_Some. split_and!; [done | done |].
             intros j other Hj Hlt. rewrite (Hfirst j other Hj Hlt). done. }
           by rewrite Hf.
  - intros self rid rq model path clock env up Hnone. cbv zeta.
    destruct (proxy_request_not_found self rid rq model path clock env up Hnone)
      as [-> Ht].
    split_and!; [done | | done].
    f_equal. unfold available_models.
    by destruct (resolve_pool_pools self model (t_models clock) env) as (-> & _).
  - cbv zeta. split_and!; vm_compute; reflexivity.
Qed.

(** Scenario S4, a request for a model no step finds: 404, and the tracked
    request ends as failed. *)
Lemma pool_resolution_and_404_witness :
  let no_floats : FloatParser := λ _, None in
  let result := s4_request s4_proxy "0000000000000009" "unknown" in
  (resolve_pool s4_proxy (Some "unknown") 11 s4_env).2 = None
  ∧ response_status result.2 = Some 404
  ∧ status <$> PyDict.getitem (requests (tracker result.1)) "0000000000000009"
    = Some failed.
Proof.
  cbv zeta.
  assert (Hnone : (resolve_pool s4_proxy (Some "unknown") 11 s4_env).2 = None)
    by (vm_compute; reflexivity).
  split; [exact Hnone|].
  destruct (proj1 (proj2 (proj2 (pool_resolution_and_404 (H:=λ _, None))))
              s4_proxy "0000000000000009"
              (mkRequest (Some "10.0.0.7") (λ _, None) (Inspected "hello"))
              (Some "unknown") "/v1/chat/completions" (mkReadings 10 11 12 13)
              s4_env (UpResponse 200 (Inspected "hi") 40 42) Hnone)
    as (Hs & _ & Ht).
  split; [exact Hs | exact Ht].
Defined.

(** C4, counterexample.  Scenario S4 as the code runs it: the first request
    finds its pool through the forced model discovery, the second through the
    match on names, the third is answered 404, and its [available] list is
    [my_model@v2]; [my_model] is not in it.  The same list is returned when
    the unknown model is asked for first: the search has by then run the
    discovery. *)
Lemma s4_available_lacks_my_model :
  let no_floats : FloatParser := λ _, None in
  let r1 := s4_request s4_proxy "0000000000000001" "my_model@v2" in
  let r2 := s4_request r1.1 "0000000000000002" "MY_MODEL" in
  let r3 := s4_request r2.1 "0000000000000003" "unknown" in
  let first := s4_request s4_proxy "0000000000000004" "unknown" in
  model_to_pool s4_proxy = []
  ∧ PyDict.keys (pools r2.1) = ["my_model"]
  ∧ model_to_pool r1.1 = [("my_model@v2", "my_model")]
  ∧ response_status r3.2 = Some 404
  ∧ available_of r3.2 = ["my_model@v2"]
  ∧ bool_decide ("my_model" ∈ available_of r3.2) = false
  ∧ available_of first.2 = ["my_model@v2"].
Proof. cbv zeta. split_and!; vm_compute; reflexivity. Qed.

(** ** The request tracker *)

(** C5.  Turn numbers are handed out once, at [submit], by incrementing the
    session's counter: along every run of a tracker that starts empty, the
    turn numbers issued to a session [s] are exactly 1, 2, ..., K, in this
    order, where K is the session's counter at the end of the run.  No call
    lowers a counter, and the cleanup never touches the counters, so the
    first submit for [s] after a cleanup gets K + 1, whatever the cleanup
    evicted. *)
Theorem turn_numbers_are_1_to_K {T : Type} `{Timestamp T} :
  (∀ (mh : Z) (ci st : T) (ops : list (tracker_op T)) (s : string),
     turns_issued s (RequestTracker_init mh ci st) ops
     = seqZ 1 (turn_counter (run_ops (RequestTracker_init mh ci st) ops) s))
  ∧ (∀ (self : RequestTracker T) (ops : list (tracker_op T)) (s : string),
       turn_counter self s ≤ turn_counter (run_ops self ops) s)
  ∧ (∀ (self : RequestTracker T) (now : T),
       _session_turn_counters (_cleanup_old_requests self now)
       = _session_turn_counters self)
  ∧ (∀ (self : RequestTracker T) (now now' : T) (rid src mdl pth s : string)
       (tid cid cmd : option string),
       s ≠ "" →
       turn_number
         (submit (_cleanup_old_requests self now) now' rid src mdl pth
            (Some s) tid cid cmd).1
       = Some (turn_counter self s + 1)).
Proof.
  split_and!.
  - intros mh ci st ops s.
    destruct (turns_issued_from (RequestTracker_init mh ci st) ops s) as [_ ->].
    unfold turn_counter at 1 3. simpl. rewrite lookup_empty. simpl.
    f_equal. lia.
  - intros self ops s. apply turns_issued_from.
  - intros. apply cleanup_counters.
  - intros self now now' rid src mdl pth s tid cid cmd Hs.
    rewrite (proj1 (submit_turn_truthy _ now' rid src mdl pth s tid cid cmd Hs)).
    unfold turn_counter. by rewrite cleanup_counters.
Qed.

(** Scenario S5: five submits in session [S], all of them completed and
    dropped by the cleanup; the sixth submit gets turn 6. *)
Lemma turn_numbers_are_1_to_K_witness :
  requests s5_tracker = []
  ∧ turns_issued "S" (RequestTracker_init 1000 0.1%float 0.1%float) s5_ops
    = [1; 2; 3; 4; 5]
  ∧ turn_counter s5_tracker "S" = 5
  ∧ turn_number
      (submit (_cleanup_old_requests s5_tracker 103%float) 104%float "r6" "10.0.0.7" "m"
         "/v1/chat/completions" (Some "S") None None None).1
    = Some (turn_counter s5_tracker "S" + 1).
Proof.
  split; [vm_compute; reflexivity|].
  split; [vm_compute; reflexivity|].
  split; [vm_compute; reflexivity|].
  apply (proj2 (proj2 (proj2 (turn_numbers_are_1_to_K (T:=float))))). discriminate.
Defined.




(** C7 (amended).  The last call wins for all three operations.  [submit]
    does not look at the store: whatever is tracked under the request id, it
    stores a fresh pending record there, stamped with the new clock reading,
    and a non-empty session id gets a new turn number each time (K + 1, then
    K + 2 for the duplicate).  A second [start_processing] or [complete]
    overwrites what the first one wrote. *)
Theorem repeated_calls_last_wins {T : Type} `{Timestamp T}
    (self : RequestTracker T) (now1 now2 : T) (rid src mdl pth : string)
    (sid tid cid cmd : option string) (url1 url2 : string) (ok1 ok2 : bool) :
  let first := submit self now1 rid src mdl pth sid tid cid cmd in
  let second := submit first.2 now2 rid src mdl pth sid tid cid cmd in
  (* the duplicate submit replaces the record *)
  PyDict.getitem (requests second.2) rid = Some second.1
  ∧ second.1 = fresh_request now2 rid src mdl pth sid tid cid cmd (turn_number second.1)
  ∧ requests second.2 = PyDict.setitem (requests self) rid second.1
  (* and takes a new turn number *)
  ∧ (∀ s : string, sid = Some s → s ≠ "" →
       turn_number first.1 = Some (turn_counter self s + 1)
       ∧ turn_number second.1 = Some (turn_counter self s + 2)
       ∧ turn_counter second.2 s = turn_counter self s + 2)
  (* start_processing and complete: the second call overwrites the first *)
  ∧ start_processing (start_processing self now1 rid url1) now2 rid url2
    = start_processing self now2 rid url2
  ∧ complete (complete self now1 rid ok1) now2 rid ok2
    = complete self now2 rid ok2.
Proof.
  cbv zeta. split_and!.
  - rewrite (proj2 (submit_record _ now2 rid src mdl pth sid tid cid cmd)).
    apply PyDictFacts.getitem_setitem_eq.
  - apply submit_record.
  - rewrite (proj2 (submit_record _ now2 rid src mdl pth sid tid cid cmd)).
    rewrite (proj2 (submit_record self now1 rid src mdl pth sid tid cid cmd)).
    apply PyDictFacts.setitem_setitem.
  - intros s -> Hs.
    pose proof (submit_turn_truthy self now1 rid src mdl pth s tid cid cmd Hs) as [Ht1 Hc1].
    pose proof (submit_turn_truthy
      (submit self now1 rid src mdl pth (Some s) tid cid cmd).2
      now2 rid src mdl pth s tid cid cmd Hs) as [Ht2 Hc2].
    assert (Hk : turn_counter (submit self now1 rid src mdl pth (Some s) tid cid cmd).2 s
                 = turn_counter self s + 1).
    { unfold turn_counter at 1. by rewrite Hc1, lookup_insert_eq. }
    rewrite Hk in Ht2, Hc2. split_and!; [done| rewrite Ht2; f_equal; lia |].
    unfold turn_counter at 1. rewrite Hc2, lookup_insert_eq. simpl. lia.
  - by apply update_request_twice.
  - by apply update_request_twice.
Qed.

(** The same id submitted twice in session [S]: turns 1 and 2. *)
Lemma repeated_calls_last_wins_witness :
  let t0 : RequestTracker float := RequestTracker_init 1000 60%float 600%float in
  let first :=
    submit t0 1%float "r" "10.0.0.7" "m" "/v1/models" (Some "S") None None None in
  let second :=
    submit first.2 2%float "r" "10.0.0.7" "m" "/v1/models" (Some "S") None None None in
  turn_number first.1 = Some (turn_counter t0 "S" + 1)
  ∧ turn_number second.1 = Some (turn_counter t0 "S" + 2)
  ∧ turn_counter second.2 "S" = turn_counter t0 "S" + 2.
Proof.
  cbv zeta.
  apply (proj1 (proj2 (proj2 (proj2
    (repeated_calls_last_wins (RequestTracker_init 1000 60%float 600%float)
       1%float 2%float "r" "10.0.0.7" "m" "/v1/models" (Some "S") None None None
       "http://a:1" "http://b:2" true false)))) "S"); [reflexivity | discriminate].
Defined.

(** C7, counterexample.  One request in session [s] is submitted, started
    and completed; then the same id is submitted again with the same
    arguments at the same clock reading.  The duplicate is observable: the
    record is pending again, its start, completion and backend are gone, and
    it carries turn 2 instead of turn 1.  So it is when the second submit
    follows the first at once: the record then carries the later clock
    reading and turn 2, and the session's counter is 2. *)
Lemma duplicate_submit_is_observable :
  let t0 : RequestTracker float := RequestTracker_init 1000 60%float 600%float in
  let submit_r self now :=
    (submit self now "r" "10.0.0.1" "m" "/v1/chat/completions"
       (Some "s") None None None).2 in
  let once :=
    complete (start_processing (submit_r t0 100%float) 101%float "r" "http://a:5900")
      102%float "r" true in
  let twice := submit_r once 100%float in
  let at_once := submit_r (submit_r t0 100%float) 100.5%float in
  let seen self :=
    (λ r, (status r, submitted_at r, backend r, turn_number r))
      <$> PyDict.getitem (requests self) "r" in
  seen once = Some (completed, 100%float, Some "http://a:5900", Some 1)
  ∧ seen twice = Some (pending, 100%float, None, Some 2)
  ∧ turn_counter once "s" = 1
  ∧ turn_counter twice "s" = 2
  ∧ seen (submit_r t0 100%float) = Some (pending, 100%float, None, Some 1)
  ∧ seen at_once = Some (pending, 100.5%float, None, Some 2)
  ∧ turn_counter (submit_r t0 100%float) "s" = 1
  ∧ turn_counter at_once "s" = 2.
Proof. cbv zeta. split_and!; vm_compute; reflexivity. Qed.

(** ** The poll loop *)




(** ** Load refresh *)




(** ** The model map *)

(** C10 (amended).  The model-to-pool map never shrinks and no pool is ever
    dropped from the proxy: whatever the proxy does (backends added or
    removed, model discoveries, requests, health checks, load refreshes,
    tracker cleanups), an id of the map stays in the map and a pool name
    stays a pool name.  A forced discovery writes the registrations of its
    pass into the map, in order, so the last pool to advertise an id in the
    pass wins and ids that are not advertised keep their entry.  An id of the
    map appears in the [available] list of every later 404, and it resolves to
    its (non-empty) pool name, also when that pool has no backend left,
    unless the id is itself the name of a pool: the direct lookup comes
    first. *)
Theorem model_map_never_shrinks `{FloatParser} :
  (∀ (self : LoadBalancingProxy) (ops : list proxy_op) (id : string),
     id ∈ PyDict.keys (model_to_pool self) →
     id ∈ PyDict.keys (model_to_pool (run_proxy_ops self ops)))
  ∧ (∀ (self : LoadBalancingProxy) (ops : list proxy_op) (name : string),
       name ∈ PyDict.keys (pools self) →
       name ∈ PyDict.keys (pools (run_proxy_ops self ops)))
  ∧ (∀ (self : LoadBalancingProxy) (now : float) (env : models_env) (id : string),
       let discovered := (_fetch_backend_models self true now env).1 in
       model_to_pool discovered
       = register_all (model_to_pool self) (registrations env (pools self))
       ∧ PyDict.getitem (model_to_pool discovered) id
         = match last (filter (λ r : string * string, r.1 = id)
                         (registrations env (pools self))) with
           | Some r => Some r.2
           | None => PyDict.getitem (model_to_pool self) id
           end)
  ∧ (∀ (self : LoadBalancingProxy) (id pool_name : string) (now : float)
       (env : models_env),
       PyDict.getitem (model_to_pool self) id = Some pool_name →
       pool_name ≠ "" →
       pool_name ∈ PyDict.keys (pools self) →
       id ∉ PyDict.keys (pools self) →
       resolve_pool self (Some id) now env = (self, Some pool_name))
  ∧ (∀ (self : LoadBalancingProxy) (rid : string) (rq : request)
       (model : option string) (path : string) (clock : readings)
       (env : models_env) (up : upstream) (error : string)
       (available : list string) (id : string),
       (_proxy_request self rid rq model path clock env up).2
       = NotFound error available →
       id ∈ PyDict.keys (model_to_pool self) →
       id ∈ available).
Proof.
  split_and!.
  - intros self ops. apply run_proxy_ops_keeps.
  - intros self ops. apply run_proxy_ops_keeps.
  - intros self now env id. cbv zeta. rewrite fetch_backend_models_forced.
    split; [done | apply register_all_last].
  - intros self id pool_name now env. apply resolve_pool_mapped.
  - intros self rid rq model path clock env up error available id Hresp Hin.
    rewrite (proxy_request_404_available _ _ _ _ _ _ _ _ _ _ Hresp).
    pose proof (resolve_pool_keys self model (t_models clock) env id Hin) as Hk.
    destruct (PyDict.keys (model_to_pool (resolve_pool self model (t_models clock) env).1));
      [by apply elem_of_nil in Hk | done].
Qed.

(** The only backend of pool [b] is removed: the id [a] stays in the map and
    still resolves to [b]. *)
Lemma model_map_never_shrinks_witness :
  let no_floats : FloatParser := λ _, None in
  let emptied := run_proxy_ops relabel_proxy [PxRemoveBackend "localhost" 5910] in
  PyDict.getitem (model_to_pool relabel_proxy) "a" = Some "b"
  ∧ (backends <$> PyDict.getitem (pools emptied) "b") = Some []
  ∧ "a" ∈ PyDict.keys (model_to_pool emptied)
  ∧ resolve_pool emptied (Some "a") 2 (λ _ _, ModelsFailed) = (emptied, Some "b").
Proof.
  cbv zeta.
  assert (Hin : "a" ∈ PyDict.keys (model_to_pool relabel_proxy))
    by (vm_compute; apply list_elem_of_here).
  split; [vm_compute; reflexivity|]. split; [vm_compute; reflexivity|].
  split.
  - by apply (proj1 (model_map_never_shrinks (H:=λ _, None))).
  - apply (proj1 (proj2 (proj2 (proj2 (model_map_never_shrinks (H:=λ _, None)))))).
    + vm_compute; reflexivity.
    + discriminate.
    + vm_compute. apply list_elem_of_here.
    + vm_compute. intros Hc. apply list_elem_of_singleton in Hc. discriminate.
Defined.

(** C10, counterexample.  The id [a] is learned from pool [b] and resolves
    to it.  Then a backend is registered under the pool name [a]: the map
    still sends [a] to [b], the last pool that advertised it, but the request
    is now served by pool [a]. *)
Lemma learned_id_shadowed_by_pool_name :
  let no_floats : FloatParser := λ _, None in
  let before := relabel_proxy in
  let after := run_proxy_ops before [PxAddBackend "a" "localhost" 5900 ""] in
  let handle self :=
    _proxy_request self "0000000000000001"
      (mkRequest None (λ _, None) (Inspected "")) (Some "a") "/v1/models"
      (mkReadings 10 11 12 13) relabel_env (UpResponse 200 (Inspected "") 20 21) in
  let served self name :=
    (λ pool, request_count <$> backends pool)
      <$> PyDict.getitem (pools (handle self).1) name in
  (resolve_pool before (Some "a") 11 relabel_env).2 = Some "b"
  ∧ served before "b" = Some [1]
  ∧ PyDict.getitem (model_to_pool after) "a" = Some "b"
  ∧ PyDict.getitem (model_to_pool (handle after).1) "a" = Some "b"
  ∧ (resolve_pool after (Some "a") 11 relabel_env).2 = Some "a"
  ∧ served after "a" = Some [1]
  ∧ served after "b" = Some [0].
Proof. cbv zeta. split_and!; vm_compute; reflexivity. Qed.

(** * Further properties *)

(** ** Strategies and pools *)

(** X1.  With a healthy backend in the pool, ["least_connections"] returns
    a healthy backend whose in-flight counter is least among the healthy
    ones, and ["least_load"] one whose [gpu_load + inflight] is least; the
    backend is counted in and the rotation index advances by one. *)
Theorem least_strategies_pick_a_minimum (pool : BackendPool) :
  (∃ b, b ∈ backends pool ∧ healthy b = true) →
  picks_minimum connections_score pool "least_connections"
  ∧ picks_minimum load_score pool "least_load".
Proof.
  intros Hh. split.
  - apply get_backend_by_minimum; [|done].
    intros bs index. apply select_backend_least_connections.
  - apply get_backend_by_minimum; [|done].
    intros bs index. apply select_backend_least_load.
Qed.

(** Three backends: the busiest is skipped, the unhealthy idle one too. *)
Lemma least_strategies_pick_a_minimum_witness :
  let a := with_load (with_inflight (Backend_init "a" 5900 "") 2) 1 0 in
  let b := with_healthy (Backend_init "b" 5900 "") false in
  let c := with_load (with_inflight (Backend_init "c" 5900 "") 1) 5 0 in
  let pool := mkBackendPool "m" [a; b; c] 7 in
  picks_minimum connections_score pool "least_connections"
  ∧ picks_minimum load_score pool "least_load"
  ∧ (∃ pool', get_backend pool "least_connections" = Acquired 2 pool')
  ∧ (∃ pool', get_backend pool "least_load" = Acquired 0 pool').
Proof.
  cbv zeta.
  set (pool := mkBackendPool "m" _ 7).
  destruct (least_strategies_pick_a_minimum pool) as [Hc Hl].
  { eexists. split; [apply list_elem_of_here | reflexivity]. }
  split; [exact Hc|]. split; [exact Hl|].
  split; eexists; vm_compute; reflexivity.
Defined.

(** X2.  A strategy name that [select_backend] does not know is no error:
    [get_backend] returns the first healthy backend of the pool, counted in,
    and leaves the rotation index as it is; without a healthy backend it
    returns [None] as for every strategy. *)
Theorem unknown_strategy_takes_first_healthy (pool : BackendPool) (strategy : string) :
  known_strategy strategy = false →
  get_backend pool strategy
  = match list_find (λ b, healthy b = true) (backends pool) with
    | Some (pos, _) =>
        Acquired pos
          (mkBackendPool (pool_model pool) (counted_in pos (backends pool))
             (_index pool))
    | None => NoHealthyBackend
    end.
Proof.
  intros Hk. pose proof (healthy_backends_head pool) as Hhead.
  unfold get_backend.
  destruct (healthy_backends pool) as [|[pos b] hbs] eqn:Hhb; simpl in Hhead.
  - by rewrite <- Hhead.
  - rewrite <- Hhead.
    rewrite (select_backend_unknown _ _ _ Hk) by done. simpl.
    assert (Hl : healthy_backends pool !! 0%nat = Some (pos, b)) by by rewrite Hhb.
    apply healthy_backends_lookup in Hl as [Hb _]. unfold counted_in.
    by rewrite (insert_as_alter _ _ _ (λ b, with_inflight b (inflight b + 1)) Hb).
Qed.

Lemma unknown_strategy_takes_first_healthy_witness :
  let a := with_healthy (Backend_init "a" 5900 "") false in
  let b := Backend_init "b" 5900 "" in
  let pool := mkBackendPool "m" [a; b; b] 4 in
  known_strategy "random" = false
  ∧ get_backend pool "random"
    = Acquired 1 (mkBackendPool "m" [a; with_inflight b 1; b] 4).
Proof.
  cbv zeta. split; [reflexivity|].
  rewrite unknown_strategy_takes_first_healthy by reflexivity.
  vm_compute. reflexivity.
Defined.

(** X3.  [BackendPool.add_backend] keeps one backend per [(host, port)].
    If the endpoint is new, a backend with zeroed counters is appended;
    otherwise the backend already there is marked healthy and takes the
    partition when one is given, and nothing else about it changes.  All
    other backends and the rotation index are left alone, and registering
    the same endpoint a second time changes nothing. *)
Theorem add_backend_keeps_one_per_endpoint (pool : BackendPool) (h : string)
    (p : Z) (part : string) :
  unique_endpoints (backends pool) →
  let pool' := add_backend pool h p part in
  unique_endpoints (backends pool')
  ∧ endpoints_of (backends pool')
    = (if decide ((h, p) ∈ endpoints_of (backends pool))
       then endpoints_of (backends pool)
       else endpoints_of (backends pool) ++ [(h, p)])
  ∧ (∀ pos b, backends pool !! pos = Some b →
       backends pool' !! pos
       = Some (if decide ((host b, port b) = (h, p)) then reregistered part b else b))
  ∧ ((h, p) ∉ endpoints_of (backends pool) →
     backends pool' = backends pool ++ [Backend_init h p part])
  ∧ _index pool' = _index pool
  ∧ add_backend pool' h p part = pool'.
Proof.
  intros Hu. cbv zeta. unfold add_backend. cbn [backends with_backends _index].
  pose proof (add_backend_to_spec (backends pool) h p part) as Hadd.
  destruct (endpoint_position h p (backends pool)) as [pos|] eqn:Hpos.
  - destruct Hadd as [_ Hadd]. rewrite Hadd.
    pose proof Hpos as Hpos'.
    apply endpoint_position_Some in Hpos' as (b0 & Hb0 & He0 & Hfirst).
    assert (Hin : (h, p) ∈ endpoints_of (backends pool)).
    { apply list_elem_of_fmap. exists b0. split; [done|].
      by eapply list_elem_of_lookup_2. }
    rewrite decide_True by done.
    rewrite (endpoints_of_alter _ _ _ (reregistered_endpoint part)).
    split_and!; [| done | | done | done |].
    + unfold unique_endpoints.
      by rewrite (endpoints_of_alter _ _ _ (reregistered_endpoint part)).
    + intros q b Hb. rewrite list_lookup_alter.
      destruct (decide (pos = q)) as [->|Hne].
      * rewrite Hb. simpl. assert (b = b0) as -> by congruence.
        by rewrite decide_True.
      * rewrite Hb. destruct (decide ((host b, port b) = (h, p))) as [He|]; [|done].
        exfalso. apply Hne. unfold unique_endpoints, endpoints_of in Hu.
        eapply (NoDup_lookup _ _ _ (h, p) Hu); rewrite list_lookup_fmap.
        -- by rewrite Hb0; simpl; rewrite He0.
        -- by rewrite Hb; simpl; rewrite He.
    + unfold with_backends. cbn [pool_model backends _index]. f_equal.
      pose proof (add_backend_to_spec
                    (alter (reregistered part) pos (backends pool)) h p part) as Hadd2.
      rewrite (endpoint_position_alter _ _ _ _ _ (reregistered_endpoint part)), Hpos
        in Hadd2.
      destruct Hadd2 as [_ ->]. rewrite alter_alter.
      apply list_alter_ext; [|done]. intros b _. apply reregistered_twice.
  - rewrite Hadd. pose proof Hpos as Hn. apply endpoint_position_None in Hn.
    rewrite decide_False by done.
    split_and!; [| | | done | done |].
    + unfold unique_endpoints, endpoints_of in *. rewrite fmap_app. simpl.
      apply NoDup_app. split_and!; [done | | apply NoDup_singleton].
      by intros x Hx ->%list_elem_of_singleton.
    + unfold endpoints_of. by rewrite fmap_app.
    + intros q b Hb. rewrite lookup_app_l by by eapply lookup_lt_Some.
      rewrite Hb. rewrite decide_False; [done|].
      intros He. apply Hn. apply list_elem_of_fmap. exists b.
      split; [done | by eapply list_elem_of_lookup_2].
    + unfold with_backends. cbn [pool_model backends _index]. f_equal.
      pose proof (add_backend_to_spec
                    (backends pool ++ [Backend_init h p part]) h p part) as Hadd2.
      rewrite (endpoint_position_snoc _ _ _ _ Hpos) in Hadd2.
      destruct Hadd2 as [_ ->].
      apply list_eq. intros i. rewrite list_lookup_alter.
      destruct (decide (length (backends pool) = i)) as [<-|]; [|done].
      rewrite list_lookup_middle by done. simpl. by rewrite reregistered_init.
Qed.

(** A backend that was marked unhealthy and has requests in flight is
    registered again under another partition. *)
Lemma add_backend_keeps_one_per_endpoint_witness :
  let a := with_inflight (with_healthy (Backend_init "localhost" 5900 "p1") false) 2 in
  let b := Backend_init "localhost" 5910 "p1" in
  let pool := mkBackendPool "m" [a; b] 3 in
  unique_endpoints (backends pool)
  ∧ backends (add_backend pool "localhost" 5900 "p2")
    = [with_inflight (Backend_init "localhost" 5900 "p2") 2; b]
  ∧ unique_endpoints (backends (add_backend pool "localhost" 5900 "p2")).
Proof.
  cbv zeta.
  assert (Hu : unique_endpoints
                 (backends (mkBackendPool "m"
                    [with_inflight (with_healthy (Backend_init "localhost" 5900 "p1") false) 2;
                     Backend_init "localhost" 5910 "p1"] 3))).
  { unfold unique_endpoints. apply (bool_decide_unpack _). vm_compute. exact I. }
  split; [exact Hu|]. split; [vm_compute; reflexivity|].
  apply (add_backend_keeps_one_per_endpoint _ "localhost" 5900 "p2" Hu).
Defined.

(** X4.  [BackendPool.remove_backend] tells whether the endpoint was in the
    pool.  In a pool with one backend per endpoint it leaves no backend at
    [(host, port)], keeps all others in their order, and does not touch the
    rotation index; removing an endpoint that was just added to a pool that
    did not have it gives the pool back. *)
Theorem remove_backend_pops_the_endpoint (pool : BackendPool) (h : string) (p : Z) :
  unique_endpoints (backends pool) →
  let result := remove_backend pool h p in
  result.2 = bool_decide ((h, p) ∈ endpoints_of (backends pool))
  ∧ backends result.1 = filter (λ b, (host b, port b) ≠ (h, p)) (backends pool)
  ∧ ((h, p) ∉ endpoints_of (backends result.1))
  ∧ unique_endpoints (backends result.1)
  ∧ _index result.1 = _index pool
  ∧ ((h, p) ∉ endpoints_of (backends pool) →
     result = (pool, false)
     ∧ ∀ part, remove_backend (add_backend pool h p part) h p = (pool, true)).
Proof.
  intros Hu. cbv zeta.
  assert (Hrm : ∀ pool0 : BackendPool,
            remove_backend pool0 h p
            = (with_backends pool0 (remove_backend_from (backends pool0) h p).1,
               (remove_backend_from (backends pool0) h p).2)).
  { intros pool0. unfold remove_backend. by destruct (remove_backend_from _ _ _). }
  rewrite Hrm. cbn [fst snd backends with_backends _index].
  rewrite remove_backend_from_flag, remove_backend_from_spec.
  assert (Hfilter : match endpoint_position h p (backends pool) with
                    | Some pos => delete pos (backends pool)
                    | None => backends pool
                    end = filter (λ b, (host b, port b) ≠ (h, p)) (backends pool)).
  { destruct (endpoint_position h p (backends pool)) as [pos|] eqn:Hpos.
    - by apply delete_endpoint.
    - symmetry. apply filter_Forall_id, Forall_forall. intros b Hb He.
      apply endpoint_position_None in Hpos. apply Hpos.
      apply list_elem_of_fmap. by exists b. }
  rewrite Hfilter. split_and!.
  - destruct (endpoint_position h p (backends pool)) as [pos|] eqn:Hpos.
    + symmetry. apply bool_decide_eq_true.
      apply endpoint_position_Some in Hpos as (b & Hb & He & _).
      apply list_elem_of_fmap. exists b. split; [done | by eapply list_elem_of_lookup_2].
    + symmetry. apply bool_decide_eq_false. by apply endpoint_position_None.
  - done.
  - intros Hin. apply list_elem_of_fmap in Hin as (b & He & Hb).
    by apply list_elem_of_filter in Hb as [Hne _].
  - unfold unique_endpoints, endpoints_of in *.
    eapply sublist_NoDup; [|apply fmap_sublist, sublist_filter]. done.
  - done.
  - intros Hn. pose proof Hn as Hnone. apply endpoint_position_None in Hnone.
    split.
    + rewrite <- Hfilter, Hnone. by destruct pool.
    + intros part. rewrite Hrm. unfold add_backend.
      cbn [backends with_backends].
      rewrite remove_backend_from_flag, remove_backend_from_spec.
      pose proof (add_backend_to_spec (backends pool) h p part) as Hadd.
      rewrite Hnone in Hadd. rewrite Hadd.
      rewrite (endpoint_position_snoc _ _ _ _ Hnone).
      replace (delete (length (backends pool))
                 (backends pool ++ [Backend_init h p part])) with (backends pool).
      * by destruct pool.
      * rewrite delete_take_drop, take_app_length.
        rewrite drop_ge by (rewrite length_app; simpl; lia).
        by rewrite app_nil_r.
Qed.

Lemma remove_backend_pops_the_endpoint_witness :
  let a := Backend_init "localhost" 5900 "p1" in
  let b := Backend_init "localhost" 5910 "p1" in
  let pool := mkBackendPool "m" [a; b] 3 in
  unique_endpoints (backends pool)
  ∧ remove_backend pool "localhost" 5900 = (mkBackendPool "m" [b] 3, true)
  ∧ ("localhost", 5900) ∉ endpoints_of (backends (remove_backend pool "localhost" 5900).1).
Proof.
  cbv zeta.
  assert (Hu : unique_endpoints
                 (backends (mkBackendPool "m"
                    [Backend_init "localhost" 5900 "p1";
                     Backend_init "localhost" 5910 "p1"] 3))).
  { unfold unique_endpoints. apply (bool_decide_unpack _). vm_compute. exact I. }
  split; [exact Hu|]. split; [vm_compute; reflexivity|].
  apply (remove_backend_pops_the_endpoint _ "localhost" 5900 Hu).
Defined.

(** X5.  The statistics of a backend count its upstream calls.  Along every
    interleaving of acquires, completions, health checks, load refreshes,
    registrations and removals on a pool of unused backends, the
    [request_count] of a backend in the pool is the number of its upstream
    calls that ended with a response, a timeout or a transport error, and
    its [error_count] the number of those that ended with a status of 500 or
    more, a timeout or a transport error; so errors never outnumber
    requests.  Probes, load refreshes and registrations leave both alone. *)
Theorem backend_statistics_count_outcomes `{FloatParser}
    (pool : BackendPool) (evs : list pool_event) (st : pool_run)
    (pos obj : nat) (b : Backend) :
  Forall unused (backends pool) →
  run_events (start_run pool) evs = Some st →
  members st !! pos = Some obj →
  backends (run_pool st) !! pos = Some b →
  request_count b = count_outcomes recorded (events_of obj (history st))
  ∧ error_count b = count_outcomes recorded_as_error (events_of obj (history st))
  ∧ 0 ≤ error_count b ≤ request_count b.
Proof.
  intros Hun Hrun Hobj Hb.
  assert (Hfresh : fresh_pool pool).
  { unfold fresh_pool. eapply Forall_impl; [exact Hun|].
    by intros b0 (? & ? & _). }
  assert (Hstart : objects_satisfy accounted (start_run pool)).
  { intros q x b0 Hq Hb0. simpl in *. rewrite Forall_lookup in Hun.
    by destruct (Hun _ _ Hb0) as (_ & _ & ? & ?). }
  destruct (objects_satisfy_events accounted accounted_law evs _ _
              (run_inv_start pool Hfresh) Hstart Hrun pos obj b Hobj Hb)
    as [Hr He].
  pose proof (count_outcomes_le (events_of obj (history st))) as Hle.
  split_and!; [done | done | lia | lia].
Qed.

(** One backend serves four requests: a 200, a 503, a timeout and one whose
    handler fails before the call; a probe comes in between. *)
Lemma backend_statistics_count_outcomes_witness :
  let no_floats : FloatParser := λ _, None in
  let pool := mkBackendPool "m" [Backend_init "localhost" 5900 ""] 0 in
  let evs :=
    [EvAcquire "least_load"; EvAcquire "least_load";
     EvFinish 0 (UpResponse 200 (Inspected "") 12 15);
     EvHealthCheck 0 (HealthResponse 200) 10 10 MetricsFailed;
     EvFinish 0 (UpResponse 503 (Inspected "") 12 15);
     EvAcquire "least_load"; EvFinish 0 (UpTimeout 1000);
     EvAcquire "least_load"; EvFinish 0 UpOtherError] in
  Forall unused (backends pool)
  ∧ ∃ st b, run_events (start_run pool) evs = Some st
            ∧ backends (run_pool st) !! 0%nat = Some b
            ∧ request_count b = 3 ∧ error_count b = 2
            ∧ count_outcomes recorded (events_of 0 (history st)) = 3.
Proof.
  cbv zeta.
  set (pool := mkBackendPool "m" _ 0). set (evs := [_; _; _; _; _; _; _; _; _]).
  assert (Hun : Forall unused (backends pool)) by (repeat constructor).
  split; [exact Hun|].
  destruct (run_events (H:=λ _, None) (start_run pool) evs) as [st|] eqn:Hrun;
    [|vm_compute in Hrun; discriminate].
  assert (Hobj : members st !! 0%nat = Some 0%nat).
  { vm_compute in Hrun. injection Hrun as <-. reflexivity. }
  destruct (backends (run_pool st) !! 0%nat) as [b|] eqn:Hb;
    [|vm_compute in Hrun; injection Hrun as <-; discriminate].
  assert (Hcount : count_outcomes recorded (events_of 0 (history st)) = 3).
  { vm_compute in Hrun. injection Hrun as <-. reflexivity. }
  assert (Herr : count_outcomes recorded_as_error (events_of 0 (history st)) = 2).
  { vm_compute in Hrun. injection Hrun as <-. reflexivity. }
  destruct (backend_statistics_count_outcomes (H:=λ _, None) pool evs st 0 0 b
              Hun Hrun Hobj Hb) as (Hr & He & _).
  exists st, b. split_and!; [done | done | | | done].
  - by rewrite Hr.
  - by rewrite He.
Defined.

(** ** The request store *)

(** X6. Whatever calls of [submit], [start_processing], [complete] and the
    clean-up are made on a fresh tracker, the store keeps one record per
    request id, each record is stored under its own id, a pending record has
    no start time, no completion time and no backend, a record in flight has
    a start time and a backend, and a completed or failed record has a
    completion time. *)
Theorem tracked_records_match_their_status {T : Type} `{Timestamp T}
    (mh : Z) (ci st : T) (ops : list (tracker_op T)) :
  let t := run_ops (RequestTracker_init mh ci st) ops in
  PyDict.wf (requests t)
  ∧ ∀ rid req, PyDict.getitem (requests t) rid = Some req →
               record_consistent rid req.
Proof.
  cbv zeta.
  apply (run_ops_ind
           (λ t, PyDict.wf (requests t)
                 ∧ ∀ rid req, PyDict.getitem (requests t) rid = Some req →
                              record_consistent rid req)).
  - split; [apply NoDup_nil_2 | done].
  - intros t op [Hwf Hok]. split.
    + by apply run_op_wf.
    + by apply store_consistent_step.
Qed.

(** X7. Turn numbers are handed out once: along every run of tracker calls
    from a fresh tracker, a stored record with a turn number belongs to a
    session with a non-empty id and its number lies between 1 and the
    session's counter, a record without one has no session id (or an empty
    one), two records of one session with the same turn number are the same
    entry, and a session with a non-empty id has at most as many stored
    records as its counter says. *)
Theorem turn_numbers_are_handed_out_once {T : Type} `{Timestamp T}
    (mh : Z) (ci st : T) (ops : list (tracker_op T)) :
  let t := run_ops (RequestTracker_init mh ci st) ops in
  (∀ rid req, PyDict.getitem (requests t) rid = Some req → turn_in_range t req)
  ∧ (∀ rid1 rid2 req1 req2 k,
        PyDict.getitem (requests t) rid1 = Some req1 →
        PyDict.getitem (requests t) rid2 = Some req2 →
        session_id req1 = session_id req2 →
        turn_number req1 = Some k → turn_number req2 = Some k →
        rid1 = rid2)
  ∧ (∀ s, s ≠ "" →
          Z.of_nat (length (session_requests s t)) ≤ turn_counter t s).
Proof.
  cbv zeta. pose proof (turns_inv_run mh ci st ops) as Hinv.
  split_and!.
  - apply Hinv.
  - apply Hinv.
  - intros s Hs. by apply session_requests_bound.
Qed.

(** X8. Running the clean-up a second time at the same clock reading changes
    nothing: on every tracker reached from a fresh one, the second run finds
    no expired record, and either the store is within [max_history] or no
    finished record is left to drop. *)
Theorem second_cleanup_changes_nothing {T : Type} `{Timestamp T}
    (mh : Z) (ci st : T) (ops : list (tracker_op T)) (now : T) :
  let t := run_ops (RequestTracker_init mh ci st) ops in
  _cleanup_old_requests (_cleanup_old_requests t now) now
  = _cleanup_old_requests t now.
Proof.
  cbv zeta. apply cleanup_twice.
  apply (run_ops_ind (λ t, PyDict.wf (requests t))).
  - apply NoDup_nil_2.
  - intros t op Hwf. by apply run_op_wf.
Qed.

(** X9. The session list of [get_status] counts the store: it has one entry
    per non-empty session id met in the store and none else; an entry's
    [total_requests] is the number of stored requests of the session and is
    at least 1; its four status counters count the session's requests of
    each status and add up to the total; [total_turns] is the session's turn
    counter; and [completed_turns] holds the session's completed requests
    with a start and a completion time, sorted by submission time. *)
Theorem session_report_counts_the_store {T : Type} `{Timestamp T}
    (self : RequestTracker T) :
  let stored := PyDict.values (requests self) in
  let sessions := PyDict.values (session_map_of self) in
  NoDup (si_session_id <$> sessions)
  ∧ (∀ r, r ∈ stored → truthy_str (session_id r) = true →
          ∃ sess, sess ∈ sessions ∧ session_id r = Some (si_session_id sess))
  ∧ (∀ sess, sess ∈ sessions →
       let sid := si_session_id sess in
       sid ≠ ""
       ∧ 0 < si_total_requests sess
       ∧ si_total_requests sess = session_count self sid (λ _, true)
       ∧ si_completed_requests sess = session_count self sid (has_status completed)
       ∧ si_pending_requests sess = session_count self sid (has_status pending)
       ∧ si_in_flight_requests sess = session_count self sid (has_status in_flight)
       ∧ si_failed_requests sess = session_count self sid (has_status failed)
       ∧ si_total_requests sess
         = si_completed_requests sess + si_pending_requests sess
           + si_in_flight_requests sess + si_failed_requests sess
       ∧ si_total_turns sess = turn_counter self sid
       ∧ si_completed_turns sess
         = py_sort (λ a b, ts_lt (submitted_at a) (submitted_at b))
             (turns_in stored sid)).
Proof.
  cbv zeta. split_and!.
  - rewrite session_map_ids.
    apply (sm_wf self _ _ (sessions_inv_fold self (PyDict.values (requests self)))).
  - apply session_map_covers.
  - intros sess Hin.
    destruct (session_map_values self sess Hin) as (sess0 & Hsort & Hc & Hpos).
    destruct Hc as [Hne Hid Htot Hcom Hpen Hinf Hfail Hturns Htt].
    pose proof (count_by_status (PyDict.values (requests self)) (si_session_id sess))
      as Hsum.
    rewrite Hsort in *. simpl in *.
    rewrite <- !count_in_store.
    split_and!; try done; try lia. by rewrite Hturns.
Qed.

(** X10. On every tracker reached from a fresh one, the session list of
    [get_status] never reports more requests for a session than turns:
    [total_requests] is at most [total_turns]. *)
Theorem reported_requests_within_turns {T : Type} `{Timestamp T}
    (mh : Z) (ci st : T) (ops : list (tracker_op T)) :
  let t := run_ops (RequestTracker_init mh ci st) ops in
  ∀ sess, sess ∈ PyDict.values (session_map_of t) →
          1 ≤ si_total_requests sess ≤ si_total_turns sess.
Proof.
  cbv zeta. intros sess Hin.
  destruct (session_map_values _ sess Hin) as (sess0 & Hsort & Hc & Hpos).
  destruct Hc as [Hne Hid Htot _ _ _ _ _ Htt].
  rewrite Hsort in *. simpl in *.
  rewrite Htot in *. rewrite Htt.
  rewrite count_in_store, session_count_requests in *.
  split; [lia|].
  apply session_requests_bound; [apply turns_inv_run | done].
Qed.

Lemma reported_requests_within_turns_witness :
  let ops := [OpSubmit 1 "r1" "cli" "my_model" "/v1/chat/completions"
                (Some "s") None None None;
              OpSubmit 2 "r2" "cli" "my_model" "/v1/chat/completions"
                (Some "s") None None None;
              OpComplete 3 "r1" true;
              OpCleanup 100] in
  let t := run_ops (RequestTracker_init 10 60 300) ops in
  let sess := mkSessionInfo "s" "" "my_model" "cli" 1 0 1 0 0 [] 2 in
  sess ∈ PyDict.values (session_map_of t)
  ∧ 1 ≤ si_total_requests sess ≤ si_total_turns sess.
Proof.
  cbv zeta.
  set (ops := [_; _; _; _]).
  set (sess := mkSessionInfo (T:=Z) "s" "" "my_model" "cli" 1 0 1 0 0 [] 2).
  assert (Hin : sess ∈ PyDict.values
                  (session_map_of (run_ops (RequestTracker_init 10 60 300) ops))).
  { replace (PyDict.values
               (session_map_of (run_ops (RequestTracker_init 10 60 300) ops)))
      with [sess] by (vm_compute; reflexivity).
    apply list_elem_of_here. }
  split; [exact Hin|].
  exact (reported_requests_within_turns 10 60 300 ops sess Hin).
Defined.

(** X11. The summary of [get_status] adds up: [total_tracked] is the size of
    the store, [pending] and [in_flight] count the stored requests of these
    two statuses whatever the length of the queues, and together with the
    finished requests they make up the store; [completed_last_minute] counts
    finished requests only.  The two queues hold at most 50 entries, all of
    them stored requests of the queue's status. *)
Theorem queue_summary_adds_up (self : RequestTracker float) (now : float) :
  let report := get_status self now in
  let stored := PyDict.values (requests self) in
  let finished := filter (λ r, is_done (status r) = true) stored in
  summary_total_tracked report = Z.of_nat (length stored)
  ∧ summary_pending report
    = Z.of_nat (length (filter (λ r, status r = pending) stored))
  ∧ summary_in_flight report
    = Z.of_nat (length (filter (λ r, status r = in_flight) stored))
  ∧ summary_pending report + summary_in_flight report + Z.of_nat (length finished)
    = summary_total_tracked report
  ∧ summary_completed_last_minute report ≤ Z.of_nat (length finished)
  ∧ length (status_pending report)
    = (50 `min` Z.to_nat (summary_pending report))%nat
  ∧ length (status_in_flight report)
    = (50 `min` Z.to_nat (summary_in_flight report))%nat
  ∧ (∀ r, r ∈ status_pending report → r ∈ stored ∧ status r = pending)
  ∧ (∀ r, r ∈ status_in_flight report → r ∈ stored ∧ status r = in_flight).
Proof.
  cbv zeta. unfold get_status. cbv zeta. simpl.
  set (stored := PyDict.values (requests self)).
  set (by_submission := λ a b : TrackedRequest float,
         PrimFloat.ltb (submitted_at a) (submitted_at b)).
  assert (Hlen : length stored = length (requests self))
    by (subst stored; unfold PyDict.values; apply length_map).
  pose proof (status_partition stored) as Hpart.
  rewrite !(Permutation_length (py_sort_perm by_submission _)).
  destruct (queue_of_status by_submission (λ r, status r = pending) stored)
    as [Hp1 Hp2].
  destruct (queue_of_status by_submission (λ r, status r = in_flight) stored)
    as [Hi1 Hi2].
  split_and!; try done; try lia.
  - pose proof (filter_length_le
                  (λ r, is_done (status r) && completed_recently now r = true)
                  (λ r, is_done (status r) = true) stored) as Hle.
    assert (Himp : ∀ r : TrackedRequest float,
              is_done (status r) && completed_recently now r = true →
              is_done (status r) = true)
      by (intros r Hr; by apply andb_true_iff in Hr as [? _]).
    specialize (Hle Himp). lia.
  - rewrite Hp1. by rewrite Nat2Z.id.
  - rewrite Hi1. by rewrite Nat2Z.id.
Qed.

(** ** Tunnels *)

(** X12. The tunnel manager keeps its endpoint list and its process table in
    step: if they name the same [(host, port)] keys, they still do after any
    sequence of [add_tunnel] and [remove_tunnel] calls (failed ones
    included), and a list without a repeated key stays so.  On such a
    manager, adding a tunnel that is not there and removing it again gives
    back the manager as it was, while [add_tunnel] for a key that has a
    process changes nothing and returns [False]. *)
Theorem tunnels_stay_in_step (self : SSHTunnelManager) (ops : list tunnel_op) :
  tunnels_in_step self →
  tunnels_in_step (run_tunnel_ops self ops)
  ∧ (NoDup (tunnel_keys self) → NoDup (tunnel_keys (run_tunnel_ops self ops)))
  ∧ (∀ model h p self' flag,
       (h, p) ∉ procs self →
       add_tunnel self model h p true = Some (self', flag) →
       flag = true ∧ (h, p) ∈ procs self' ∧ remove_tunnel self' h p = (self, true))
  ∧ (∀ model h p spawned,
       (h, p) ∈ tunnel_keys self →
       add_tunnel self model h p spawned = Some (self, false)).
Proof.
  intros Hstep. split_and!.
  - revert self Hstep. induction ops as [|op ops IH]; intros self Hstep; [done|].
    simpl. apply IH. by apply tunnels_in_step_op.
  - revert self Hstep. induction ops as [|op ops IH]; intros self Hstep Hnd; [done|].
    simpl. apply IH; [by apply tunnels_in_step_op | by apply tunnel_keys_NoDup_op].
  - intros model h p self' flag Hnot Hadd. by eapply add_then_remove_tunnel.
  - intros model h p spawned Hk. unfold add_tunnel.
    rewrite bool_decide_eq_true_2; [done|]. by apply Hstep.
Qed.

Lemma tunnels_stay_in_step_witness :
  let self := mkTunnels [("my_model", "node05", 5900)] {[("node05", 5900)]} in
  let ops := [TunnelAdd "my_model" "node07" 5910 true;
              TunnelAdd "other" "node05" 5900 true;
              TunnelAdd "other" "node09" 5920 false;
              TunnelRemove "node05" 5900] in
  tunnels_in_step self
  ∧ tunnel_keys (run_tunnel_ops self ops) = [("node07", 5910)]
  ∧ tunnels_in_step (run_tunnel_ops self ops).
Proof.
  cbv zeta.
  set (self := mkTunnels [("my_model", "node05", 5900)] {[("node05", 5900)]}).
  assert (Hstep : tunnels_in_step self).
  { intros k. unfold tunnel_keys. subst self. simpl.
    by rewrite elem_of_singleton, list_elem_of_singleton. }
  split_and!.
  - exact Hstep.
  - vm_compute. reflexivity.
  - exact (proj1 (tunnels_stay_in_step self _ Hstep)).
Defined.

(** ** The proxy *)

(** X13. Whatever a proxy that started without pools has gone through
    (registrations, removals, discoveries, requests, health checks, load
    refreshes, clean-ups), every pool is stored once, under its own model
    name, and has one backend per [(host, port)].  On such a proxy
    [remove_backend(host, port)] returns [True] exactly when some pool has a
    backend there, leaves no backend at that endpoint in any pool and keeps
    every pool, emptied or not; [add_backend(model, host, port)] leaves a
    backend at the endpoint in the pool of [model] and touches no other
    pool. *)
Theorem proxy_pools_stay_well_formed `{FloatParser}
    (strategy : string) (hc : HeadersConfig) (ops : list proxy_op) :
  let self := run_proxy_ops (LoadBalancingProxy_init strategy hc) ops in
  pools_ok (pools self)
  ∧ (∀ (h : string) (p : Z),
       let removed := proxy_remove_backend self h p in
       (removed.2 = true ↔ registered_somewhere (pools self) h p)
       ∧ ¬ registered_somewhere (pools removed.1) h p
       ∧ PyDict.keys (pools removed.1) = PyDict.keys (pools self))
  ∧ (∀ (model h : string) (p : Z) (part : string),
       let added := proxy_add_backend self model h p part in
       (∃ pool, PyDict.getitem (pools added) model = Some pool
                ∧ (h, p) ∈ endpoints_of (backends pool))
       ∧ ∀ name, name ≠ model →
                 PyDict.getitem (pools added) name = PyDict.getitem (pools self) name).
Proof.
  cbv zeta. pose proof (pools_ok_run strategy hc ops) as Hok.
  set (self := run_proxy_ops _ ops) in *.
  split_and!; [done| |].
  - intros h p. split_and!.
    + apply proxy_remove_backend_flag.
    + by apply proxy_remove_backend_gone.
    + apply proxy_remove_backend_keys.
  - intros model h p part. unfold proxy_add_backend, PyDict.contains.
    assert (Hin : ∀ bs, (h, p) ∈ endpoints_of (add_backend_to bs h p part)).
    { intros bs. rewrite add_backend_to_endpoints.
      destruct (decide _) as [|_]; [done|]. apply elem_of_app. right.
      by apply list_elem_of_singleton. }
    destruct (PyDict.getitem (pools self) model) as [pool|] eqn:Hg.
    + rewrite Hg. simpl. split.
      * eexists. split; [apply PyDictFacts.getitem_setitem_eq | apply Hin].
      * intros name Hne. by apply PyDictFacts.getitem_setitem_ne.
    + rewrite PyDictFacts.getitem_setitem_eq. simpl. split.
      * eexists. split; [apply PyDictFacts.getitem_setitem_eq | apply Hin].
      * intros name Hne. by rewrite !PyDictFacts.getitem_setitem_ne.
Qed.

(** X14. Every handled request is accounted for.  [_proxy_request] adds 1
    to [total_requests]; an answer the proxy makes up itself (404, 503, 504,
    502) and a forwarded answer with a status of 500 or more add 1 to
    [total_errors] and leave the request tracked as failed; any other
    forwarded answer adds nothing and leaves it tracked as completed; when an
    exception leaves the handler the request stays tracked as pending or in
    flight, with at most one error counted.  Hence, on a proxy started
    afresh, [total_requests] is the number of requests handled and
    [total_errors] lies between 0 and [total_requests]. *)
Theorem requests_are_accounted `{FloatParser} :
  (∀ (self : LoadBalancingProxy) (rid : string) (rq : request)
     (model : option string) (path : string) (clock : readings)
     (env : models_env) (up : upstream),
     let result := _proxy_request self rid rq model path clock env up in
     total_requests result.1 = total_requests self + 1
     ∧ accounted_as result.2 (total_errors self) (total_errors result.1)
         (tracked_status result.1 rid))
  ∧ (∀ (strategy : string) (hc : HeadersConfig) (ops : list proxy_op),
       let self := run_proxy_ops (LoadBalancingProxy_init strategy hc) ops in
       total_requests self = handled_requests ops
       ∧ 0 ≤ total_errors self ≤ total_requests self).
Proof.
  split.
  - intros. apply proxy_request_accounted.
  - intros strategy hc ops. cbv zeta.
    destruct (run_proxy_ops_totals (LoadBalancingProxy_init strategy hc) ops)
      as [Hr He].
    simpl in *. lia.
Qed.


(** X16. [_fetch_backend_models] answers from its cache, asking no backend
    and changing nothing, exactly when the call is not forced, the cached
    list is not empty and it is younger than the time to live; an empty list
    is never served from the cache.  Otherwise the list it returns holds
    each advertised model id once, in the order of first appearance, no id
    is empty, every id of the list is then in the model map under the name
    of one of the pools, and the list and the clock reading are cached. *)
Theorem discovery_lists_each_model_once (self : LoadBalancingProxy) (force : bool)
    (now : float) (env : models_env) :
  let result := _fetch_backend_models self force now env in
  (cache_fresh self force now = true → result = (self, _cached_models self))
  ∧ (_cached_models self = [] → cache_fresh self force now = false)
  ∧ (cache_fresh self force now = false →
     result.2 = seen_after [] (registrations env (pools self))
     ∧ NoDup result.2
     ∧ ("" ∉ result.2)
     ∧ (∀ id, id ∈ result.2 ↔ id ∈ (registrations env (pools self)).*1)
     ∧ (∀ id, id ∈ result.2 →
          ∃ name, PyDict.getitem (model_to_pool result.1) id = Some name
                  ∧ name ∈ PyDict.keys (pools self))
     ∧ _cached_models result.1 = result.2
     ∧ _models_cache_time result.1 = now).
Proof.
  cbv zeta. unfold _fetch_backend_models. fold (cache_fresh self force now).
  split_and!.
  - by intros ->.
  - intros Hnil. unfold cache_fresh. rewrite Hnil. by destruct force.
  - intros ->.
    pose proof (fetch_all_pools_spec env (pools self) (model_to_pool self)) as Hm.
    pose proof (fetch_all_pools_seen env (pools self) (model_to_pool self)) as Hs.
    destruct (fetch_all_pools env (pools self) (model_to_pool self))
      as [m2p all_models].
    simpl in *. subst m2p all_models.
    destruct (seen_after_spec [] (registrations env (pools self)) (NoDup_nil_2))
      as [Hnd Hin].
    assert (Hids : ∀ id, id ∈ seen_after [] (registrations env (pools self))
                         ↔ id ∈ (registrations env (pools self)).*1).
    { intros id. rewrite Hin, elem_of_nil. tauto. }
    split_and!; try done.
    + intros Hempty. apply Hids, list_elem_of_fmap in Hempty as (r & Hr & Hreg).
      apply registrations_elem in Hreg as [Hne _]. congruence.
    + intros id Hid. apply Hids, list_elem_of_fmap in Hid as (r & -> & Hreg).
      rewrite register_all_last.
      destruct (last (filter (λ r0 : string * string, r0.1 = r.1)
                        (registrations env (pools self)))) as [r'|] eqn:Hlast.
      * exists r'.2. split; [done|].
        apply last_Some_elem_of, list_elem_of_filter in Hlast as [_ Hr'].
        by apply registrations_elem in Hr' as [_ ?].
      * apply last_None in Hlast.
        assert (Hr : r ∈ filter (λ r0 : string * string, r0.1 = r.1)
                       (registrations env (pools self)))
          by by apply list_elem_of_filter.
        rewrite Hlast in Hr. by apply elem_of_nil in Hr.
Qed.

(** X17. [parse_vllm_metrics] reads each gauge off the last line that
    starts with the gauge's name and ends in a number: earlier such lines,
    lines whose last field is not a number and all other lines are ignored,
    and a gauge without such a line is absent from the result.  A gauge line
    with an infinite value makes the function raise; the load refresh
    swallows the exception, so it then leaves the backend as it is, load and
    timestamp included. *)
Theorem last_gauge_line_wins `{FloatParser} (text : string) :
  let lines := split_on "010"%char text in
  let R := readings_of "vllm:num_requests_running" lines in
  let W := readings_of "vllm:num_requests_waiting" lines in
  (¬ overflows text →
   parse_vllm_metrics text = Some (mkMetrics (last_value R) (last_value W))
   ∧ ∀ (b : Backend) (now : float),
       PrimFloat.ltb (now - load_last_updated b)%float LOAD_CACHE_TTL = false →
       _refresh_backend_load b now (MetricsResponse 200 text)
       = with_load b (default 0 (last_value R) + default 0 (last_value W)) now)
  ∧ (overflows text →
     parse_vllm_metrics text = None
     ∧ ∀ (b : Backend) (now : float) (status : Z),
         _refresh_backend_load b now (MetricsResponse status text) = b).
Proof.
  cbv zeta. unfold overflows.
  destruct (parse_lines_spec (split_on "010"%char text)) as [Hok Hbad].
  split.
  - intros Hnone.
    assert (Hparse : parse_vllm_metrics text
                     = Some (mkMetrics
                               (last_value (readings_of "vllm:num_requests_running"
                                              (split_on "010"%char text)))
                               (last_value (readings_of "vllm:num_requests_waiting"
                                              (split_on "010"%char text))))).
    { apply Hok; intros Hin; apply Hnone; [by left | by right]. }
    split; [done|]. intros b now Hdue.
    by rewrite refresh_on_200, Hparse.
  - intros Hover. pose proof (Hbad Hover) as Hparse.
    change (parse_vllm_metrics text = None) in Hparse.
    split; [done|]. intros b now status. unfold _refresh_backend_load.
    destruct (PrimFloat.ltb _ _); [done|]. destruct (status =? 200); [|done].
    by rewrite Hparse.
Qed.

(** ** Jobs and endpoints *)



(** X19. The proxy that [connect] starts has every endpoint it found.  With
    [backends = _build_backends(endpoints)], the proxy [proxy_server] builds
    has one pool per model of the list, in the order of first appearance;
    the pool of a model holds one backend per port of the model's endpoints,
    at [("localhost", port)] and in the order of first appearance (the node
    is left to the tunnel, so two endpoints of a model with the same port
    make one backend); and no pool has two backends at one address. *)
Theorem started_proxy_has_every_endpoint (endpoints : list endpoint)
    (strategy : string) (headers_config : option HeadersConfig) :
  let proxy := proxy_server (_build_backends endpoints) strategy headers_config in
  pools_ok (pools proxy)
  ∧ PyDict.keys (pools proxy)
    = seen_in_order ((λ e : endpoint, e.1.1.1) <$> endpoints)
  ∧ (∀ m, pool_endpoints proxy m
          = seen_in_order ((λ e : endpoint, ("localhost", e.1.2))
                             <$> filter (λ e : endpoint, e.1.1.1 = m) endpoints))
  ∧ (∀ e : endpoint, e ∈ endpoints →
       ("localhost", e.1.2) ∈ pool_endpoints proxy e.1.1.1).
Proof.
  cbv zeta.
  destruct (build_backends_spec endpoints) as [Hkeys Hget].
  set (d := _build_backends endpoints) in *.
  set (models := (λ e : endpoint, e.1.1.1) <$> endpoints) in *.
  assert (Hwf : PyDict.wf d).
  { unfold PyDict.wf. rewrite Hkeys.
    apply (add_seen_fold_spec [] models), NoDup_nil_2. }
  assert (Hfilter : ∀ m, m ∈ models ↔
            filter (λ e : endpoint, e.1.1.1 = m) endpoints ≠ []).
  { intros m. split.
    - intros (e & -> & He)%list_elem_of_fmap Hnil.
      assert (Hin : e ∈ filter (λ e0 : endpoint, e0.1.1.1 = e.1.1.1) endpoints)
        by by apply list_elem_of_filter.
      rewrite Hnil in Hin. by apply elem_of_nil in Hin.
    - intros Hne. destruct (filter _ endpoints) as [|x xs] eqn:Hf; [done|].
      assert (Hx : x ∈ x :: xs) by (apply elem_of_cons; by left).
      rewrite <- Hf in Hx. apply list_elem_of_filter in Hx as [Hxm Hx].
      apply list_elem_of_fmap. by exists x. }
  assert (Hne : ∀ kv, kv ∈ d → kv.2 ≠ []).
  { intros [k l] Hkv. simpl. apply (PyDictFacts.elem_getitem _ _ _ Hwf) in Hkv.
    rewrite Hget in Hkv. destruct (decide (k ∈ models)) as [Hk|]; [|done].
    injection Hkv as <-. apply Hfilter in Hk. intros Hnil.
    apply fmap_nil_inv in Hnil. done. }
  destruct (proxy_server_fold d
              (LoadBalancingProxy_init strategy
                 (default HeadersConfig_default headers_config)) Hwf Hne)
    as (Hk & Hok & Hends).
  fold (proxy_server d strategy headers_config) in Hk, Hok, Hends.
  assert (Hpool : ∀ m, pool_endpoints (proxy_server d strategy headers_config) m
            = seen_in_order ((λ e : endpoint, ("localhost", e.1.2))
                               <$> filter (λ e : endpoint, e.1.1.1 = m) endpoints)).
  { intros m. rewrite Hends, Hget. unfold pool_endpoints at 1. simpl.
    destruct (decide (m ∈ models)) as [Hm|Hm]; simpl.
    - by rewrite <- list_fmap_compose.
    - destruct (filter (λ e : endpoint, e.1.1.1 = m) endpoints) eqn:Hf; [done|].
      exfalso. apply Hm, Hfilter. by rewrite Hf. }
  split_and!.
  - apply Hok. split; [apply NoDup_nil_2|]. by intros ? ? ?%elem_of_nil.
  - rewrite Hk. simpl. rewrite (add_seen_fold_NoDup [] (PyDict.keys d)) by done.
    done.
  - exact Hpool.
  - intros e He. rewrite Hpool.
    apply (add_seen_fold_spec [] _ NoDup_nil_2). right.
    apply list_elem_of_fmap. exists e. split; [done|].
    by apply list_elem_of_filter.
Qed.

(** X20. The allocations cover the replicas or there are none.  When
    [_get_allocations] returns for a positive number of replicas, every
    allocation has a positive count and, unless the list is empty, the
    counts add up to the number of replicas, so that [start_jobs] starts the
    replicas 0, 1, ..., n - 1 of each model, each once.  The list is empty
    only when [scontrol] is there and no preferred partition has idle GPUs
    for a single replica: then no job is started. *)
Theorem allocations_cover_replicas (scontrol : bool) (idle_gpus : nat → Z)
    (preferences : list partition_pref) (num_replicas : Z)
    (allocations : list allocation) :
  _get_allocations scontrol idle_gpus preferences num_replicas = Some allocations →
  0 < num_replicas →
  Forall (λ a, 0 < alloc_count a) allocations
  ∧ (allocations = [] ∨ total_count allocations = num_replicas)
  ∧ (allocations ≠ [] →
     started_replicas 0 allocations = Z.of_nat <$> seq 0 (Z.to_nat num_replicas))
  ∧ (allocations = [] →
     scontrol = true ∧ preferences ≠ []
     ∧ ∀ i pref, preferences !! i = Some pref →
         idle_gpus i `div` default 4 (pref_gpus pref) ≤ 0).
Proof.
  intros Hget Hn.
  assert (Hmain : Forall (λ a, 0 < alloc_count a) allocations
                  ∧ (allocations = [] ∨ total_count allocations = num_replicas)
                  ∧ (allocations = [] →
                     scontrol = true ∧ preferences ≠ []
                     ∧ ∀ i pref, preferences !! i = Some pref →
                         idle_gpus i `div` default 4 (pref_gpus pref) ≤ 0)).
  { unfold _get_allocations in Hget.
    destruct preferences as [|pref0 prefs].
    { injection Hget as <-. split_and!; [|right|done].
      - by apply Forall_singleton.
      - unfold total_count. simpl. lia. }
    unfold allocate_partitions in Hget. destruct scontrol; cbn [negb] in Hget.
    - destruct (allocate_loop idle_gpus 0 (pref0 :: prefs) [] num_replicas)
        as [[al r]|] eqn:Hloop; [|done].
      cbn [mbind option_bind] in Hget. injection Hget as <-.
      apply allocate_loop_spec in Hloop
        as (Hsum & Hall & Hr & new & Hnew & Hnone); [|done|lia].
      simpl in Hnew. subst new. change (total_count []) with 0 in Hsum.
      destruct (Z.gtb_spec r 0) as [Hpos|Hzero].
      + destruct al as [|a l].
        * split_and!; [done | by left |]. intros _. split_and!; [done..|].
          intros i pref Hi. by apply (Hnone eq_refl Hn i pref).
        * pose proof (first_max_from_lt 0 (alloc_count a) 1 l) as Hlt.
          split_and!.
          -- apply Forall_alter; [done|]. intros b Hb. simpl.
             rewrite Forall_forall in Hall.
             assert (0 < alloc_count b); [|lia].
             apply Hall. by eapply list_elem_of_lookup_2.
          -- right. rewrite total_count_alter by (simpl; lia). lia.
          -- intros Hnil. apply (f_equal length) in Hnil.
             rewrite length_alter in Hnil. done.
      + split_and!; [done| |].
        * right. lia.
        * intros ->. change (total_count []) with 0 in Hsum. lia.
    - injection Hget as <-. split_and!; [|right|done].
      + by apply Forall_singleton.
      + unfold total_count. simpl. lia. }
  destruct Hmain as (Hall & Hsum & Hempty). split_and!; try done.
  intros Hne. destruct Hsum as [->|Hsum]; [done|].
  rewrite started_replicas_spec, Hsum by done.
  apply list_fmap_ext. intros _ k _. lia.
Qed.

Lemma allocations_cover_replicas_witness :
  let idle_gpus (i : nat) : Z := match i with 0%nat => 9 | 1%nat => 3 | _ => 40 end in
  let preferences :=
    [mkPref "a100" (Some "high") (Some 4); mkPref "v100" None (Some 4);
     mkPref "t4" (Some "low") None] in
  let allocations :=
    [mkAlloc "a100" (Some "high") (Some 4) 2; mkAlloc "t4" (Some "low") (Some 4) 3] in
  _get_allocations true idle_gpus preferences 5 = Some allocations
  ∧ total_count allocations = 5
  ∧ started_replicas 0 allocations = [0; 1; 2; 3; 4].
Proof.
  cbv zeta. split; [reflexivity|].
  destruct (allocations_cover_replicas true
              (λ i, match i with 0%nat => 9 | 1%nat => 3 | _ => 40 end)
              [mkPref "a100" (Some "high") (Some 4); mkPref "v100" None (Some 4);
               mkPref "t4" (Some "low") None] 5
              [mkAlloc "a100" (Some "high") (Some 4) 2;
               mkAlloc "t4" (Some "low") (Some 4) 3] eq_refl)
    as (_ & Hsum & Hstarted & _); [lia|].
  split.
  - by destruct Hsum as [?|?].
  - by rewrite Hstarted.
Defined.


(** X22. [SSHTunnelManager.start] opens one tunnel per [(host, port)] of
    the endpoint list and leaves the list alone, so that list and process
    table are in step, and stay in step under every later [add_tunnel] and
    [remove_tunnel]; a second [start] does nothing.  [stop] empties the
    process table and keeps the list. *)
Theorem tunnels_in_step_after_start (self self' : SSHTunnelManager)
    (spawns : string → Z → bool) :
  procs self = ∅ →
  tunnels_start self spawns = Some self' →
  endpoints self' = endpoints self
  ∧ tunnels_in_step self'
  ∧ (∀ ops, tunnels_in_step (run_tunnel_ops self' ops))
  ∧ (∀ spawns', tunnels_start self' spawns' = Some self')
  ∧ procs (tunnels_stop self') = ∅
  ∧ endpoints (tunnels_stop self') = endpoints self.
Proof.
  intros Hempty. unfold tunnels_start. rewrite bool_decide_eq_true_2 by done.
  destruct (start_tunnels spawns (endpoints self) (procs self)) as [ps|] eqn:Hs;
    [|done].
  intros [= <-]. simpl.
  assert (Hstep : tunnels_in_step (mkTunnels (endpoints self) ps)).
  { intros k. simpl. rewrite (start_tunnels_spec _ _ _ _ Hs k), Hempty.
    unfold tunnel_keys. simpl. rewrite elem_of_empty. tauto. }
  split_and!; try done.
  - intros ops. revert Hstep. generalize (mkTunnels (endpoints self) ps).
    induction ops as [|op ops IH]; intros t Ht; [done|].
    simpl. apply IH. by apply tunnels_in_step_op.
  - intros spawns'. simpl. case_bool_decide as Hps; [|done].
    simpl in Hps. subst ps.
    destruct (endpoints self) as [|[[m h] p] eps] eqn:He; [done|].
    exfalso. specialize (Hstep (h, p)). unfold tunnel_keys in Hstep. simpl in Hstep.
    apply (not_elem_of_empty (C:=gset (string * Z)) (h, p)), Hstep.
    apply elem_of_cons. by left.
Qed.

Lemma tunnels_in_step_after_start_witness :
  let self := mkTunnels [("my_model", "node05", 5900); ("my_model", "node07", 5910)] ∅ in
  let self' :=
    mkTunnels [("my_model", "node05", 5900); ("my_model", "node07", 5910)]
      {[("node07", 5910); ("node05", 5900)]} in
  procs self = ∅
  ∧ tunnels_start self (λ _ _, true) = Some self'
  ∧ tunnels_in_step self'.
Proof.
  cbv zeta.
  set (self := mkTunnels [("my_model", "node05", 5900); ("my_model", "node07", 5910)] ∅).
  set (self' := mkTunnels _ {[("node07", 5910); ("node05", 5900)]}).
  assert (Hstart : tunnels_start self (λ _ _, true) = Some self').
  { unfold tunnels_start. rewrite bool_decide_eq_true_2 by done. simpl.
    subst self'. by do 2 f_equal. }
  split_and!; [done | exact Hstart |].
  exact (proj1 (proj2 (tunnels_in_step_after_start self self' (λ _ _, true)
                         eq_refl Hstart))).
Defined.
